(** * Jukebox room coordination engine: a shallow embedding of
      [server/src/rooms.js] (class [RoomManager]), of the WebSocket
      dispatcher and the HTTP routes of [server/src/index.js], and of
      [server/src/youtube.js].

    Conventions of the embedding.
    - JavaScript numbers are IEEE 754 binary64 values ([float]), with
      their rounding, signed zeros, infinities and [NaN]; the numbers
      that only ever hold integers ([currentIndex], the readings of
      [Date.now()], sizes) are [Z] or [nat], and [Number_of_Z] is the
      number that holds such an integer.
    - A character of a [string] stands for one UTF-16 code unit below 256.
    - [Map]s that are never iterated ([rooms], [connections], [wsToUser])
      are [gmap]s; [room.users], whose insertion order decides host
      migration, is an insertion-ordered association list; [skipVotes] is
      a [gset].
    - The handlers run in a small state monad over the manager, the log of
      delivered frames and the number of clock readings taken so far. *)

From Stdlib Require Import ZArith QArith Qround Floats String Ascii List Bool.
From Stdlib Require Import Lia.
From stdpp Require Import base option list gmap strings fin_maps fin_sets.

Local Open Scope Z_scope.
Local Open Scope string_scope.

(** A decimal literal is the binary64 number nearest to it, as in
    JavaScript and JSON. *)
Set Warnings "-inexact-float".

(** ** JavaScript strings *)

Module JsString.

  (** White space and line terminators of ECMAScript below code unit 256. *)
Definition is_space (c : ascii) : bool :=
    let n := nat_of_ascii c in
    ((9 <=? n) && (n <=? 13) || (n =? 32) || (n =? 160))%nat.

Fixpoint trimStart (s : string) : string :=
    match s with
    | EmptyString => EmptyString
    | String c s' => if is_space c then trimStart s' else s
    end.

Definition is_empty (s : string) : bool :=
    match s with EmptyString => true | _ => false end.

Fixpoint trimEnd (s : string) : string :=
    match s with
    | EmptyString => EmptyString
    | String c s' =>
        let t := trimEnd s' in
        if is_space c && is_empty t then EmptyString else String c t
    end.

  (** [s.trim()] *)
Definition trim (s : string) : string := trimEnd (trimStart s).

  (** [s.slice(0, n)] *)
Fixpoint slice0 (n : nat) (s : string) : string :=
    match n, s with
    | S n', String c s' => String c (slice0 n' s')
    | _, _ => EmptyString
    end.

  (** Truthiness of a string: only the empty string is falsy. *)
Definition truthy (s : string) : bool := negb (is_empty s).

Fixpoint all_space (s : string) : bool :=
    match s with
    | EmptyString => true
    | String c s' => is_space c && all_space s'
    end.

Fixpoint replicate (n : nat) (c : ascii) : string :=
    match n with
    | O => EmptyString
    | S n' => String c (replicate n' c)
    end.

End JsString.

(** ** The values a decoded JSON frame can carry in a field *)

Inductive JsValue :=
| JUndefined                      (* the field is absent *)
| JNull
| JBool (b : bool)
| JNumber (q : float)
| JString (s : string)
| JObject (rendering : string).   (* an object or array; [String(v)] is [rendering] *)

Section Coercions.

  (** The two conversions of the runtime that the engine relies on but
      whose algorithms are not part of it: [Number::toString] and
      [StringToNumber]. *)
Variable Number_toString : float -> string.
Variable String_toNumber : string -> float.

  (** [ToBoolean(v)] *)
Definition truthy (v : JsValue) : bool :=
    match v with
    | JUndefined | JNull => false
    | JBool b => b
    | JNumber q => negb (is_nan q || is_zero q)
    | JString s => JsString.truthy s
    | JObject _ => true
    end.

  (** [String(v)] *)
Definition String_ (v : JsValue) : string :=
    match v with
    | JUndefined => "undefined"
    | JNull => "null"
    | JBool true => "true"
    | JBool false => "false"
    | JNumber q => Number_toString q
    | JString s => s
    | JObject r => r
    end.

  (** [Number(v)] *)
Definition Number_ (v : JsValue) : float :=
    match v with
    | JUndefined => nan
    | JNull => 0
    | JBool true => 1
    | JBool false => 0
    | JNumber q => q
    | JString s => String_toNumber s
    | JObject r => String_toNumber r
    end.

  (** [Number(v) || 0]: [NaN], [+0] and [-0] are the falsy numbers. *)
Definition Number_or_0 (v : JsValue) : float :=
    let q := Number_ v in
    if is_nan q || is_zero q then 0 else q.

  (** [v || d] *)
Definition or_else (v d : JsValue) : JsValue := if truthy v then v else d.

End Coercions.

(** ** JavaScript numbers *)

(** The number that holds the integer [z]: [z] itself up to [2^53] in
    absolute value, which covers every reading of [Date.now()], and the
    nearest binary64 value beyond. *)
Definition Number_of_Z (z : Z) : float :=
  SF2Prim (binary_normalize prec emax z 0 false).
Arguments Number_of_Z : simpl never.

(** [Math.max(a, b)] and [Math.min(a, b)]: [NaN] when an argument is
    [NaN], and [+0] is larger than [-0]. *)
Definition Math_max (a b : float) : float :=
  if is_nan a || is_nan b then nan
  else if (a <? b)%float then b
  else if (b <? a)%float then a
  else if get_sign a then b else a.

Definition Math_min (a b : float) : float :=
  if is_nan a || is_nan b then nan
  else if (a <? b)%float then a
  else if (b <? a)%float then b
  else if get_sign a then a else b.

(** ** Insertion-ordered maps ([room.users]) *)

Module JsMap.
Section Ordered.
Context {V : Type}.

Definition t := list (string * V).

Definition size (m : t) : nat := length m.

Fixpoint get (k : string) (m : t) : option V :=
      match m with
      | [] => None
      | (k', v) :: m' => if decide (k' = k) then Some v else get k m'
      end.

Definition has (k : string) (m : t) : bool :=
      match get k m with Some _ => true | None => false end.

    (** [m.set(k, v)]: an existing key keeps its position. *)
Fixpoint set (k : string) (v : V) (m : t) : t :=
      match m with
      | [] => [(k, v)]
      | (k', v') :: m' =>
          if decide (k' = k) then (k', v) :: m' else (k', v') :: set k v m'
      end.

    (** [m.delete(k)] *)
Fixpoint delete (k : string) (m : t) : t :=
      match m with
      | [] => []
      | (k', v') :: m' =>
          if decide (k' = k) then delete k m' else (k', v') :: delete k m'
      end.

    (** [m.keys()] and [m.values()], in insertion order. *)
Definition keys (m : t) : list string := map fst m.
Definition values (m : t) : list V := map snd m.

    (** [m.keys().next().value] *)
Definition first_key (m : t) : option string := head (keys m).

End Ordered.
Arguments t : clear implicits.
End JsMap.

(** ** Data model *)

Abbreviation UserId := string (only parsing).
Abbreviation RoomId := string (only parsing).
Abbreviation TrackId := string (only parsing).

(** A WebSocket handle; only its identity matters. *)
Abbreviation Ws := nat (only parsing).

Inductive PlaybackState := playing | paused.

Record Track := {
  track_id : TrackId;
  youtubeId : string;
  title : JsValue;
  thumbnail : string;
  duration : Z;
  addedBy : UserId;
  addedByName : string
}.

Record User := {
  user_id : UserId;
  user_name : string;
  color : string
}.

Record Room := {
  room_id : RoomId;
  room_name : string;
  createdAt : Z;
  hostId : option UserId;
  queue : list Track;
  currentIndex : Z;
  playbackState : PlaybackState;
  startedAt : float;
  elapsed : float;
  users : JsMap.t User;
  skipVotes : gset string;
  crossfadeDuration : float
}.

Record Conn := { conn_ws : Ws; conn_roomId : RoomId }.

Record RoomManager := {
  rooms : gmap string Room;
  connections : gmap string Conn;
  wsToUser : gmap nat string
}.

#[global] Instance PlaybackState_eq_dec : EqDecision PlaybackState.
Proof. solve_decision. Defined.

(** Field updates ([room.f = v]). *)
Definition set_hostId (v : option UserId) (r : Room) : Room :=
  {| room_id := room_id r; room_name := room_name r; createdAt := createdAt r;
     hostId := v; queue := queue r; currentIndex := currentIndex r;
     playbackState := playbackState r; startedAt := startedAt r;
     elapsed := elapsed r; users := users r; skipVotes := skipVotes r;
     crossfadeDuration := crossfadeDuration r |}.

Definition set_queue (v : list Track) (r : Room) : Room :=
  {| room_id := room_id r; room_name := room_name r; createdAt := createdAt r;
     hostId := hostId r; queue := v; currentIndex := currentIndex r;
     playbackState := playbackState r; startedAt := startedAt r;
     elapsed := elapsed r; users := users r; skipVotes := skipVotes r;
     crossfadeDuration := crossfadeDuration r |}.

Definition set_currentIndex (v : Z) (r : Room) : Room :=
  {| room_id := room_id r; room_name := room_name r; createdAt := createdAt r;
     hostId := hostId r; queue := queue r; currentIndex := v;
     playbackState := playbackState r; startedAt := startedAt r;
     elapsed := elapsed r; users := users r; skipVotes := skipVotes r;
     crossfadeDuration := crossfadeDuration r |}.

Definition set_playbackState (v : PlaybackState) (r : Room) : Room :=
  {| room_id := room_id r; room_name := room_name r; createdAt := createdAt r;
     hostId := hostId r; queue := queue r; currentIndex := currentIndex r;
     playbackState := v; startedAt := startedAt r;
     elapsed := elapsed r; users := users r; skipVotes := skipVotes r;
     crossfadeDuration := crossfadeDuration r |}.

Definition set_startedAt (v : float) (r : Room) : Room :=
  {| room_id := room_id r; room_name := room_name r; createdAt := createdAt r;
     hostId := hostId r; queue := queue r; currentIndex := currentIndex r;
     playbackState := playbackState r; startedAt := v;
     elapsed := elapsed r; users := users r; skipVotes := skipVotes r;
     crossfadeDuration := crossfadeDuration r |}.

Definition set_elapsed (v : float) (r : Room) : Room :=
  {| room_id := room_id r; room_name := room_name r; createdAt := createdAt r;
     hostId := hostId r; queue := queue r; currentIndex := currentIndex r;
     playbackState := playbackState r; startedAt := startedAt r;
     elapsed := v; users := users r; skipVotes := skipVotes r;
     crossfadeDuration := crossfadeDuration r |}.

Definition set_users (v : JsMap.t User) (r : Room) : Room :=
  {| room_id := room_id r; room_name := room_name r; createdAt := createdAt r;
     hostId := hostId r; queue := queue r; currentIndex := currentIndex r;
     playbackState := playbackState r; startedAt := startedAt r;
     elapsed := elapsed r; users := v; skipVotes := skipVotes r;
     crossfadeDuration := crossfadeDuration r |}.

Definition set_skipVotes (v : gset string) (r : Room) : Room :=
  {| room_id := room_id r; room_name := room_name r; createdAt := createdAt r;
     hostId := hostId r; queue := queue r; currentIndex := currentIndex r;
     playbackState := playbackState r; startedAt := startedAt r;
     elapsed := elapsed r; users := users r; skipVotes := v;
     crossfadeDuration := crossfadeDuration r |}.

Definition set_crossfadeDuration (v : float) (r : Room) : Room :=
  {| room_id := room_id r; room_name := room_name r; createdAt := createdAt r;
     hostId := hostId r; queue := queue r; currentIndex := currentIndex r;
     playbackState := playbackState r; startedAt := startedAt r;
     elapsed := elapsed r; users := users r; skipVotes := skipVotes r;
     crossfadeDuration := v |}.

Definition set_rooms (v : gmap string Room) (m : RoomManager) : RoomManager :=
  {| rooms := v; connections := connections m; wsToUser := wsToUser m |}.

Definition set_connections (v : gmap string Conn) (m : RoomManager) : RoomManager :=
  {| rooms := rooms m; connections := v; wsToUser := wsToUser m |}.

Definition set_wsToUser (v : gmap nat string) (m : RoomManager) : RoomManager :=
  {| rooms := rooms m; connections := connections m; wsToUser := v |}.

(** ** Outbound frames *)

Record SerializedRoom := {
  s_id : RoomId;
  s_name : string;
  s_hostId : option UserId;
  s_queue : list Track;
  s_currentIndex : Z;
  s_playbackState : PlaybackState;
  s_elapsed : float;
  s_startedAt : float;
  s_users : list User;
  s_skipVotes : nat;
  s_skipNeeded : Z;
  s_crossfadeDuration : float
}.

Inductive Message :=
| room_state (room : SerializedRoom) (userId : UserId)
| room_error (message : string)
| queue_updated (q : list Track) (ci : Z)
| playback_sync (state : PlaybackState) (ci : Z) (el : float) (timestamp : Z)
                (yt : option string)
| user_joined (user : User)
| user_left (userId : UserId)
| skip_votes (current : nat) (needed : Z)
| chat_message (userId : UserId) (userName : string) (text : string) (timestamp : Z)
| crossfade_updated (d : float).

(** Predefined avatar colours for users. *)
Definition USER_COLORS : list string :=
  [ "#FF5722"; "#FF9800"; "#FFC107"; "#4CAF50"; "#2196F3"; "#9C27B0";
    "#E91E63"; "#00BCD4"; "#8BC34A"; "#FF5252"; "#69F0AE"; "#40C4FF" ].

(** ** The handler monad

    A handler reads and writes the manager, appends to the log of frames
    that [ws.send] accepted, and reads the clock.  It returns, or aborts
    with an uncaught [TypeError]; [OutOfFuel] is the model running out of
    recursion budget in the eviction cascade, which [handle_ends] below
    shows never happens. *)

Record World := {
  mgr : RoomManager;
  sent : list (nat * Message);
  ticks : nat
}.

Inductive Outcome (A : Type) :=
| Returned (a : A) (w : World)
| Thrown (w : World)
| OutOfFuel.
Arguments Returned {A} a w.
Arguments Thrown {A} w.
Arguments OutOfFuel {A}.

Definition M (A : Type) := World -> Outcome A.

Definition ret {A} (a : A) : M A := fun w => Returned a w.

Definition bind {A B} (c : M A) (k : A -> M B) : M B :=
  fun w =>
    match c w with
    | Returned a w' => k a w'
    | Thrown w' => Thrown w'
    | OutOfFuel => OutOfFuel
    end.

Definition throw {A} : M A := fun w => Thrown w.

Notation "'let!' x ':=' c 'in' k" := (bind c (fun x => k))
  (at level 10, x name, c at level 100, k at level 200).
Notation "c ;; k" := (bind c (fun _ => k))
  (at level 100, k at level 200, right associativity).

Definition gets {A} (f : RoomManager -> A) : M A :=
  fun w => Returned (f (mgr w)) w.

Definition modify (f : RoomManager -> RoomManager) : M unit :=
  fun w => Returned tt {| mgr := f (mgr w); sent := sent w; ticks := ticks w |}.

(** A frame accepted by [ws.send]. *)
Definition deliver (ws : Ws) (payload : Message) : M unit :=
  fun w => Returned tt
    {| mgr := mgr w; sent := sent w ++ [(ws, payload)]; ticks := ticks w |}.

Fixpoint for_each {A} (l : list A) (body : A -> M unit) : M unit :=
  match l with
  | [] => ret tt
  | x :: l' => body x ;; for_each l' body
  end.

(** The world a handler ends in, when it ends. *)
Definition final {A} (o : Outcome A) : option World :=
  match o with
  | Returned _ w => Some w
  | Thrown w => Some w
  | OutOfFuel => None
  end.

(** [room.f = v] on the room object stored under [roomId]. *)
Definition update_room (roomId : RoomId) (f : Room -> Room) : M unit :=
  modify (fun m => set_rooms (alter f roomId (rooms m)) m).

(** [Math.ceil(n / 2)] for the size [n] of a [Map]: an integer, on which
    the division and the rounding up are exact. *)
Definition ceil_half (n : nat) : Z := Qceiling (inject_Z (Z.of_nat n) / 2).

(** [queue.findIndex(t => t.id === trackId)], [-1] being [None]. *)
Fixpoint findIndex (trackId : TrackId) (q : list Track) : option nat :=
  match q with
  | [] => None
  | t :: q' =>
      if decide (track_id t = trackId) then Some O
      else option_map S (findIndex trackId q')
  end.

(** [queue.splice(i, 1)] *)
Fixpoint splice1 (i : nat) (q : list Track) : list Track :=
  match i, q with
  | _, [] => []
  | O, _ :: q' => q'
  | S i', t :: q' => t :: splice1 i' q'
  end.

(** [queue[i]] for an integer [i]. *)
Definition queue_at (q : list Track) (i : Z) : option Track :=
  if (0 <=? i)%Z then q !! Z.to_nat i else None.

Definition len (q : list Track) : Z := Z.of_nat (length q).

(** [room.currentIndex >= 0 ? room.queue[room.currentIndex] : null] *)
Definition currentTrack (room : Room) : option Track :=
  if (currentIndex room >=? 0)%Z
  then queue_at (queue room) (currentIndex room) else None.

(** ** The engine: [class RoomManager] *)

(** The environment of one handler invocation: the successive readings of
    [Date.now()], the sockets whose [send] throws, and the identifier that
    [nanoid] draws. *)
Record Env := {
  clock : nat -> Z;
  fails : nat -> bool;
  nanoid : string
}.

Section Engine.

Variable Number_toString : float -> string.
Variable String_toNumber : string -> float.

  (** The environment of this handler invocation. *)
Variable env : Env.

Definition Date_now : M Z :=
    fun w => Returned (clock env (ticks w))
      {| mgr := mgr w; sent := sent w; ticks := S (ticks w) |}.

  (** *** Internal helpers *)

  (** [_roomForUser]: the room comes with the key it is stored under,
      which stands for the reference to the room object. *)
Definition _roomForUser (userId : UserId) : M (option (RoomId * Room)) :=
    let! conn := gets (fun m => connections m !! userId) in
    match conn with
    | None => ret None
    | Some conn =>
        let! room := gets (fun m => rooms m !! conn_roomId conn) in
        ret (option_map (fun r => (conn_roomId conn, r)) room)
    end.

Definition put_room (roomId : RoomId) (r : Room) : M unit :=
    update_room roomId (fun _ => r).

  (** [sendTo], with the eviction it falls back on as a parameter. *)
Definition sendTo_with (leaveRoom : UserId -> M unit)
      (ws : Ws) (payload : Message) : M unit :=
    if fails env ws then
      let! userId := gets (fun m => wsToUser m !! ws) in
      match userId with
      | Some userId => if JsString.truthy userId then leaveRoom userId else ret tt
      | None => ret tt
      end
    else deliver ws payload.

  (** Is [userId] still an entry of the user map being iterated?  A room
      that an eviction has deleted meanwhile has an empty user map. *)
Definition still_member (roomId : RoomId) (userId : UserId) (m : RoomManager) : bool :=
    match rooms m !! roomId with
    | Some r => JsMap.has userId (users r)
    | None => false
    end.

  (** [broadcastToRoom]: the loop runs over the live user map, so an entry
      deleted by an eviction during the loop is not visited. *)
Definition broadcastToRoom_with (leaveRoom : UserId -> M unit)
      (roomId : RoomId) (payload : Message) (excludeWs : option Ws) : M unit :=
    let! room := gets (fun m => rooms m !! roomId) in
    match room with
    | None => ret tt
    | Some room =>
        for_each (JsMap.keys (users room)) (fun userId =>
          let! live := gets (still_member roomId userId) in
          if live then
            let! conn := gets (fun m => connections m !! userId) in
            match conn with
            | None => ret tt
            | Some conn =>
                if decide (excludeWs = Some (conn_ws conn)) then ret tt
                else sendTo_with leaveRoom (conn_ws conn) payload
            end
          else ret tt)
    end.

  (** Host migration of [leaveRoom]. *)
Definition migrate_host (userId : UserId) (r : Room) : Room :=
    if decide (hostId r = Some userId) then
      if (0 <? JsMap.size (users r))%nat
      then set_hostId (JsMap.first_key (users r)) r
      else r
    else r.

  (** The body of [leaveRoom]; [sendTo] calls [leaveRoom] back, through
      the parameter. *)
Definition leaveRoom_body (leaveRoom : UserId -> M unit) (userId : UserId)
    : M unit :=
    let! conn := gets (fun m => connections m !! userId) in
    match conn with
    | None => ret tt
    | Some conn =>
        let roomId := conn_roomId conn in
        let! room := gets (fun m => rooms m !! roomId) in
        (* Clean up connection maps *)
        modify (fun m => set_connections (delete userId (connections m)) m) ;;
        modify (fun m => set_wsToUser (delete (conn_ws conn) (wsToUser m)) m) ;;
        match room with
        | None => ret tt
        | Some _ =>
            update_room roomId (fun r =>
              set_skipVotes (skipVotes r ∖ {[userId]})
                (set_users (JsMap.delete userId (users r)) r)) ;;
            (* Notify remaining users *)
            broadcastToRoom_with leaveRoom roomId (user_left userId) None ;;
            (* Host migration *)
            update_room roomId (migrate_host userId) ;;
            (* Prune empty rooms *)
            let! room' := gets (fun m => rooms m !! roomId) in
            match room' with
            | Some r =>
                if (JsMap.size (users r) =? 0)%nat
                then modify (fun m => set_rooms (delete roomId (rooms m)) m)
                else ret tt
            | None => ret tt
            end
        end
    end.

  (** Every nested call of [leaveRoom] comes after a connection has been
      deleted, so the number of connections bounds the depth of the
      recursion. *)
Fixpoint leaveRoom_fuel (fuel : nat) (userId : UserId) : M unit :=
    match fuel with
    | O => fun _ => OutOfFuel
    | S fuel' => leaveRoom_body (leaveRoom_fuel fuel') userId
    end.

Definition leaveRoom (userId : UserId) : M unit :=
    fun w => leaveRoom_fuel (S (size (connections (mgr w)))) userId w.

Definition sendTo : Ws -> Message -> M unit := sendTo_with leaveRoom.

Definition broadcastToRoom : RoomId -> Message -> option Ws -> M unit :=
    broadcastToRoom_with leaveRoom.

  (** The position that [playback:sync] and [room:state] report. *)
Definition position (room : Room) : M float :=
    match playbackState room with
    | playing =>
        let! now := Date_now in
        ret ((Number_of_Z now - startedAt room) / 1000)%float
    | paused => ret (elapsed room)
    end.

Definition broadcastPlaybackSync (roomId : RoomId) : M unit :=
    let! room := gets (fun m => rooms m !! roomId) in
    match room with
    | None => ret tt
    | Some room =>
        let! el := position room in
        let! timestamp := Date_now in
        broadcastToRoom roomId
          (playback_sync (playbackState room) (currentIndex room) el timestamp
             (option_map youtubeId (currentTrack room))) None
    end.

Definition serializeRoom (room : Room) : M SerializedRoom :=
    let! el := position room in
    ret {| s_id := room_id room; s_name := room_name room;
           s_hostId := hostId room; s_queue := queue room;
           s_currentIndex := currentIndex room;
           s_playbackState := playbackState room;
           s_elapsed := el; s_startedAt := startedAt room;
           s_users := JsMap.values (users room);
           s_skipVotes := size (skipVotes room);
           s_skipNeeded := ceil_half (JsMap.size (users room));
           s_crossfadeDuration := crossfadeDuration room |}.

  (** *** Room management *)

Definition createRoom (name : JsValue) : M (RoomId * string) :=
    let id := nanoid env in
    let! roomName :=
      if truthy name then
        match name with
        | JString s =>
            ret (if JsString.truthy (JsString.trim s)
                 then JsString.slice0 64 (JsString.trim s)
                 else "Room " ++ id)
        | _ => throw             (* name.trim is not a function *)
        end
      else ret ("Room " ++ id) in
    let! now := Date_now in
    let room :=
      {| room_id := id; room_name := roomName; createdAt := now;
         hostId := None; queue := []; currentIndex := -1;
         playbackState := paused; startedAt := 0; elapsed := 0;
         users := []; skipVotes := ∅; crossfadeDuration := 3 |} in
    modify (fun m => set_rooms (<[id := room]> (rooms m)) m) ;;
    ret (id, roomName).

Definition getRoom (roomId : RoomId) : M (option Room) :=
    gets (fun m => rooms m !! roomId).

  (** A field of a frame used as a [Map] key or compared with [===]
      against a string matches only when it is a string. *)
Definition as_key (v : JsValue) : option string :=
    match v with JString s => Some s | _ => None end.

Definition joinRoom (roomId : JsValue) (userName : JsValue) (ws : Ws) : M unit :=
    let! room := gets (fun m => as_key roomId ≫= fun k => rooms m !! k) in
    match room, as_key roomId with
    | Some room, Some roomId =>
        let userId := nanoid env in
        let colorIndex := (JsMap.size (users room) mod length USER_COLORS)%nat in
        match or_else userName (JString "Anonymous") with
        | JString s =>
            let user :=
              {| user_id := userId;
                 user_name := JsString.slice0 24 (JsString.trim s);
                 color := nth colorIndex USER_COLORS "" |} in
            (* Set host if this is the first user *)
            let room1 :=
              if (JsMap.size (users room) =? 0)%nat
              then set_hostId (Some userId) room else room in
            let room2 := set_users (JsMap.set userId user (users room1)) room1 in
            put_room roomId room2 ;;
            (* Track connection *)
            modify (fun m => set_connections
              (<[userId := {| conn_ws := ws; conn_roomId := roomId |}]> (connections m)) m) ;;
            modify (fun m => set_wsToUser (<[ws := userId]> (wsToUser m)) m) ;;
            (* Send full room state to the new user *)
            let! s := serializeRoom room2 in
            sendTo ws (room_state s userId) ;;
            (* Broadcast join event to all other users in the room *)
            broadcastToRoom roomId (user_joined user) (Some ws)
        | _ => throw             (* userName.trim is not a function *)
        end
    | _, _ => sendTo ws (room_error "Room not found")
    end.

Definition leaveByWs (ws : Ws) : M unit :=
    let! userId := gets (fun m => wsToUser m !! ws) in
    match userId with
    | Some userId => if JsString.truthy userId then leaveRoom userId else ret tt
    | None => ret tt
    end.

  (** *** Queue management *)

Definition addTrack (userId : UserId) (yt : string) (ti : JsValue)
      (th : string) : M unit :=
    let! conn := gets (fun m => connections m !! userId) in
    match conn with
    | None => ret tt
    | Some conn =>
        let! room := gets (fun m => rooms m !! conn_roomId conn) in
        match room with
        | None => ret tt
        | Some room =>
            let user := JsMap.get userId (users room) in
            let track :=
              {| track_id := nanoid env; youtubeId := yt; title := ti;
                 thumbnail := th; duration := 0; addedBy := userId;
                 addedByName :=
                   match user with Some u => user_name u | None => "Unknown" end |} in
            let room1 := set_queue (queue room ++ [track]) room in
            (* If nothing is currently playing, auto-start *)
            let! room2 :=
              if (currentIndex room1 =? -1)%Z then
                let! now := Date_now in
                ret (set_playbackState playing
                      (set_startedAt (Number_of_Z now)
                        (set_elapsed 0 (set_currentIndex 0 room1))))
              else ret room1 in
            put_room (conn_roomId conn) room2 ;;
            broadcastToRoom (conn_roomId conn)
              (queue_updated (queue room2) (currentIndex room2)) None ;;
            broadcastPlaybackSync (conn_roomId conn)
        end
    end.

Definition removeTrack (userId : UserId) (trackId : JsValue) : M unit :=
    let! conn := gets (fun m => connections m !! userId) in
    match conn with
    | None => ret tt
    | Some conn =>
        let! room := gets (fun m => rooms m !! conn_roomId conn) in
        match room with
        | None => ret tt
        | Some room =>
            match as_key trackId ≫= fun k => findIndex k (queue room) with
            | None => ret tt
            | Some trackIndex =>
                let isHost := bool_decide (hostId room = Some userId) in
                let isOwner :=
                  match queue room !! trackIndex with
                  | Some track => bool_decide (addedBy track = userId)
                  | None => false
                  end in
                if negb isHost && negb isOwner then ret tt
                else
                  let room1 := set_queue (splice1 trackIndex (queue room)) room in
                  (* Adjust currentIndex if needed *)
                  let! room2 :=
                    if (Z.of_nat trackIndex <? currentIndex room1)%Z then
                      ret (set_currentIndex (currentIndex room1 - 1) room1)
                    else if (Z.of_nat trackIndex =? currentIndex room1)%Z then
                      (* Playing track was removed: advance to next *)
                      let! room' :=
                        if (len (queue room1) =? 0)%Z then
                          ret (set_elapsed 0
                                (set_playbackState paused
                                  (set_currentIndex (-1) room1)))
                        else if (currentIndex room1 >=? len (queue room1))%Z then
                          let r := set_currentIndex (len (queue room1) - 1) room1 in
                          let! now := Date_now in
                          ret (set_playbackState playing
                                (set_elapsed 0 (set_startedAt (Number_of_Z now) r)))
                        else
                          let! now := Date_now in
                          ret (set_playbackState playing
                                (set_elapsed 0 (set_startedAt (Number_of_Z now) room1)))
                      in
                      ret (set_skipVotes ∅ room')
                    else ret room1 in
                  put_room (conn_roomId conn) room2 ;;
                  broadcastToRoom (conn_roomId conn)
                    (queue_updated (queue room2) (currentIndex room2)) None ;;
                  broadcastPlaybackSync (conn_roomId conn)
            end
        end
    end.

  (** *** Playback controls *)

Definition play (userId : UserId) : M unit :=
    let! room := _roomForUser userId in
    match room with
    | None => ret tt
    | Some (key, room) =>
        if (currentIndex room =? -1)%Z
           || bool_decide (playbackState room = playing) then ret tt
        else
          let! now := Date_now in
          put_room key
            (set_playbackState playing
              (set_startedAt
                 (Number_of_Z now - elapsed room * 1000)%float room)) ;;
          broadcastPlaybackSync (room_id room)
    end.

Definition pause (userId : UserId) : M unit :=
    let! room := _roomForUser userId in
    match room with
    | None => ret tt
    | Some (key, room) =>
        if bool_decide (playbackState room = paused) then ret tt
        else
          let! now := Date_now in
          put_room key
            (set_playbackState paused
              (set_elapsed
                 ((Number_of_Z now - startedAt room) / 1000)%float room)) ;;
          broadcastPlaybackSync (room_id room)
    end.

  (** Advance to the next track (internal or called by skip votes). *)
Definition nextTrack (roomId : RoomId) : M unit :=
    let! room := gets (fun m => rooms m !! roomId) in
    match room with
    | None => ret tt
    | Some room =>
        let room1 := set_skipVotes ∅ room in
        let! room2 :=
          if (len (queue room1) =? 0)%Z then
            ret (set_elapsed 0
                  (set_playbackState paused (set_currentIndex (-1) room1)))
          else if (currentIndex room1 <? len (queue room1) - 1)%Z then
            let r := set_elapsed 0 (set_currentIndex (currentIndex room1 + 1) room1) in
            let! now := Date_now in
            ret (set_playbackState playing (set_startedAt (Number_of_Z now) r))
          else
            (* End of queue *)
            ret (set_elapsed 0
                  (set_playbackState paused (set_currentIndex (-1) room1))) in
        put_room roomId room2 ;;
        broadcastToRoom roomId
          (queue_updated (queue room2) (currentIndex room2)) None ;;
        broadcastPlaybackSync roomId
    end.

  (** Cast a skip vote; advances to the next track if majority reached. *)
Definition skip (userId : UserId) : M unit :=
    let! room := _roomForUser userId in
    match room with
    | None => ret tt
    | Some (key, room) =>
        if (currentIndex room =? -1)%Z then ret tt
        else
          let room1 := set_skipVotes (skipVotes room ∪ {[userId]}) room in
          put_room key room1 ;;
          let needed := ceil_half (JsMap.size (users room1)) in
          let current := size (skipVotes room1) in
          broadcastToRoom (room_id room1) (skip_votes current needed) None ;;
          if (Z.of_nat current >=? needed)%Z then nextTrack (room_id room1)
          else ret tt
    end.

Definition seek (userId : UserId) (time : JsValue) : M unit :=
    let! room := _roomForUser userId in
    match room with
    | None => ret tt
    | Some (key, room) =>
        if (currentIndex room =? -1)%Z then ret tt
        else
          let seekTime := Math_max 0 (Number_or_0 String_toNumber time) in
          (match playbackState room with
           | playing =>
               let! now := Date_now in
               put_room key
                 (set_startedAt (Number_of_Z now - seekTime * 1000)%float room)
           | paused => put_room key (set_elapsed seekTime room)
           end) ;;
          broadcastPlaybackSync (room_id room)
    end.

  (** *** Chat and crossfade *)

Definition sanitize (text : JsValue) : string :=
    JsString.slice0 500
      (JsString.trim (String_ Number_toString (or_else text (JString "")))).

Definition chat (userId : UserId) (text : JsValue) : M unit :=
    let! conn := gets (fun m => connections m !! userId) in
    match conn with
    | None => ret tt
    | Some conn =>
        let! room := gets (fun m => rooms m !! conn_roomId conn) in
        match room with
        | None => ret tt
        | Some room =>
            match JsMap.get userId (users room) with
            | None => ret tt
            | Some user =>
                let sanitized := sanitize text in
                if negb (JsString.truthy sanitized) then ret tt
                else
                  let! now := Date_now in
                  broadcastToRoom (conn_roomId conn)
                    (chat_message userId (user_name user) sanitized now) None
            end
        end
    end.

Definition setCrossfade (userId : UserId) (d : JsValue) : M unit :=
    let! conn := gets (fun m => connections m !! userId) in
    match conn with
    | None => ret tt
    | Some conn =>
        let! room := gets (fun m => rooms m !! conn_roomId conn) in
        match room with
        | None => ret tt
        | Some room =>
            let clamped :=
              Math_max 0 (Math_min 8 (Number_or_0 String_toNumber d)) in
            put_room (conn_roomId conn) (set_crossfadeDuration clamped room) ;;
            broadcastToRoom (conn_roomId conn) (crossfade_updated clamped) None
        end
    end.

  (** *** The WebSocket dispatcher of [index.js] *)

  (** The URL parser of [youtube.js]; the engine only uses its result. *)
Variable extractYouTubeId : JsValue -> option string.

  (** A decoded frame, by its [type]. *)
Inductive ClientMsg :=
  | join (roomId userName : JsValue)
  | queue_add (url : JsValue)
  | queue_remove (trackId : JsValue)
  | playback_play
  | playback_pause
  | playback_skip
  | playback_seek (time : JsValue)
  | chat_text (text : JsValue)
  | crossfade_set (d : JsValue)
  | unknown_type.

  (** [handleQueueAdd] up to its [await]: the track is added when the
      metadata arrive, by a later call of [addTrack]. *)
Definition handleQueueAdd (userId : UserId) (url : JsValue) : M unit :=
    let! conn := gets (fun m => connections m !! userId) in
    match conn with
    | None => ret tt
    | Some conn =>
        match extractYouTubeId url with
        | None => sendTo (conn_ws conn) (room_error "Invalid YouTube URL")
        | Some _ => ret tt
        end
    end.

  (** [websocket.message] *)
Definition message (ws : Ws) (msg : ClientMsg) : M unit :=
    let! userId := gets (fun m => wsToUser m !! ws) in
    let bound (k : UserId -> M unit) : M unit :=
      match userId with
      | Some userId => if JsString.truthy userId then k userId else ret tt
      | None => ret tt
      end in
    match msg with
    | join roomId userName => joinRoom roomId userName ws
    | queue_add url => bound (fun u => handleQueueAdd u url)
    | queue_remove trackId => bound (fun u => removeTrack u trackId)
    | playback_play => bound play
    | playback_pause => bound pause
    | playback_skip => bound skip
    | playback_seek time => bound (fun u => seek u time)
    | chat_text text => bound (fun u => chat u text)
    | crossfade_set d => bound (fun u => setCrossfade u d)
    | unknown_type => ret tt
    end.

  (** [websocket.close] *)
Definition close (ws : Ws) : M unit := leaveByWs ws.

  (** What reaches the engine from outside. *)
Inductive Inbound :=
  | http_createRoom (name : JsValue)
  | ws_message (ws : Ws) (msg : ClientMsg)
  | ws_close (ws : Ws)
  | meta_resolved (userId : UserId) (yt : string) (ti : JsValue) (th : string).

Definition handle (ev : Inbound) : M unit :=
    match ev with
    | http_createRoom name => createRoom name ;; ret tt
    | ws_message ws msg => message ws msg
    | ws_close ws => close ws
    | meta_resolved userId yt ti th => addTrack userId yt ti th
    end.

End Engine.

(** One inbound event, from the manager it finds to the manager it leaves
    and the frames it delivered. *)
Definition start (m : RoomManager) : World :=
  {| mgr := m; sent := []; ticks := 0 |}.

Definition constructor_ : RoomManager :=
  {| rooms := ∅; connections := ∅; wsToUser := ∅ |}.

(** The frames a broadcast hands to [ws.send], in the order of the loop:
    one per user of the room that has a connection whose socket is not
    the excluded one. *)
Definition recipients (m : RoomManager) (roomId : RoomId) (excludeWs : option Ws)
    : list Ws :=
  match rooms m !! roomId with
  | None => []
  | Some room =>
      omap (fun userId =>
              match connections m !! userId with
              | Some conn =>
                  if decide (excludeWs = Some (conn_ws conn)) then None
                  else Some (conn_ws conn)
              | None => None
              end)
           (JsMap.keys (users room))
  end.

Definition log (w : World) (l : list (nat * Message)) : World :=
  {| mgr := mgr w; sent := sent w ++ l; ticks := ticks w |}.

(** Weakest precondition of a handler: it ends, normally in [Post] or by
    an exception in [Exc]. *)
Definition wp {A} (c : M A) (Post : A -> World -> Prop) (Exc : World -> Prop)
    (w : World) : Prop :=
  match c w with
  | Returned a w' => Post a w'
  | Thrown w' => Exc w'
  | OutOfFuel => False
  end.

(** * The URL parser and the metadata request of
      [server/src/youtube.js] *)

Module YouTube.

(** A character of the class [[A-Za-z0-9_-]]. *)
Definition is_id_char (c : ascii) : bool :=
  let n := nat_of_ascii c in
  ((65 <=? n) && (n <=? 90) || (97 <=? n) && (n <=? 122)
   || (48 <=? n) && (n <=? 57) || (n =? 95) || (n =? 45))%nat.

Fixpoint all_id_chars (s : string) : bool :=
  match s with
  | EmptyString => true
  | String c s' => is_id_char c && all_id_chars s'
  end.

(** [/^[A-Za-z0-9_-]{11}$/.test(s)] *)
Definition matches_id (s : string) : bool :=
  (String.length s =? 11)%nat && all_id_chars s.

(** [isValidId]: its argument is a string at every call. *)
Definition isValidId (id : string) : bool := matches_id id.

(** [s.startsWith(p)] *)
Definition startsWith (p s : string) : bool := String.prefix p s.

(** [s.replace(/^p/, "")] for a literal [p]. *)
Fixpoint drop_prefix (p s : string) : option string :=
  match p, s with
  | EmptyString, _ => Some s
  | String a p', String b s' =>
      if Ascii.eqb a b then drop_prefix p' s' else None
  | String _ _, EmptyString => None
  end.

Definition replace_prefix (p s : string) : string :=
  match drop_prefix p s with Some s' => s' | None => s end.

(** [s.split(/[?#]/)[0]] *)
Fixpoint before_query (s : string) : string :=
  match s with
  | EmptyString => EmptyString
  | String c s' =>
      if Ascii.eqb c "?" || Ascii.eqb c "#" then EmptyString
      else String c (before_query s')
  end.

(** [s.split("/")] *)
Fixpoint split_slash (s : string) : list string :=
  match s with
  | EmptyString => [EmptyString]
  | String c s' =>
      if Ascii.eqb c "/" then EmptyString :: split_slash s'
      else match split_slash s' with
           | x :: xs => String c x :: xs
           | [] => [String c EmptyString]
           end
  end.

(** What the code reads of a parsed URL. *)
Record URL := {
  hostname : string;
  pathname : string;
  searchParams_get : string -> option string
}.

Section Extract.

(** [new URL(s)] of the runtime, [None] when it throws. *)
Variable new_URL : string -> option URL.

(** [pathname.split("/")[2]?.split(/[?#]/)[0]], and the test of the id. *)
Definition segment_id (pathname : string) : option string :=
  match split_slash pathname !! 2%nat with
  | Some seg =>
      let id := before_query seg in
      if JsString.truthy id && isValidId id then Some id else None
  | None => None
  end.

Definition withProto (trimmed : string) : string :=
  if startsWith "http://" trimmed || startsWith "https://" trimmed
  then trimmed else "https://" ++ trimmed.

Definition extractYouTubeId (input : JsValue) : option string :=
  match input with
  | JString input =>
      if negb (JsString.truthy input) then None
      else
        let trimmed := JsString.trim input in
        (* Raw 11-char video ID *)
        if matches_id trimmed then Some trimmed
        else
          match new_URL (withProto trimmed) with
          | None => None
          | Some url =>
              let hostname := replace_prefix "www." (hostname url) in
              if String.eqb hostname "youtu.be" then
                let id := before_query (replace_prefix "/" (pathname url)) in
                if isValidId id then Some id else None
              else if String.eqb hostname "youtube.com"
                      || String.eqb hostname "music.youtube.com" then
                let pathname := pathname url in
                if String.eqb pathname "/watch"
                   || startsWith "/watch?" pathname then
                  match searchParams_get url "v" with
                  | Some id =>
                      if JsString.truthy id && isValidId id
                      then Some id else None
                  | None => None
                  end
                else if startsWith "/embed/" pathname then segment_id pathname
                else if startsWith "/shorts/" pathname then segment_id pathname
                else if startsWith "/v/" pathname then segment_id pathname
                else None
              else None
          end
  | _ => None
  end.

End Extract.

(** The thumbnail URL, which the fallback and the answer both carry. *)
Definition thumbnail_url (youtubeId : string) : string :=
  "https://img.youtube.com/vi/" ++ youtubeId ++ "/mqdefault.jpg".

(** What the oEmbed request came to: the [fetch] failed or timed out;
    the status was not ok; the body was no JSON, or the value [null],
    whose [title] cannot be read; or [data.title] was read ([JUndefined]
    when absent). *)
Inductive Response :=
| fetch_failed
| not_ok
| bad_body
| json_title (title : JsValue).

Record Meta := { meta_title : JsValue; meta_thumbnail : string }.

(** [fetchVideoMeta], as a function of what the request came to. *)
Definition fetchVideoMeta (youtubeId : string) (res : Response) : Meta :=
  let fallback :=
    {| meta_title := JString "Unknown Track";
       meta_thumbnail := thumbnail_url youtubeId |} in
  match res with
  | json_title t =>
      {| meta_title := or_else t (meta_title fallback);
         meta_thumbnail := thumbnail_url youtubeId |}
  | _ => fallback
  end.

End YouTube.

(** * The HTTP routes of [server/src/index.js] *)

(** The answers of the three routes: [{ id, name }] with status 201,
    [{ id, name, userCount }] and [{ youtubeId, title, thumbnail }] with
    status 200, and [{ error }] with an error status. *)
Inductive HttpResponse :=
| created (id name : string)
| room_info (id name : string) (userCount : nat)
| resolved (youtubeId : string) (title : JsValue) (thumbnail : string)
| http_error (status : nat) (error : string).

(** The body of a POST: no JSON, so that [body] stays [{}]; the JSON
    value [null], of which [body.name] cannot be read; or a value whose
    [name] is read ([JUndefined] when absent). *)
Inductive PostBody :=
| no_json
| json_null
| json_name (name : JsValue).

(** [POST /api/rooms] *)
Definition post_api_rooms (env : Env) (body : PostBody) : M HttpResponse :=
  match body with
  | json_null => throw
  | no_json =>
      let! r := createRoom env JUndefined in ret (created (fst r) (snd r))
  | json_name name =>
      let! r := createRoom env name in ret (created (fst r) (snd r))
  end.

(** [GET /api/rooms/:id] *)
Definition get_api_rooms (id : string) : M HttpResponse :=
  let! room := getRoom id in
  match room with
  | None => ret (http_error 404 "Room not found")
  | Some room =>
      ret (room_info (room_id room) (room_name room) (JsMap.size (users room)))
  end.

(** [GET /api/youtube/resolve?url=...], as a function of the query
    parameter and of what the oEmbed request came to. *)
Definition get_api_youtube_resolve (new_URL : string -> option YouTube.URL)
    (url : option string) (res : YouTube.Response) : HttpResponse :=
  match url with
  | None => http_error 400 "url query param required"
  | Some url =>
      if negb (JsString.truthy url)
      then http_error 400 "url query param required"
      else
        match YouTube.extractYouTubeId new_URL (JString url) with
        | None => http_error 400 "Invalid YouTube URL"
        | Some youtubeId =>
            let meta := YouTube.fetchVideoMeta youtubeId res in
            resolved youtubeId (YouTube.meta_title meta)
              (YouTube.meta_thumbnail meta)
        end
  end.

(** * Vocabulary of the statements *)

(** The world with another manager, and the world [n] clock readings
    later. *)
Definition with_mgr (m : RoomManager) (w : World) : World :=
  {| mgr := m; sent := sent w; ticks := ticks w |}.

Definition tick (n : nat) (w : World) : World :=
  {| mgr := mgr w; sent := sent w; ticks := n + ticks w |}.

(** The frames of one broadcast, in the order of the loop. *)
Definition fanout (m : RoomManager) (roomId : RoomId) (ex : option Ws)
    (payload : Message) : list (nat * Message) :=
  map (fun ws => (ws, payload)) (recipients m roomId ex).

(** The body of the loop of [broadcastToRoom], as a function of the user. *)
Definition target (m : RoomManager) (ex : option Ws) (userId : UserId) : option Ws :=
  match connections m !! userId with
  | Some conn =>
      if decide (ex = Some (conn_ws conn)) then None else Some (conn_ws conn)
  | None => None
  end.

(** The [playback:sync] frame built at the [t]-th clock reading, and the
    number of clock readings it takes. *)
Definition sync_frame (env : Env) (room : Room) (t : nat) : Message :=
  match playbackState room with
  | playing =>
      playback_sync playing (currentIndex room)
        ((Number_of_Z (clock env t) - startedAt room) / 1000)%float
        (clock env (S t)) (option_map youtubeId (currentTrack room))
  | paused =>
      playback_sync paused (currentIndex room) (elapsed room)
        (clock env t) (option_map youtubeId (currentTrack room))
  end.

Definition sync_ticks (room : Room) : nat :=
  match playbackState room with playing => 2 | paused => 1 end.

(** The world after [broadcastPlaybackSync] when no socket fails. *)
Definition sync_log (env : Env) (roomId : RoomId) (w : World) : World :=
  match rooms (mgr w) !! roomId with
  | None => w
  | Some room =>
      log (tick (sync_ticks room) w)
          (fanout (mgr w) roomId None (sync_frame env room (ticks w)))
  end.

(** The two halves of a departure: the user off the indices, and the
    user off its room. *)
Definition unbind (v : UserId) (c : Conn) (m : RoomManager) : RoomManager :=
  set_wsToUser (delete (conn_ws c) (wsToUser m))
    (set_connections (delete v (connections m)) m).

Definition exit_room (v : UserId) (roomId : RoomId) (m : RoomManager) : RoomManager :=
  set_rooms (alter (fun r => set_skipVotes (skipVotes r ∖ {[v]})
                               (set_users (JsMap.delete v (users r)) r))
                   roomId (rooms m)) m.

(** [P] together with a bound on the number of connections. *)
Definition within (P : RoomManager -> Prop) (k : nat) (w : World) : Prop :=
  P (mgr w) /\ (size (connections (mgr w)) <= k)%nat.

(** I1: [currentIndex] is [-1] or a valid index into the queue. *)
Definition I1 (r : Room) : Prop :=
  (-1 <= currentIndex r < len (queue r))%Z.

(** What the queue and playback handlers may do to a room: membership
    and identity are untouched and I1 is kept. *)
Definition legal_update (r r' : Room) : Prop :=
  users r' = users r /\ room_id r' = room_id r /\ (I1 r -> I1 r').

(** The room that [joinRoom] stores: the first user becomes host. *)
Definition seat_user (userId : UserId) (user : User) (room : Room) : Room :=
  let room1 :=
    if (JsMap.size (users room) =? 0)%nat
    then set_hostId (Some userId) room else room in
  set_users (JsMap.set userId user (users room1)) room1.

(** The manager after a join that stores [room2]. *)
Definition joined (ws : Ws) (roomId : RoomId) (userId : UserId) (room2 : Room)
    (m : RoomManager) : RoomManager :=
  set_wsToUser (<[ws := userId]> (wsToUser m))
    (set_connections
       (<[userId := {| conn_ws := ws; conn_roomId := roomId |}]> (connections m))
       (set_rooms (alter (fun _ => room2) roomId (rooms m)) m)).

(** [R] in every room of the manager. *)
Definition all_rooms (R : Room -> Prop) (m : RoomManager) : Prop :=
  forall roomId r, rooms m !! roomId = Some r -> R r.

(** A handler keeps [P], whether it returns or throws. *)
Definition keeps (P : RoomManager -> Prop) {A} (c : M A) : Prop :=
  forall w, P (mgr w) ->
    wp c (fun _ w' => P (mgr w')) (fun w' => P (mgr w')) w.

(** The same for a handler that draws an identifier. *)
Definition keeps_fresh (P : RoomManager -> Prop)
    (F : RoomManager -> string -> Prop) (env : Env) {A} (c : M A) : Prop :=
  forall w, P (mgr w) -> F (mgr w) (nanoid env) ->
    wp c (fun _ w' => P (mgr w')) (fun w' => P (mgr w')) w.

(** ** Sequences of inbound events *)

Section Runs.
Variable Number_toString : float -> string.
Variable String_toNumber : string -> float.
Variable extractYouTubeId : JsValue -> option string.

(** One event, from a manager to the next. *)
Definition step (env : Env) (ev : Inbound) (m : RoomManager) : option RoomManager :=
  option_map mgr
    (final (handle Number_toString String_toNumber env extractYouTubeId ev (start m))).

Fixpoint run_events (evs : list (Env * Inbound)) (m : RoomManager)
    : option RoomManager :=
  match evs with
  | [] => Some m
  | (env, ev) :: evs' =>
      match step env ev m with
      | Some m' => run_events evs' m'
      | None => None
      end
  end.

(** The identifiers drawn along a run satisfy [F] in the manager each
    event finds. *)
Fixpoint fresh_along (F : RoomManager -> string -> Prop)
    (evs : list (Env * Inbound)) (m : RoomManager) : Prop :=
  match evs with
  | [] => True
  | (env, ev) :: evs' =>
      F m (nanoid env) /\
      match step env ev m with
      | Some m' => fresh_along F evs' m'
      | None => True
      end
  end.

End Runs.

(** The room after the removal of the track at index [i], the clock
    reading [now]. *)
Definition removed (now : Z) (i : nat) (r : Room) : Room :=
  let r1 := set_queue (splice1 i (queue r)) r in
  if (Z.of_nat i <? currentIndex r)%Z then
    set_currentIndex (currentIndex r - 1) r1
  else if (Z.of_nat i =? currentIndex r)%Z then
    set_skipVotes ∅
      (if (len (queue r1) =? 0)%Z then
         set_elapsed 0 (set_playbackState paused (set_currentIndex (-1) r1))
       else if (currentIndex r >=? len (queue r1))%Z then
         set_playbackState playing
           (set_elapsed 0
              (set_startedAt (Number_of_Z now)
                 (set_currentIndex (len (queue r1) - 1) r1)))
       else
         set_playbackState playing
           (set_elapsed 0 (set_startedAt (Number_of_Z now) r1)))
  else r1.

(** The room after [nextTrack], the clock reading [now]. *)
Definition advanced (now : Z) (r : Room) : Room :=
  let r1 := set_skipVotes ∅ r in
  if (len (queue r) =? 0)%Z then
    set_elapsed 0 (set_playbackState paused (set_currentIndex (-1) r1))
  else if (currentIndex r <? len (queue r) - 1)%Z then
    set_playbackState playing
      (set_startedAt (Number_of_Z now)
         (set_elapsed 0 (set_currentIndex (currentIndex r + 1) r1)))
  else
    set_elapsed 0 (set_playbackState paused (set_currentIndex (-1) r1)).

(** Does [nextTrack] start a track (and so read the clock)? *)
Definition starts_next (r : Room) : bool :=
  negb (len (queue r) =? 0)%Z && (currentIndex r <? len (queue r) - 1)%Z.

(** The room a user has left: off the user map and the votes, the host
    role handed on. *)
Definition departed (u : UserId) (r : Room) : Room :=
  migrate_host u
    (set_skipVotes (skipVotes r ∖ {[u]})
       (set_users (JsMap.delete u (users r)) r)).

(** The manager after [leaveRoom(u)] when no frame fails. *)
Definition after_leave (u : UserId) (c : Conn) (r : Room) (m : RoomManager)
    : RoomManager :=
  let m1 := unbind u c m in
  if (JsMap.size (users (departed u r)) =? 0)%nat
  then set_rooms (delete (conn_roomId c) (rooms m)) m1
  else set_rooms (<[conn_roomId c := departed u r]> (rooms m)) m1.

(** The user that [joinRoom] creates for a name that is a string. *)
Definition new_user (env : Env) (s : string) (room : Room) : User :=
  {| user_id := nanoid env;
     user_name := JsString.slice0 24 (JsString.trim s);
     color := nth (JsMap.size (users room) mod length USER_COLORS)%nat
                USER_COLORS "" |}.



(** The three indices agree: a room is stored under its own id, a user
    of a room has a connection to that room, and a bound socket belongs
    to the connection of its user. *)
Definition consistent (m : RoomManager) : Prop :=
  (forall roomId r, rooms m !! roomId = Some r -> room_id r = roomId) /\
  (forall roomId r v, rooms m !! roomId = Some r -> v ∈ JsMap.keys (users r) ->
     exists c, connections m !! v = Some c /\ conn_roomId c = roomId) /\
  (forall ws v, wsToUser m !! ws = Some v ->
     exists c, connections m !! v = Some c /\ conn_ws c = ws).

(** An identifier that names no connection yet. *)
Definition unused (m : RoomManager) (id : string) : Prop :=
  connections m !! id = None.

(** [c'] returns whatever [c] returns. *)
Definition refines {A} (c c' : M A) : Prop :=
  forall w a w', c w = Returned a w' -> c' w = Returned a w'.

(** [r'] has the queue and the playback fields of [r], and no vote that
    [r] lacks. *)
Definition same_playback (r r' : Room) : Prop :=
  queue r' = queue r /\ currentIndex r' = currentIndex r /\
  playbackState r' = playbackState r /\ startedAt r' = startedAt r /\
  elapsed r' = elapsed r /\ skipVotes r' ⊆ skipVotes r.

(** The room stored under [roomId], if any, is [r] in that sense. *)
Definition room_is (roomId : RoomId) (r : Room) (m : RoomManager) : Prop :=
  forall r', rooms m !! roomId = Some r' -> same_playback r r'.

(** ** A concrete manager *)

Definition demo_track (tid by_ : string) : Track :=
  {| track_id := tid; youtubeId := "dQw4w9WgXcQ"; title := JString "T";
     thumbnail := "https://img.youtube.com/vi/dQw4w9WgXcQ/mqdefault.jpg";
     duration := 0; addedBy := by_; addedByName := "ann" |}.

Definition demo_user (uid nm col : string) : User :=
  {| user_id := uid; user_name := nm; color := col |}.

(** Queue [A, B, C], B playing since 5000 ms; ann (host) and bob joined. *)
Definition demo_room : Room :=
  {| room_id := "r1"; room_name := "Room r1"; createdAt := 1000;
     hostId := Some "u1";
     queue := [demo_track "tA" "u1"; demo_track "tB" "u2"; demo_track "tC" "u2"];
     currentIndex := 1; playbackState := playing;
     startedAt := 5000; elapsed := 0;
     users := [("u1", demo_user "u1" "ann" "#FF5722");
               ("u2", demo_user "u2" "bob" "#FF9800")];
     skipVotes := ∅; crossfadeDuration := 3 |}.

(** ann on socket 1 and bob on socket 2. *)
Definition demo : RoomManager :=
  {| rooms := {["r1" := demo_room]};
     connections := <["u1" := {| conn_ws := 1%nat; conn_roomId := "r1" |}]>
                      {["u2" := {| conn_ws := 2%nat; conn_roomId := "r1" |}]};
     wsToUser := <[1%nat := "u1"]> {[2%nat := "u2"]} |}.

(** A clock that starts at [t] and advances by 1 ms per reading; no
    socket fails. *)
Definition demo_env (t : Z) : Env :=
  {| clock := fun n => (t + Z.of_nat n)%Z; fails := fun _ => false;
     nanoid := "fresh" |}.

(** The same clock when the socket [ws] fails. *)
Definition demo_env_failing (t : Z) (ws : nat) : Env :=
  {| clock := fun n => (t + Z.of_nat n)%Z; fails := fun x => Nat.eqb x ws;
     nanoid := "fresh" |}.

(** ** What the handlers write to a room *)

(** The room object that [createRoom] builds. *)
Definition new_room (id name : string) (now : Z) : Room :=
  {| room_id := id; room_name := name; createdAt := now;
     hostId := None; queue := []; currentIndex := -1;
     playbackState := paused; startedAt := 0; elapsed := 0;
     users := []; skipVotes := ∅; crossfadeDuration := 3 |}.

(** The room after [addTrack] has pushed [t], the clock reading [now]. *)
Definition added (now : Z) (t : Track) (r : Room) : Room :=
  let r1 := set_queue (queue r ++ [t]) r in
  if (currentIndex r =? -1)%Z then
    set_playbackState playing
      (set_startedAt (Number_of_Z now) (set_elapsed 0 (set_currentIndex 0 r1)))
  else r1.

(** The room after [play], [pause] and [seek] to [t] seconds. *)
Definition resumed (now : Z) (r : Room) : Room :=
  set_playbackState playing
    (set_startedAt (Number_of_Z now - elapsed r * 1000)%float r).

Definition halted (now : Z) (r : Room) : Room :=
  set_playbackState paused
    (set_elapsed ((Number_of_Z now - startedAt r) / 1000)%float r).

Definition sought (now : Z) (t : float) (r : Room) : Room :=
  match playbackState r with
  | playing => set_startedAt (Number_of_Z now - t * 1000)%float r
  | paused => set_elapsed t r
  end.

(** The room after a vote of [u]. *)
Definition voted (u : UserId) (r : Room) : Room :=
  set_skipVotes (skipVotes r ∪ {[u]}) r.

(** The track that [addTrack] builds for [userId] in [room]. *)
Definition new_track (env : Env) (userId : UserId) (yt : string)
    (ti : JsValue) (th : string)
    (room : Room) : Track :=
  {| track_id := nanoid env; youtubeId := yt; title := ti; thumbnail := th;
     duration := 0; addedBy := userId;
     addedByName :=
       match JsMap.get userId (users room) with
       | Some u => user_name u
       | None => "Unknown"
       end |}.

(** The writes of the queue and playback handlers, each under the test
    that guards it in the handler; [T] is what is known of the tracks
    that [addTrack] is called with. *)
Inductive update (T : Track -> Prop) (r : Room) : Room -> Prop :=
| update_add now t : T t -> update T r (added now t r)
| update_remove now i :
    (i < length (queue r))%nat -> update T r (removed now i r)
| update_play now :
    currentIndex r <> (-1)%Z -> playbackState r = paused ->
    update T r (resumed now r)
| update_pause now :
    playbackState r = playing -> update T r (halted now r)
| update_seek now t :
    currentIndex r <> (-1)%Z -> update T r (sought now t r)
| update_next now : update T r (advanced now r)
| update_crossfade d :
    (0 <=? d)%float = true -> (d <=? 8)%float = true ->
    update T r (set_crossfadeDuration d r).

(** The events whose [addTrack] is called with a track of [T]. *)
Definition adds_only (T : Track -> Prop) (env : Env) (ev : Inbound) : Prop :=
  match ev with
  | meta_resolved u yt ti th => forall r, T (new_track env u yt ti th r)
  | _ => True
  end.

(** ** Properties of a room at rest *)

(** A room with nothing scheduled is paused at position 0. *)
Definition idle_ok (r : Room) : Prop :=
  currentIndex r = (-1)%Z -> playbackState r = paused /\ elapsed r = 0%float.

Definition crossfade_ok (r : Room) : Prop :=
  (0 <=? crossfadeDuration r)%float = true /\
  (crossfadeDuration r <=? 8)%float = true.

(** [r'] differs from [r] at most in its users, votes and host. *)
Definition same_schedule (r r' : Room) : Prop :=
  queue r' = queue r /\ currentIndex r' = currentIndex r /\
  playbackState r' = playbackState r /\ startedAt r' = startedAt r /\
  elapsed r' = elapsed r /\ crossfadeDuration r' = crossfadeDuration r.

(** The room stored under [roomId], if any, has the schedule of [r]. *)
Definition schedule_is (roomId : RoomId) (r : Room) (m : RoomManager) : Prop :=
  forall r', rooms m !! roomId = Some r' -> same_schedule r r'.

(** [u] is a user of the room stored under [roomId] and no socket that
    fails is bound to [u]: the evictions of a broadcast pass [u] by. *)
Definition stays (env : Env) (u : UserId) (roomId : RoomId) (m : RoomManager)
    : Prop :=
  (exists r, rooms m !! roomId = Some r /\ u ∈ JsMap.keys (users r)) /\
  forall ws, wsToUser m !! ws = Some u -> fails env ws = false.

(** ** Membership *)

(** Every connected user is a user of the room its connection names. *)
Definition seated (m : RoomManager) : Prop :=
  forall u c, connections m !! u = Some c ->
    exists r, rooms m !! conn_roomId c = Some r /\ u ∈ JsMap.keys (users r).

(** The user map has no key twice, and every vote is the vote of a user. *)
Definition votes_ok (r : Room) : Prop :=
  NoDup (JsMap.keys (users r)) /\
  forall v, v ∈ skipVotes r -> v ∈ JsMap.keys (users r).

Definition membership (m : RoomManager) : Prop :=
  seated m /\ all_rooms votes_ok m.

(** An identifier under which no room is stored yet. *)
Definition unused_room (m : RoomManager) (id : string) : Prop :=
  rooms m !! id = None.

(** [u] has left: no connection entry, no socket bound through [c], no
    place in a room. *)
Definition gone (u : UserId) (c : Conn) (m : RoomManager) : Prop :=
  connections m !! u = None /\ wsToUser m !! conn_ws c = None /\
  forall k r, rooms m !! k = Some r -> u ∉ JsMap.keys (users r).

(** ** The host of a room *)

(** The host is a user of the room, and only a room without users has no
    host. *)
Definition host_ok (r : Room) : Prop :=
  match hostId r with
  | Some h => h ∈ JsMap.keys (users r)
  | None => users r = []
  end.

(** The same while the users of [L] are leaving, each the room it is
    listed with: such a user may still be named as host of that room
    until its [leaveRoom] has reached the host migration. *)
Definition host_ok_but (L : list (UserId * RoomId)) (k : RoomId) (r : Room)
    : Prop :=
  match hostId r with
  | Some h => h ∈ JsMap.keys (users r) \/ (h, k) ∈ L
  | None => users r = []
  end.

Definition hosts (L : list (UserId * RoomId)) (m : RoomManager) : Prop :=
  forall k r, rooms m !! k = Some r -> host_ok_but L k r.

(** ** The tracks of the queues *)

(** The [addTrack] calls that [handleQueueAdd] makes when the metadata
    have arrived: the id is the one [extractYouTubeId] found in some url,
    title and thumbnail are those [fetchVideoMeta] returned for it. *)
Definition from_queue_add (new_URL : string -> option YouTube.URL)
    (ev : Inbound) : Prop :=
  match ev with
  | meta_resolved u yt ti th =>
      exists url res,
        YouTube.extractYouTubeId new_URL url = Some yt /\
        YouTube.fetchVideoMeta yt res
        = {| YouTube.meta_title := ti; YouTube.meta_thumbnail := th |}
  | _ => True
  end.

Definition track_ok (t : Track) : Prop :=
  YouTube.isValidId (youtubeId t) = true /\
  thumbnail t = YouTube.thumbnail_url (youtubeId t) /\
  truthy (title t) = true /\ duration t = 0%Z.

(** ** A concrete run *)

(** The environment of [demo_env] with another drawn identifier. *)
Definition demo_env_id (t : Z) (id : string) : Env :=
  {| clock := fun n => (t + Z.of_nat n)%Z; fails := fun _ => false;
     nanoid := id |}.

(** A room is created, ann and bob join it, ann adds a track, for which
    the oEmbed service answered the title 123, and bob votes to skip it. *)
Definition demo_run : list (Env * Inbound) :=
  [ (demo_env_id 1000 "roomA", http_createRoom (JString "Friday"));
    (demo_env_id 2000 "ua",
       ws_message 1 (join (JString "roomA") (JString "ann")));
    (demo_env_id 3000 "ub",
       ws_message 2 (join (JString "roomA") (JString "bob")));
    (demo_env_id 4000 "t1",
       meta_resolved "ua" "dQw4w9WgXcQ" (JNumber 123)
         "https://img.youtube.com/vi/dQw4w9WgXcQ/mqdefault.jpg");
    (demo_env_id 5000 "x1", ws_message 2 playback_skip) ].

(** * Properties *)

(** ** Comparisons of numbers

    The comparisons of binary64 numbers are those of [SpecFloat]. *)

Lemma SFcompare_antisym x y :
  SFcompare y x = option_map CompOpp (SFcompare x y).
Proof.
  destruct x as [[]|[]| |[] m1 e1], y as [[]|[]| |[] m2 e2]; cbn;
    try reflexivity;
    rewrite (Z.compare_antisym e1 e2);
    destruct (e1 ?= e2)%Z; cbn; try reflexivity;
    rewrite (Pos.compare_cont_antisym m1 m2 Eq); cbn;
    try rewrite CompOpp_involutive; reflexivity.
Qed.

Lemma float_compare_cases x y :
  is_nan x = false -> is_nan y = false ->
  SFcompare (Prim2SF x) (Prim2SF y) <> None.
Proof.
  unfold is_nan. rewrite !FloatAxioms.eqb_spec. unfold SFeqb.
  destruct (Prim2SF x) as [[]|[]| |[] m1 e1], (Prim2SF y) as [[]|[]| |[] m2 e2];
    cbn; try discriminate.
Qed.

Lemma ltb_leb x y : (x <? y)%float = true -> (x <=? y)%float = true.
Proof.
  rewrite FloatAxioms.ltb_spec, FloatAxioms.leb_spec. unfold SFltb, SFleb.
  destruct (SFcompare _ _) as [[]|]; try discriminate; reflexivity.
Qed.

Lemma nltb_leb x y :
  is_nan x = false -> is_nan y = false -> (x <? y)%float = false ->
  (y <=? x)%float = true.
Proof.
  intros Hx Hy. pose proof (float_compare_cases x y Hx Hy) as H.
  rewrite FloatAxioms.ltb_spec, FloatAxioms.leb_spec. unfold SFltb, SFleb.
  rewrite (SFcompare_antisym (Prim2SF x) (Prim2SF y)).
  destruct (SFcompare _ _) as [[]|]; cbn; try discriminate; try reflexivity.
  contradiction.
Qed.

Lemma leb_nltb x y : (x <=? y)%float = true -> (y <? x)%float = false.
Proof.
  rewrite FloatAxioms.ltb_spec, FloatAxioms.leb_spec. unfold SFltb, SFleb.
  rewrite (SFcompare_antisym (Prim2SF x) (Prim2SF y)).
  destruct (SFcompare _ _) as [[]|]; cbn; try discriminate; reflexivity.
Qed.

Lemma ltb_not_nan x y :
  (x <? y)%float = true -> is_nan x = false /\ is_nan y = false.
Proof.
  unfold is_nan. rewrite FloatAxioms.ltb_spec, !FloatAxioms.eqb_spec.
  unfold SFltb, SFeqb.
  destruct (Prim2SF x) as [[]|[]| |[] m1 e1], (Prim2SF y) as [[]|[]| |[] m2 e2];
    cbn; try discriminate; intros _;
    rewrite ?Z.compare_refl, ?Pos.compare_cont_refl;
    split; reflexivity.
Qed.

Lemma leb_not_nan x y :
  (x <=? y)%float = true -> is_nan x = false /\ is_nan y = false.
Proof.
  unfold is_nan. rewrite FloatAxioms.leb_spec, !FloatAxioms.eqb_spec.
  unfold SFleb, SFeqb.
  destruct (Prim2SF x) as [[]|[]| |[] m1 e1], (Prim2SF y) as [[]|[]| |[] m2 e2];
    cbn; try discriminate; intros _;
    rewrite ?Z.compare_refl, ?Pos.compare_cont_refl;
    split; reflexivity.
Qed.

(** Numbers that compare equal are the same number, the two zeros apart. *)
Lemma eqb_eq x y : (x =? y)%float = true -> is_zero x = false -> x = y.
Proof.
  unfold is_zero. rewrite !FloatAxioms.eqb_spec. unfold SFeqb. intros H Hz.
  apply Prim2SF_inj.
  change (Prim2SF PrimFloat.zero) with (S754_zero false) in Hz.
  destruct (Prim2SF x) as [[]|[]| |[] m1 e1], (Prim2SF y) as [[]|[]| |[] m2 e2];
    cbn in *; try discriminate; try reflexivity;
    destruct (e1 ?= e2)%Z eqn:He; try discriminate;
    apply Z.compare_eq in He; subst e2;
    destruct (Pos.compare_cont Eq m1 m2) eqn:Hm; try discriminate;
    apply Pos.compare_eq in Hm; subst m2; reflexivity.
Qed.

Lemma ltb_0_not_zero x : (0 <? x)%float = true -> is_zero x = false.
Proof.
  unfold is_zero. rewrite FloatAxioms.ltb_spec, FloatAxioms.eqb_spec.
  unfold SFltb, SFeqb.
  change (Prim2SF 0%float) with (S754_zero false).
  change (Prim2SF PrimFloat.zero) with (S754_zero false).
  destruct (Prim2SF x) as [[]|[]| |[] m1 e1]; cbn; try discriminate;
    reflexivity.
Qed.

Lemma Math_max_0 n :
  is_nan n = false -> Math_max 0 n = (if 0 <? n then n else 0)%float.
Proof.
  intros Hn. unfold Math_max. rewrite Hn.
  change (is_nan 0%float) with false. change (get_sign 0%float) with false.
  cbn [orb].
  destruct (0 <? n)%float; [reflexivity|]. destruct (n <? 0)%float; reflexivity.
Qed.

Lemma Math_min_8 n :
  is_nan n = false -> Math_min 8 n = (if 8 <? n then 8 else n)%float.
Proof.
  intros Hn. unfold Math_min. rewrite Hn.
  change (is_nan 8%float) with false. change (get_sign 8%float) with false.
  cbn [orb].
  destruct (8 <? n)%float; [reflexivity|]. destruct (n <? 8)%float; reflexivity.
Qed.

Lemma leb_nltb_eqb x y :
  (x <=? y)%float = true -> (x <? y)%float = false -> (x =? y)%float = true.
Proof.
  rewrite FloatAxioms.ltb_spec, FloatAxioms.leb_spec, FloatAxioms.eqb_spec.
  unfold SFltb, SFleb, SFeqb.
  destruct (SFcompare _ _) as [[]|]; try discriminate; reflexivity.
Qed.

(** A number that is at most 0 is not above 8, and one that is at least
    8 is not a zero. *)
Lemma leb_0_nltb_8 x : (x <=? 0)%float = true -> (8 <? x)%float = false.
Proof.
  rewrite FloatAxioms.ltb_spec, FloatAxioms.leb_spec. unfold SFltb, SFleb.
  change (Prim2SF 0%float) with (S754_zero false).
  set (e := Prim2SF 8%float). vm_compute in e. subst e.
  destruct (Prim2SF x) as [[]|[]| |[] m1 e1]; cbn; try discriminate;
    reflexivity.
Qed.

Lemma leb_8_not_zero x : (8 <=? x)%float = true -> is_zero x = false.
Proof.
  unfold is_zero. rewrite FloatAxioms.leb_spec, FloatAxioms.eqb_spec.
  unfold SFleb, SFeqb.
  change (Prim2SF PrimFloat.zero) with (S754_zero false).
  set (e := Prim2SF 8%float). vm_compute in e. subst e.
  destruct (Prim2SF x) as [[]|[]| |[] m1 e1]; cbn; try discriminate;
    reflexivity.
Qed.

Lemma Number_or_0_number stn q :
  is_nan q = false -> is_zero q = false -> Number_or_0 stn (JNumber q) = q.
Proof.
  intros Hn Hz. unfold Number_or_0, Number_. rewrite Hn, Hz. reflexivity.
Qed.

Lemma Number_or_0_falsy stn v :
  is_nan (Number_ stn v) || is_zero (Number_ stn v) = true ->
  Number_or_0 stn v = 0%float.
Proof. intros H. unfold Number_or_0. rewrite H. reflexivity. Qed.

Lemma Number_or_0_not_nan stn v : is_nan (Number_or_0 stn v) = false.
Proof.
  unfold Number_or_0. destruct (is_nan (Number_ stn v)) eqn:Hn; [reflexivity|].
  destruct (is_zero (Number_ stn v)); [reflexivity | exact Hn].
Qed.

(** The clamp of [setCrossfade]. *)
Lemma clamp_cases n :
  is_nan n = false ->
  Math_max 0 (Math_min 8 n)
  = (if 8 <? n then 8 else if 0 <? n then n else 0)%float.
Proof.
  intros Hn. rewrite (Math_min_8 n Hn).
  destruct (8 <? n)%float; [reflexivity|]. apply Math_max_0. exact Hn.
Qed.

(** The time of [seek]. *)
Lemma seek_time_bound n :
  is_nan n = false -> (0 <=? Math_max 0 n)%float = true.
Proof.
  intros Hn. rewrite (Math_max_0 n Hn).
  destruct (0 <? n)%float eqn:H0; [apply ltb_leb; exact H0 | reflexivity].
Qed.

Lemma seek_time_cases stn v :
  let t := Math_max 0 (Number_or_0 stn v) in
  (0 <=? t)%float = true /\
  (forall q, v = JNumber q -> (0 <? q)%float = true -> t = q) /\
  (forall q, v = JNumber q -> (q <=? 0)%float = true -> t = 0%float) /\
  (is_nan (Number_ stn v) = true -> t = 0%float).
Proof.
  intros t. unfold t.
  split; [apply seek_time_bound, Number_or_0_not_nan|].
  split; [|split].
  - intros q -> Hq. destruct (ltb_not_nan _ _ Hq) as [_ Hn].
    rewrite (Number_or_0_number stn q Hn (ltb_0_not_zero q Hq)).
    rewrite (Math_max_0 q Hn), Hq. reflexivity.
  - intros q -> Hq. destruct (leb_not_nan _ _ Hq) as [Hn _].
    destruct (is_zero q) eqn:Hz.
    + rewrite Number_or_0_falsy; [reflexivity|].
      cbn [Number_]. rewrite Hz. apply orb_true_r.
    + rewrite (Number_or_0_number stn q Hn Hz), (Math_max_0 q Hn).
      rewrite (leb_nltb _ _ Hq). reflexivity.
  - intros Hn. rewrite Number_or_0_falsy; [reflexivity|].
    rewrite Hn. reflexivity.
Qed.

Lemma clamp_number stn v :
  let x := Math_max 0 (Math_min 8 (Number_or_0 stn v)) in
  (forall q, v = JNumber q ->
     (0 <? q)%float = true -> (q <=? 8)%float = true -> x = q) /\
  (forall q, v = JNumber q -> (8 <=? q)%float = true -> x = 8%float) /\
  (forall q, v = JNumber q -> (q <=? 0)%float = true -> x = 0%float) /\
  (is_nan (Number_ stn v) = true -> x = 0%float).
Proof.
  intros x. unfold x. split; [|split; [|split]].
  - intros q -> H0 H8. destruct (ltb_not_nan _ _ H0) as [_ Hn].
    rewrite (Number_or_0_number stn q Hn (ltb_0_not_zero q H0)).
    rewrite (clamp_cases q Hn), (leb_nltb _ _ H8), H0. reflexivity.
  - intros q -> H8. destruct (leb_not_nan _ _ H8) as [_ Hn].
    rewrite (Number_or_0_number stn q Hn (leb_8_not_zero q H8)).
    rewrite (clamp_cases q Hn).
    destruct (8 <? q)%float eqn:Hlt; [reflexivity|].
    rewrite <- (eqb_eq 8 q (leb_nltb_eqb _ _ H8 Hlt) eq_refl). reflexivity.
  - intros q -> H0. destruct (leb_not_nan _ _ H0) as [Hn _].
    destruct (is_zero q) eqn:Hz.
    + rewrite Number_or_0_falsy; [reflexivity|].
      cbn [Number_]. rewrite Hz. apply orb_true_r.
    + rewrite (Number_or_0_number stn q Hn Hz), (clamp_cases q Hn).
      rewrite (leb_0_nltb_8 q H0), (leb_nltb _ _ H0). reflexivity.
  - intros Hn. rewrite Number_or_0_falsy; [reflexivity|].
    rewrite Hn. reflexivity.
Qed.

Lemma clamp_bounds n :
  is_nan n = false ->
  (0 <=? Math_max 0 (Math_min 8 n))%float = true /\
  (Math_max 0 (Math_min 8 n) <=? 8)%float = true.
Proof.
  intros Hn. rewrite (clamp_cases n Hn).
  destruct (8 <? n)%float eqn:H8; [split; reflexivity|].
  destruct (0 <? n)%float eqn:H0; [|split; reflexivity].
  split; [apply ltb_leb; exact H0|].
  apply nltb_leb; [reflexivity | exact Hn | exact H8].
Qed.

(** ** Strings *)

Lemma slice0_length n s : (String.length (JsString.slice0 n s) <= n)%nat.
Proof.
  revert s; induction n as [|n IH]; intros [|c s]; simpl; try lia.
  specialize (IH s); lia.
Qed.

Lemma slice0_short n s :
  (String.length s <= n)%nat -> JsString.slice0 n s = s.
Proof.
  revert s; induction n as [|n IH]; intros [|c s]; simpl; intros H;
    try reflexivity; try lia.
  f_equal; apply IH; lia.
Qed.

Lemma trimStart_all_space s :
  JsString.all_space s = true -> JsString.trimStart s = "".
Proof.
  induction s as [|c s IH]; simpl; [reflexivity|].
  destruct (JsString.is_space c); simpl; [exact IH | discriminate].
Qed.

Lemma trim_all_space s : JsString.all_space s = true -> JsString.trim s = "".
Proof. intros H; unfold JsString.trim; rewrite trimStart_all_space; auto. Qed.

(** ** Insertion-ordered maps *)

Section JsMapFacts.
Context {V : Type}.
Implicit Types (m : JsMap.t V) (k : string).

Lemma JsMap_has_keys m k : JsMap.has k m = true <-> k ∈ JsMap.keys m.
Proof.
  unfold JsMap.has, JsMap.keys.
  induction m as [|[k' v] m IH]; simpl.
  - split; [discriminate | intros H; inversion H].
  - destruct (decide (k' = k)) as [->|Hne].
    + split; [intros _; left | reflexivity].
    + rewrite IH. split; [right; assumption|].
      intros H; inversion H; subst; [congruence | assumption].
Qed.

Lemma JsMap_get_keys m k : is_Some (JsMap.get k m) <-> k ∈ JsMap.keys m.
Proof.
  rewrite <- JsMap_has_keys. unfold JsMap.has.
  destruct (JsMap.get k m); split; intros H; eauto; try discriminate.
  destruct H; discriminate.
Qed.

Lemma JsMap_keys_delete m k k' :
  k' ∈ JsMap.keys (JsMap.delete k m) <-> k' ∈ JsMap.keys m /\ k' <> k.
Proof.
  unfold JsMap.keys.
  induction m as [|[k0 v] m IH]; simpl.
  - split; [intros H; inversion H | intros [H _]; inversion H].
  - destruct (decide (k0 = k)) as [->|Hne]; simpl.
    + rewrite IH. split.
      * intros [H1 H2]; split; [right|]; assumption.
      * intros [H1 H2]; split; [|assumption].
        inversion H1; subst; [congruence | assumption].
    + rewrite !elem_of_cons, IH. split.
      * intros [->|[H1 H2]]; split; auto.
      * intros [[->|H1] H2]; auto.
Qed.

Lemma JsMap_keys_set m k v k' :
  k' ∈ JsMap.keys (JsMap.set k v m) <-> k' = k \/ k' ∈ JsMap.keys m.
Proof.
  unfold JsMap.keys.
  induction m as [|[k0 v0] m IH]; simpl.
  - rewrite list_elem_of_singleton. split; [auto | intros [H|H]; [auto | inversion H]].
  - destruct (decide (k0 = k)) as [->|Hne]; simpl.
    + rewrite !elem_of_cons. tauto.
    + rewrite !elem_of_cons, IH. tauto.
Qed.

Lemma JsMap_size_delete m k : (JsMap.size (JsMap.delete k m) <= JsMap.size m)%nat.
Proof.
  unfold JsMap.size. induction m as [|[k0 v] m IH]; simpl; [lia|].
  destruct (decide (k0 = k)); simpl; lia.
Qed.

Lemma JsMap_get_delete_ne m k k' :
  k' <> k -> JsMap.get k' (JsMap.delete k m) = JsMap.get k' m.
Proof.
  intros Hne. induction m as [|[k0 v] m IH]; simpl; [reflexivity|].
  destruct (decide (k0 = k)) as [->|H0]; simpl.
  - rewrite IH. destruct (decide (k = k')); [congruence | reflexivity].
  - rewrite IH. reflexivity.
Qed.

Lemma JsMap_get_set_eq m k v : JsMap.get k (JsMap.set k v m) = Some v.
Proof.
  induction m as [|[k0 v0] m IH]; simpl.
  - destruct (decide (k = k)); congruence.
  - destruct (decide (k0 = k)) as [->|H0]; simpl.
    + destruct (decide (k = k)); congruence.
    + destruct (decide (k0 = k)); congruence.
Qed.

Lemma JsMap_get_set_ne m k v k' :
  k' <> k -> JsMap.get k' (JsMap.set k v m) = JsMap.get k' m.
Proof.
  intros Hne. induction m as [|[k0 v0] m IH]; simpl.
  - destruct (decide (k = k')); congruence.
  - destruct (decide (k0 = k)) as [->|H0]; simpl.
    + destruct (decide (k = k')); congruence.
    + rewrite IH. reflexivity.
Qed.

Lemma JsMap_size_keys m : JsMap.size m = length (JsMap.keys m).
Proof. unfold JsMap.size, JsMap.keys. now rewrite length_map. Qed.

End JsMapFacts.

(** ** Reasoning about handlers *)

Lemma wp_bind {A B} (c : M A) (k : A -> M B) Post Exc w :
  wp c (fun a w' => wp (k a) Post Exc w') Exc w -> wp (bind c k) Post Exc w.
Proof. unfold wp, bind. destruct (c w); auto. Qed.

Lemma wp_mono {A} (c : M A) (Post Post' : A -> World -> Prop) Exc w :
  wp c Post Exc w -> (forall a w', Post a w' -> Post' a w') -> wp c Post' Exc w.
Proof. unfold wp. destruct (c w); auto. Qed.

Lemma wp_seq {A B} (c : M A) (k : A -> M B) Mid Post Exc w :
  wp c Mid Exc w -> (forall a w', Mid a w' -> wp (k a) Post Exc w') ->
  wp (bind c k) Post Exc w.
Proof. intros Hc Hk. apply wp_bind. eapply wp_mono; eauto. Qed.

Lemma wp_for_each {A} (l : list A) (body : A -> M unit) (I : World -> Prop) Exc w :
  (forall x w', x ∈ l -> I w' -> wp (body x) (fun _ => I) Exc w') ->
  I w -> wp (for_each l body) (fun _ => I) Exc w.
Proof.
  revert w. induction l as [|x l IH]; intros w Hbody HI; simpl.
  - exact HI.
  - eapply wp_seq.
    + apply Hbody; [left | exact HI].
    + intros a w' HI'. apply IH; [|exact HI'].
      intros y w'' Hy. apply Hbody. right; exact Hy.
Qed.

(** *** The eviction cascade

    A property [P] of the manager survives [leaveRoom], [sendTo] and
    [broadcastToRoom], whatever sockets fail, as soon as it survives the
    four mutations of [leaveRoom]; [Q] is what [P] tells about a user that
    a failing socket is bound to.  The cascade always ends. *)

Section Cascade.
Variable env : Env.
Variable P : RoomManager -> Prop.
Variable Q : string -> Prop.
Variable Exc : World -> Prop.

Hypothesis P_bound : forall m ws v,
  P m -> fails env ws = true -> wsToUser m !! ws = Some v -> Q v.
Hypothesis P_unbind : forall m v c,
  P m -> Q v -> connections m !! v = Some c ->
  rooms m !! conn_roomId c = None -> P (unbind v c m).
Hypothesis P_exit : forall m v c r,
  P m -> Q v -> connections m !! v = Some c ->
  rooms m !! conn_roomId c = Some r ->
  P (exit_room v (conn_roomId c) (unbind v c m)).
Hypothesis P_migrate : forall m v roomId,
  P m -> P (set_rooms (alter (migrate_host v) roomId (rooms m)) m).
Hypothesis P_prune : forall m roomId r,
  P m -> rooms m !! roomId = Some r -> JsMap.size (users r) = O ->
  P (set_rooms (delete roomId (rooms m)) m).

Lemma sendTo_with_wp leave k ws payload w :
  (forall v w', within P k w' -> Q v -> wp (leave v) (fun _ => within P k) Exc w') ->
  within P k w ->
  wp (sendTo_with env leave ws payload) (fun _ => within P k) Exc w.
Proof.
  intros Hleave Hw. unfold sendTo_with.
  destruct (fails env ws) eqn:Hf.
  - unfold wp, bind, gets; simpl.
    destruct (wsToUser (mgr w) !! ws) as [v|] eqn:Hv; [|exact Hw].
    destruct (JsString.truthy v); [|exact Hw].
    apply Hleave; [exact Hw|]. destruct Hw as [HP _]. eauto.
  - exact Hw.
Qed.

Lemma broadcastToRoom_with_wp leave k roomId payload ex w :
  (forall v w', within P k w' -> Q v -> wp (leave v) (fun _ => within P k) Exc w') ->
  within P k w ->
  wp (broadcastToRoom_with env leave roomId payload ex) (fun _ => within P k) Exc w.
Proof.
  intros Hleave Hw. unfold broadcastToRoom_with.
  apply wp_bind. unfold wp at 1, gets.
  destruct (rooms (mgr w) !! roomId) as [room|]; [|exact Hw].
  apply wp_for_each; [|exact Hw].
  intros u w' _ Hw'. apply wp_bind. unfold wp at 1, gets.
  destruct (still_member roomId u (mgr w')); [|exact Hw'].
  apply wp_bind. unfold wp at 1, gets.
  destruct (connections (mgr w') !! u) as [c|]; [|exact Hw'].
  destruct (decide (ex = Some (conn_ws c))); [exact Hw'|].
  apply sendTo_with_wp; assumption.
Qed.

Lemma leaveRoom_fuel_wp n : forall k v w,
  (k < n)%nat -> within P k w -> Q v ->
  wp (leaveRoom_fuel env n v) (fun _ => within P k) Exc w.
Proof.
  induction n as [|n IH]; intros k v w Hk [HP Hsz] HQ; [lia|].
  cbn [leaveRoom_fuel]. unfold leaveRoom_body.
  apply wp_bind. unfold wp at 1, gets.
  destruct (connections (mgr w) !! v) as [c|] eqn:Hc; [|split; assumption].
  apply wp_bind. unfold wp at 1, gets.
  apply wp_bind. unfold wp at 1, modify.
  apply wp_bind. unfold wp at 1, modify. cbn [mgr sent ticks].
  assert (Hsz' : (S (size (delete v (connections (mgr w)))) <= k)%nat).
  { rewrite map_size_delete, Hc.
    assert (size (connections (mgr w)) <> O)
      by (apply (map_size_ne_0_lookup_2 _ v); eauto).
    simpl. lia. }
  destruct (rooms (mgr w) !! conn_roomId c) as [r|] eqn:Hr.
  - apply wp_bind. unfold wp at 1, update_room, modify. cbn [mgr sent ticks].
    pose proof (P_exit _ _ _ _ HP HQ Hc Hr) as HP1.
    eapply wp_seq.
    + apply (broadcastToRoom_with_wp _ (pred k)).
      * intros v' w' Hw' HQ'. apply IH; [lia | assumption | assumption].
      * split; [exact HP1|]. cbn. lia.
    + intros a w1 [HP2 Hsz2].
      apply wp_bind. unfold wp at 1, update_room, modify. cbn [mgr sent ticks].
      apply wp_bind. unfold wp at 1, gets.
      cbn [mgr sent ticks rooms connections wsToUser set_rooms].
      pose proof (P_migrate _ v (conn_roomId c) HP2) as HP3.
      destruct (alter (migrate_host v) (conn_roomId c) (rooms (mgr w1))
                  !! conn_roomId c) as [r'|] eqn:Hr'.
      * destruct (Nat.eqb (JsMap.size (users r')) 0) eqn:He.
        -- unfold wp, modify, within. cbn [mgr sent ticks]. split.
           ++ apply Nat.eqb_eq in He.
              apply (P_prune _ _ _ HP3 Hr' He).
           ++ cbn. lia.
        -- split; [exact HP3 | cbn; lia].
      * split; [exact HP3 | cbn; lia].
  - split; [exact (P_unbind _ _ _ HP HQ Hc Hr) | cbn; lia].
Qed.

Lemma leaveRoom_wp v w :
  P (mgr w) -> Q v ->
  wp (leaveRoom env v)
     (fun _ w' => P (mgr w') /\
        (size (connections (mgr w')) <= size (connections (mgr w)))%nat) Exc w.
Proof.
  intros HP HQ. unfold leaveRoom.
  pose proof (leaveRoom_fuel_wp (S (size (connections (mgr w))))
                (size (connections (mgr w))) v w) as H.
  unfold wp in *. apply H; [lia | split; [exact HP | lia] | exact HQ].
Qed.

Lemma sendTo_wp ws payload w :
  P (mgr w) -> wp (sendTo env ws payload) (fun _ w' => P (mgr w')) Exc w.
Proof.
  intros HP. unfold sendTo.
  eapply wp_mono.
  - apply (sendTo_with_wp _ (size (connections (mgr w)))).
    + intros v w' [HP' Hsz] HQ. eapply wp_mono; [apply leaveRoom_wp; assumption|].
      intros a w'' [H1 H2]. split; [exact H1 | lia].
    + split; [exact HP | lia].
  - intros a w' [H _]. exact H.
Qed.

Lemma broadcastToRoom_wp roomId payload ex w :
  P (mgr w) ->
  wp (broadcastToRoom env roomId payload ex) (fun _ w' => P (mgr w')) Exc w.
Proof.
  intros HP. unfold broadcastToRoom.
  eapply wp_mono.
  - apply (broadcastToRoom_with_wp _ (size (connections (mgr w)))).
    + intros v w' [HP' Hsz] HQ. eapply wp_mono; [apply leaveRoom_wp; assumption|].
      intros a w'' [H1 H2]. split; [exact H1 | lia].
    + split; [exact HP | lia].
  - intros a w' [H _]. exact H.
Qed.

Lemma broadcastPlaybackSync_wp roomId w :
  P (mgr w) ->
  wp (broadcastPlaybackSync env roomId) (fun _ w' => P (mgr w')) Exc w.
Proof.
  intros HP. unfold broadcastPlaybackSync.
  apply wp_bind. unfold wp at 1, gets.
  destruct (rooms (mgr w) !! roomId) as [room|]; [|exact HP].
  apply wp_bind. unfold position.
  destruct (playbackState room); unfold wp at 1; cbn;
    apply broadcastToRoom_wp; exact HP.
Qed.

Lemma leaveByWs_wp ws w :
  (forall v, wsToUser (mgr w) !! ws = Some v -> Q v) ->
  P (mgr w) -> wp (leaveByWs env ws) (fun _ w' => P (mgr w')) Exc w.
Proof.
  intros HQ HP. unfold leaveByWs. apply wp_bind. unfold wp at 1, gets.
  destruct (wsToUser (mgr w) !! ws) as [v|] eqn:Hv; [|exact HP].
  destruct (JsString.truthy v); [|exact HP].
  eapply wp_mono; [apply leaveRoom_wp; eauto|].
  intros a w' [H _]. exact H.
Qed.

End Cascade.

(** *** Broadcasts when no contacted socket fails *)

Lemma log_log w l1 l2 : log (log w l1) l2 = log w (l1 ++ l2).
Proof. unfold log; cbn. now rewrite app_assoc. Qed.

Lemma log_nil w : log w [] = w.
Proof. destruct w; unfold log; cbn. now rewrite app_nil_r. Qed.

Section NoFailure.
Variable env : Env.

Lemma recipients_eq m roomId ex :
  recipients m roomId ex =
  match rooms m !! roomId with
  | None => []
  | Some room => omap (target m ex) (JsMap.keys (users room))
  end.
Proof. reflexivity. Qed.

Lemma sendTo_with_ok leave ws payload w :
  fails env ws = false ->
  sendTo_with env leave ws payload w = Returned tt (log w [(ws, payload)]).
Proof. intros H. unfold sendTo_with. now rewrite H. Qed.

Lemma for_each_nofail leave roomId payload ex room (l : list string) : forall w,
  rooms (mgr w) !! roomId = Some room ->
  (forall u, u ∈ l -> u ∈ JsMap.keys (users room)) ->
  (forall ws, ws ∈ omap (target (mgr w) ex) l -> fails env ws = false) ->
  for_each l (fun userId =>
    let! live := gets (still_member roomId userId) in
    if live then
      let! conn := gets (fun m => connections m !! userId) in
      match conn with
      | None => ret tt
      | Some conn =>
          if decide (ex = Some (conn_ws conn)) then ret tt
          else sendTo_with env leave (conn_ws conn) payload
      end
    else ret tt) w
  = Returned tt (log w (map (fun ws => (ws, payload)) (omap (target (mgr w) ex) l))).
Proof.
  induction l as [|u l IH]; intros w Hroom Hsub Hok.
  - simpl. now rewrite log_nil.
  - cbn [for_each]. unfold bind at 1, bind at 1, gets at 1.
    assert (Hlive : still_member roomId u (mgr w) = true).
    { unfold still_member. rewrite Hroom. apply JsMap_has_keys. apply Hsub. left. }
    rewrite Hlive. unfold bind at 1, gets at 1.
    cbn [omap list_omap] in *. unfold target at 1 in Hok. unfold target at 1.
    destruct (connections (mgr w) !! u) as [c|] eqn:Hc.
    + destruct (decide (ex = Some (conn_ws c))) as [He|He].
      * unfold ret at 1. apply IH; auto. intros v Hv. apply Hsub. now right.
      * rewrite (sendTo_with_ok _ _ _ _ (Hok (conn_ws c) ltac:(left))).
        rewrite (IH (log w [(conn_ws c, payload)])); cbn [mgr log]; auto.
        -- rewrite log_log. reflexivity.
        -- intros v Hv. apply Hsub. now right.
        -- intros ws Hws. apply Hok. now right.
    + unfold ret at 1. apply IH; auto. intros v Hv. apply Hsub. now right.
Qed.

Lemma broadcastToRoom_with_nofail leave roomId payload ex w :
  (forall ws, ws ∈ recipients (mgr w) roomId ex -> fails env ws = false) ->
  broadcastToRoom_with env leave roomId payload ex w
  = Returned tt (log w (fanout (mgr w) roomId ex payload)).
Proof.
  intros Hok. unfold broadcastToRoom_with, fanout.
  unfold bind at 1, gets at 1. rewrite recipients_eq in *.
  destruct (rooms (mgr w) !! roomId) as [room|] eqn:Hroom.
  - apply for_each_nofail with (room := room); auto.
  - cbn. now rewrite log_nil.
Qed.

Lemma broadcastToRoom_nofail roomId payload ex w :
  (forall ws, ws ∈ recipients (mgr w) roomId ex -> fails env ws = false) ->
  broadcastToRoom env roomId payload ex w
  = Returned tt (log w (fanout (mgr w) roomId ex payload)).
Proof. apply broadcastToRoom_with_nofail. Qed.

Lemma broadcastPlaybackSync_nofail roomId room w :
  rooms (mgr w) !! roomId = Some room ->
  (forall ws, ws ∈ recipients (mgr w) roomId None -> fails env ws = false) ->
  broadcastPlaybackSync env roomId w
  = Returned tt
      (log (tick (sync_ticks room) w)
           (fanout (mgr w) roomId None (sync_frame env room (ticks w)))).
Proof.
  intros Hroom Hok. unfold broadcastPlaybackSync.
  unfold bind at 1, gets at 1. rewrite Hroom.
  unfold position, sync_frame, sync_ticks.
  destruct (playbackState room) eqn:Hps;
    unfold bind, Date_now, ret; cbn [mgr sent ticks];
    rewrite broadcastToRoom_nofail by exact Hok; reflexivity.
Qed.

End NoFailure.

(** ** Invariant I1 and the updates that respect it *)

Lemma findIndex_lt tid q i : findIndex tid q = Some i -> (i < length q)%nat.
Proof.
  revert i; induction q as [|t q IH]; intros i; simpl; [discriminate|].
  destruct (decide (track_id t = tid)).
  - intros [= <-]. lia.
  - destruct (findIndex tid q) as [j|]; simpl; [|discriminate].
    intros [= <-]. specialize (IH j eq_refl). lia.
Qed.

Lemma splice1_length i q :
  (i < length q)%nat -> length (splice1 i q) = pred (length q).
Proof.
  revert i; induction q as [|t q IH]; intros i; simpl; [lia|].
  destruct i as [|i]; simpl; [reflexivity|].
  intros H. rewrite IH by lia. lia.
Qed.

Lemma splice1_take_drop i q : splice1 i q = (take i q ++ drop (S i) q)%list.
Proof.
  revert i; induction q as [|t q IH]; intros [|i]; simpl; try reflexivity.
  now rewrite IH.
Qed.

(** ** Symbolic execution of the primitive steps *)

Lemma wp_ret {A} (a : A) Post Exc w : wp (ret a) Post Exc w = Post a w.
Proof. reflexivity. Qed.

Lemma wp_throw {A} (Post : A -> World -> Prop) Exc w :
  wp throw Post Exc w = Exc w.
Proof. reflexivity. Qed.

Lemma wp_ret_bind {A B} (a : A) (k : A -> M B) Post Exc w :
  wp (bind (ret a) k) Post Exc w = wp (k a) Post Exc w.
Proof. reflexivity. Qed.

Lemma wp_throw_bind {A B} (k : A -> M B) Post Exc w :
  wp (bind throw k) Post Exc w = Exc w.
Proof. reflexivity. Qed.

Lemma wp_gets_bind {A B} (f : RoomManager -> A) (k : A -> M B) Post Exc w :
  wp (bind (gets f) k) Post Exc w = wp (k (f (mgr w))) Post Exc w.
Proof. reflexivity. Qed.

Lemma wp_modify_bind {B} f (k : unit -> M B) Post Exc w :
  wp (bind (modify f) k) Post Exc w = wp (k tt) Post Exc (with_mgr (f (mgr w)) w).
Proof. reflexivity. Qed.

Lemma wp_modify f Post Exc w :
  wp (modify f) Post Exc w = Post tt (with_mgr (f (mgr w)) w).
Proof. reflexivity. Qed.

Lemma wp_update_room_bind {B} roomId f (k : unit -> M B) Post Exc w :
  wp (bind (update_room roomId f) k) Post Exc w
  = wp (k tt) Post Exc
      (with_mgr (set_rooms (alter f roomId (rooms (mgr w))) (mgr w)) w).
Proof. reflexivity. Qed.

Lemma wp_bind_assoc {A B C} (c : M A) (k1 : A -> M B) (k2 : B -> M C) Post Exc w :
  wp (bind (bind c k1) k2) Post Exc w
  = wp (bind c (fun a => bind (k1 a) k2)) Post Exc w.
Proof. unfold wp, bind. destruct (c w); reflexivity. Qed.

Lemma wp_date_bind env {B} (k : Z -> M B) Post Exc w :
  wp (bind (Date_now env) k) Post Exc w
  = wp (k (clock env (ticks w))) Post Exc
      {| mgr := mgr w; sent := sent w; ticks := S (ticks w) |}.
Proof. reflexivity. Qed.

Lemma wp_put_room_bind {B} roomId r (k : unit -> M B) Post Exc w :
  wp (bind (put_room roomId r) k) Post Exc w
  = wp (k tt) Post Exc
      (with_mgr (set_rooms (alter (fun _ => r) roomId (rooms (mgr w))) (mgr w)) w).
Proof. reflexivity. Qed.

Create Rewrite HintDb wp.
#[local] Hint Rewrite @wp_ret @wp_throw @wp_ret_bind @wp_throw_bind @wp_gets_bind
  @wp_modify_bind @wp_modify @wp_update_room_bind @wp_bind_assoc
  @wp_date_bind : wp.

Ltac wp_simp := repeat (autorewrite with wp; cbv beta).

(** ** A manager property kept by every inbound event *)

Section Invariants.
Variable Number_toString : float -> string.
Variable String_toNumber : string -> float.
Variable extractYouTubeId : JsValue -> option string.
Variable P : RoomManager -> Prop.
Variable Q : string -> Prop.
(** What the property needs of the identifier drawn by [nanoid], in the
    manager the event finds. *)
Variable F : RoomManager -> string -> Prop.

Hypothesis P_bound : forall m ws v, P m -> wsToUser m !! ws = Some v -> Q v.
Hypothesis P_unbind : forall m v c,
  P m -> Q v -> connections m !! v = Some c ->
  rooms m !! conn_roomId c = None -> P (unbind v c m).
Hypothesis P_exit : forall m v c r,
  P m -> Q v -> connections m !! v = Some c ->
  rooms m !! conn_roomId c = Some r ->
  P (exit_room v (conn_roomId c) (unbind v c m)).
Hypothesis P_migrate : forall m v roomId,
  P m -> P (set_rooms (alter (migrate_host v) roomId (rooms m)) m).
Hypothesis P_prune : forall m roomId r,
  P m -> rooms m !! roomId = Some r -> JsMap.size (users r) = O ->
  P (set_rooms (delete roomId (rooms m)) m).
Hypothesis P_update : forall m roomId r r',
  P m -> rooms m !! roomId = Some r -> legal_update r r' ->
  P (set_rooms (alter (fun _ => r') roomId (rooms m)) m).
Hypothesis P_join : forall m roomId r ws u user,
  P m -> F m u -> rooms m !! roomId = Some r ->
  P (joined ws roomId u (seat_user u user r) m).
Hypothesis P_create : forall m id r,
  P m -> F m id -> I1 r -> users r = [] -> room_id r = id ->
  P (set_rooms (<[id := r]> (rooms m)) m).

Variable env : Env.

Lemma bound_failing m ws v :
  P m -> fails env ws = true -> wsToUser m !! ws = Some v -> Q v.
Proof. intros HP _ H. exact (P_bound m ws v HP H). Qed.

Lemma keeps_broadcastToRoom roomId payload ex :
  keeps P (broadcastToRoom env roomId payload ex).
Proof.
  intros w HP.
  apply (broadcastToRoom_wp env P Q _ bound_failing P_unbind P_exit P_migrate
           P_prune _ _ _ w HP).
Qed.

Lemma keeps_sendTo ws payload : keeps P (sendTo env ws payload).
Proof.
  intros w HP.
  apply (sendTo_wp env P Q _ bound_failing P_unbind P_exit P_migrate P_prune
           _ _ w HP).
Qed.

Lemma keeps_broadcastPlaybackSync roomId :
  keeps P (broadcastPlaybackSync env roomId).
Proof.
  intros w HP.
  apply (broadcastPlaybackSync_wp env P Q _ bound_failing P_unbind P_exit
           P_migrate P_prune _ w HP).
Qed.

Lemma keeps_leaveByWs ws : keeps P (leaveByWs env ws).
Proof.
  intros w HP.
  apply (leaveByWs_wp env P Q _ bound_failing P_unbind P_exit P_migrate P_prune
           ws w (fun v H => P_bound _ _ _ HP H) HP).
Qed.

Lemma keeps_ret {A} (a : A) : keeps P (ret a).
Proof. intros w HP. exact HP. Qed.

Lemma keeps_seq {A B} (c : M A) (k : A -> M B) :
  keeps P c -> (forall a, keeps P (k a)) -> keeps P (bind c k).
Proof.
  intros Hc Hk w HP. eapply wp_seq; [apply Hc; exact HP|].
  intros a w' HP'. apply Hk; exact HP'.
Qed.

(** Storing a legal update and then broadcasting. *)
Lemma keeps_put_then key r r' (k : M unit) w :
  P (mgr w) -> rooms (mgr w) !! key = Some r -> legal_update r r' ->
  keeps P k ->
  wp (put_room key r' ;; k) (fun _ w' => P (mgr w')) (fun w' => P (mgr w')) w.
Proof.
  intros HP Hr Hl Hk. apply wp_bind.
  unfold wp at 1, put_room, update_room, modify.
  apply Hk. cbn [mgr]. eapply P_update; eauto.
Qed.

Lemma keeps_sync_tail roomId payload :
  keeps P (broadcastToRoom env roomId payload None ;;
         broadcastPlaybackSync env roomId).
Proof.
  apply keeps_seq; [apply keeps_broadcastToRoom|].
  intros _. apply keeps_broadcastPlaybackSync.
Qed.

Ltac keep_room HP Hr :=
  first
    [ exact HP
    | eapply keeps_put_then; [exact HP | exact Hr | | apply keeps_sync_tail] ].

Lemma keeps_addTrack u yt ti th : keeps P (addTrack env u yt ti th).
Proof.
  intros w HP. unfold addTrack. wp_simp.
  destruct (connections (mgr w) !! u) as [c|]; wp_simp; [|exact HP].
  destruct (rooms (mgr w) !! conn_roomId c) as [r|] eqn:Hr; wp_simp; [|exact HP].
  cbn [currentIndex set_queue].
  destruct (currentIndex r =? -1)%Z eqn:Hci; wp_simp.
  - eapply keeps_put_then; [exact HP | exact Hr | | apply keeps_sync_tail].
    split; [reflexivity|split; [reflexivity|]]. unfold I1, len; cbn. rewrite length_app; cbn. lia.
  - eapply keeps_put_then; [exact HP | exact Hr | | apply keeps_sync_tail].
    split; [reflexivity|split; [reflexivity|]]. unfold I1, len; cbn. rewrite length_app; cbn. lia.
Qed.

Lemma keeps_removeTrack u trackId : keeps P (removeTrack env u trackId).
Proof.
  intros w HP. unfold removeTrack. wp_simp.
  destruct (connections (mgr w) !! u) as [c|]; wp_simp; [|exact HP].
  destruct (rooms (mgr w) !! conn_roomId c) as [r|] eqn:Hr; wp_simp; [|exact HP].
  destruct (as_key trackId ≫= _) as [i|] eqn:Hi; wp_simp; [|exact HP].
  destruct (negb _ && negb _); wp_simp; [exact HP|].
  assert (Hlt : (i < length (queue r))%nat).
  { destruct trackId; try discriminate. cbn in Hi. eapply findIndex_lt; eauto. }
  pose proof (splice1_length i (queue r) Hlt) as Hlen.
  cbn [currentIndex set_queue queue].
  destruct (Z.of_nat i <? currentIndex r)%Z eqn:H1; wp_simp.
  { keep_room HP Hr. split; [reflexivity|split; [reflexivity|]]. unfold I1, len; cbn. lia. }
  destruct (Z.of_nat i =? currentIndex r)%Z eqn:H2; wp_simp.
  - destruct (len (splice1 i (queue r)) =? 0)%Z eqn:H3; wp_simp.
    { keep_room HP Hr. split; [reflexivity|split; [reflexivity|]]. unfold I1, len in *; cbn. lia. }
    destruct (currentIndex r >=? len (splice1 i (queue r)))%Z eqn:H4; wp_simp.
    + keep_room HP Hr. split; [reflexivity|split; [reflexivity|]]. unfold I1, len in *; cbn. lia.
    + keep_room HP Hr. split; [reflexivity|split; [reflexivity|]]. unfold I1, len in *; cbn. lia.
  - keep_room HP Hr. split; [reflexivity|split; [reflexivity|]]. unfold I1, len in *; cbn. lia.
Qed.

Lemma keeps_play u : keeps P (play env u).
Proof.
  intros w HP. unfold play, _roomForUser. wp_simp.
  destruct (connections (mgr w) !! u) as [c|]; wp_simp; [|exact HP].
  destruct (rooms (mgr w) !! conn_roomId c) as [r|] eqn:Hr; cbn [option_map];
    wp_simp; [|exact HP].
  destruct (_ || _); wp_simp; [exact HP|].
  eapply keeps_put_then; [exact HP | exact Hr | | apply keeps_broadcastPlaybackSync].
  split; [reflexivity|split; [reflexivity|]]. unfold I1; cbn. auto.
Qed.

Lemma keeps_pause u : keeps P (pause env u).
Proof.
  intros w HP. unfold pause, _roomForUser. wp_simp.
  destruct (connections (mgr w) !! u) as [c|]; wp_simp; [|exact HP].
  destruct (rooms (mgr w) !! conn_roomId c) as [r|] eqn:Hr; cbn [option_map];
    wp_simp; [|exact HP].
  destruct (bool_decide _); wp_simp; [exact HP|].
  eapply keeps_put_then; [exact HP | exact Hr | | apply keeps_broadcastPlaybackSync].
  split; [reflexivity|split; [reflexivity|]]. unfold I1; cbn. auto.
Qed.

Lemma keeps_seek u time : keeps P (seek String_toNumber env u time).
Proof.
  intros w HP. unfold seek, _roomForUser. wp_simp.
  destruct (connections (mgr w) !! u) as [c|]; wp_simp; [|exact HP].
  destruct (rooms (mgr w) !! conn_roomId c) as [r|] eqn:Hr; cbn [option_map];
    wp_simp; [|exact HP].
  destruct (currentIndex r =? -1)%Z; wp_simp; [exact HP|].
  destruct (playbackState r); wp_simp.
  - eapply keeps_put_then; [exact HP | exact Hr | | apply keeps_broadcastPlaybackSync].
    split; [reflexivity|split; [reflexivity|]]. unfold I1; cbn. auto.
  - eapply keeps_put_then; [exact HP | exact Hr | | apply keeps_broadcastPlaybackSync].
    split; [reflexivity|split; [reflexivity|]]. unfold I1; cbn. auto.
Qed.

Lemma keeps_nextTrack roomId : keeps P (nextTrack env roomId).
Proof.
  intros w HP. unfold nextTrack. wp_simp.
  destruct (rooms (mgr w) !! roomId) as [r|] eqn:Hr; wp_simp; [|exact HP].
  cbn [queue currentIndex set_skipVotes].
  destruct (len (queue r) =? 0)%Z eqn:H1; wp_simp.
  { keep_room HP Hr. split; [reflexivity|split; [reflexivity|]]. unfold I1, len in *; cbn. lia. }
  destruct (currentIndex r <? len (queue r) - 1)%Z eqn:H2; wp_simp.
  - keep_room HP Hr. split; [reflexivity|split; [reflexivity|]]. unfold I1, len in *; cbn. lia.
  - keep_room HP Hr. split; [reflexivity|split; [reflexivity|]]. unfold I1, len in *; cbn. lia.
Qed.

Lemma keeps_skip u : keeps P (skip env u).
Proof.
  intros w HP. unfold skip, _roomForUser. wp_simp.
  destruct (connections (mgr w) !! u) as [c|]; wp_simp; [|exact HP].
  destruct (rooms (mgr w) !! conn_roomId c) as [r|] eqn:Hr; cbn [option_map];
    wp_simp; [|exact HP].
  destruct (currentIndex r =? -1)%Z; wp_simp; [exact HP|].
  eapply keeps_put_then; [exact HP | exact Hr | |].
  - split; [reflexivity|split; [reflexivity|]]. unfold I1; cbn. auto.
  - apply keeps_seq; [apply keeps_broadcastToRoom|]. intros _.
    destruct (_ >=? _)%Z; [apply keeps_nextTrack | apply keeps_ret].
Qed.

Lemma keeps_chat u text : keeps P (chat Number_toString env u text).
Proof.
  intros w HP. unfold chat. wp_simp.
  destruct (connections (mgr w) !! u) as [c|]; wp_simp; [|exact HP].
  destruct (rooms (mgr w) !! conn_roomId c) as [r|] eqn:Hr; wp_simp; [|exact HP].
  destruct (JsMap.get u (users r)); wp_simp; [|exact HP].
  destruct (negb _); wp_simp; [exact HP|].
  apply keeps_broadcastToRoom. exact HP.
Qed.

Lemma keeps_setCrossfade u d : keeps P (setCrossfade String_toNumber env u d).
Proof.
  intros w HP. unfold setCrossfade. wp_simp.
  destruct (connections (mgr w) !! u) as [c|]; wp_simp; [|exact HP].
  destruct (rooms (mgr w) !! conn_roomId c) as [r|] eqn:Hr; wp_simp; [|exact HP].
  eapply keeps_put_then; [exact HP | exact Hr | | apply keeps_broadcastToRoom].
  split; [reflexivity|split; [reflexivity|]]. unfold I1; cbn. auto.
Qed.

Lemma keeps_handleQueueAdd u url :
  keeps P (handleQueueAdd env extractYouTubeId u url).
Proof.
  intros w HP. unfold handleQueueAdd. wp_simp.
  destruct (connections (mgr w) !! u) as [c|]; wp_simp; [|exact HP].
  destruct (extractYouTubeId url); wp_simp; [exact HP|].
  apply keeps_sendTo. exact HP.
Qed.

Lemma keeps_createRoom name : keeps_fresh P F env (createRoom env name).
Proof.
  intros w HP HF. unfold createRoom.
  assert (Hmk : forall roomName w0, mgr w0 = mgr w ->
    wp (let! now := Date_now env in
        modify (fun m => set_rooms (<[nanoid env :=
          {| room_id := nanoid env; room_name := roomName; createdAt := now;
             hostId := None; queue := []; currentIndex := -1;
             playbackState := paused; startedAt := 0; elapsed := 0;
             users := []; skipVotes := ∅; crossfadeDuration := 3 |}]>
          (rooms m)) m) ;; ret (nanoid env, roomName))
       (fun _ w' => P (mgr w')) (fun w' => P (mgr w')) w0).
  { intros roomName w0 Hw0. wp_simp. cbn [mgr with_mgr]. rewrite Hw0.
    apply P_create; auto. unfold I1, len; cbn. lia. }
  destruct (truthy name); [destruct name|]; wp_simp; try exact HP;
    apply Hmk; reflexivity.
Qed.

Lemma keeps_joinRoom roomId userName ws :
  keeps_fresh P F env (joinRoom env roomId userName ws).
Proof.
  intros w HP HF. unfold joinRoom. wp_simp.
  destruct (as_key roomId) as [k|] eqn:Hk; cbn [mbind option_bind].
  2:{ apply keeps_sendTo. exact HP. }
  destruct (rooms (mgr w) !! k) as [r|] eqn:Hr.
  2:{ apply keeps_sendTo. exact HP. }
  destruct (or_else userName (JString "Anonymous")); wp_simp; try exact HP.
  rewrite wp_put_room_bind. wp_simp.
  unfold serializeRoom. wp_simp.
  match goal with
  | |- wp _ _ _ ?w0 =>
      assert (HP0 : P (mgr w0))
  end.
  { cbn [mgr with_mgr]. apply (P_join _ _ _ ws _ _ HP HF Hr). }
  unfold position.
  destruct (playbackState _); wp_simp.
  - eapply wp_seq; [apply keeps_sendTo; exact HP0|].
    intros a w' HP'. apply keeps_broadcastToRoom. exact HP'.
  - eapply wp_seq; [apply keeps_sendTo; exact HP0|].
    intros a w' HP'. apply keeps_broadcastToRoom. exact HP'.
Qed.

Lemma keeps_message ws msg :
  keeps_fresh P F env
    (message Number_toString String_toNumber env extractYouTubeId ws msg).
Proof.
  intros w HP HF. unfold message. wp_simp.
  destruct msg; try (apply keeps_joinRoom; assumption);
    try exact HP;
    (destruct (wsToUser (mgr w) !! ws) as [u|]; [|exact HP];
     destruct (JsString.truthy u); [|exact HP]).
  - apply keeps_handleQueueAdd; exact HP.
  - apply keeps_removeTrack; exact HP.
  - apply keeps_play; exact HP.
  - apply keeps_pause; exact HP.
  - apply keeps_skip; exact HP.
  - apply keeps_seek; exact HP.
  - apply keeps_chat; exact HP.
  - apply keeps_setCrossfade; exact HP.
Qed.

Theorem keeps_handle ev :
  keeps_fresh P F env
    (handle Number_toString String_toNumber env extractYouTubeId ev).
Proof.
  intros w HP HF. destruct ev; cbn [handle].
  - eapply wp_seq; [apply keeps_createRoom; assumption|].
    intros a w' HP'. exact HP'.
  - apply keeps_message; assumption.
  - apply keeps_leaveByWs; assumption.
  - apply keeps_addTrack; assumption.
Qed.

End Invariants.

(** ** Sequences of inbound events *)

Section RunFacts.
Variable Number_toString : float -> string.
Variable String_toNumber : string -> float.
Variable extractYouTubeId : JsValue -> option string.

Lemma fresh_along_Forall (F : RoomManager -> string -> Prop) (F0 : string -> Prop) :
  (forall m id, F0 id -> F m id) ->
  forall evs m, Forall (fun e => F0 (nanoid (fst e))) evs -> fresh_along Number_toString String_toNumber extractYouTubeId F evs m.
Proof.
  intros HF evs. induction evs as [|[env ev] evs IH]; intros m Hall; cbn.
  - exact I.
  - inversion Hall as [|? ? H1 H2]; subst. split; [apply HF; exact H1|].
    destruct (step Number_toString String_toNumber extractYouTubeId env ev m); [apply IH; exact H2 | exact I].
Qed.

(** A property kept by every event is kept by every run, and every run
    ends. *)
Lemma step_keeps (P : RoomManager -> Prop) (F : RoomManager -> string -> Prop) :
  (forall env ev,
     keeps_fresh P F env
       (handle Number_toString String_toNumber env extractYouTubeId ev)) ->
  forall env ev m, F m (nanoid env) -> P m ->
  exists m', step Number_toString String_toNumber extractYouTubeId env ev m = Some m' /\ P m'.
Proof.
  intros Hk env ev m HF HP. unfold step.
  specialize (Hk env ev (start m) HP HF). unfold wp in Hk.
  destruct (handle _ _ _ _ _ _) as [a w'|w'|]; cbn; eauto. contradiction.
Qed.

Lemma run_keeps (P : RoomManager -> Prop) (F : RoomManager -> string -> Prop) :
  (forall env ev,
     keeps_fresh P F env
       (handle Number_toString String_toNumber env extractYouTubeId ev)) ->
  forall evs m, fresh_along Number_toString String_toNumber extractYouTubeId F evs m -> P m ->
  exists m', run_events Number_toString String_toNumber extractYouTubeId evs m = Some m' /\ P m'.
Proof.
  intros Hk evs. induction evs as [|[env ev] evs IH]; intros m HF HP.
  - exists m. split; [reflexivity | exact HP].
  - destruct HF as [HF1 HF2].
    destruct (step_keeps P F Hk env ev m HF1 HP) as (m' & Hs & HP').
    cbn [run_events]. rewrite Hs in *. apply IH; assumption.
Qed.

End RunFacts.

(** ** I1 in every room *)

Lemma all_rooms_alter (R : Room -> Prop) f roomId m :
  (forall r, rooms m !! roomId = Some r -> R r -> R (f r)) ->
  all_rooms R m -> all_rooms R (set_rooms (alter f roomId (rooms m)) m).
Proof.
  intros Hf HP k r'. cbn. rewrite lookup_alter_Some.
  intros [[-> (r & Hr & ->)] | [_ Hr]]; eauto.
Qed.

Lemma all_rooms_delete (R : Room -> Prop) roomId m :
  all_rooms R m -> all_rooms R (set_rooms (delete roomId (rooms m)) m).
Proof.
  intros HP k r'. cbn. rewrite lookup_delete_Some. intros [_ Hr]; eauto.
Qed.

Lemma all_rooms_insert (R : Room -> Prop) roomId r m :
  R r -> all_rooms R m -> all_rooms R (set_rooms (<[roomId := r]> (rooms m)) m).
Proof.
  intros Hr HP k r'. cbn. rewrite lookup_insert_Some.
  intros [[_ <-] | [_ H]]; eauto.
Qed.

Section I1_everywhere.
Variable Number_toString : float -> string.
Variable String_toNumber : string -> float.
Variable extractYouTubeId : JsValue -> option string.

Lemma I1_handle env ev :
  keeps_fresh (all_rooms I1) (fun _ _ => True) env
    (handle Number_toString String_toNumber env extractYouTubeId ev).
Proof.
  apply (keeps_handle Number_toString String_toNumber extractYouTubeId
           (all_rooms I1) (fun _ => True) (fun _ _ => True)).
  - trivial.
  - intros m v c HP _ _ _. exact HP.
  - intros m v c r HP _ _ _.
    apply all_rooms_alter; [|exact HP]. intros r0 _ H; exact H.
  - intros m v roomId HP. apply all_rooms_alter; [|exact HP].
    intros r0 _ H. unfold migrate_host.
    destruct (decide _); [destruct (_ <? _)%nat|]; exact H.
  - intros m roomId r HP _ _. apply all_rooms_delete; exact HP.
  - intros m roomId r r' HP Hr (_ & _ & Hl).
    apply all_rooms_alter; [|exact HP]. intros r0 Hr0 _.
    apply Hl. eapply HP; eauto.
  - intros m roomId r ws u user HP _ Hr. unfold joined.
    apply (all_rooms_alter I1 (fun _ => seat_user u user r) roomId
             (set_connections _ (set_wsToUser _ m))); [|exact HP].
    intros r0 Hr0 _. cbn in Hr0. rewrite Hr in Hr0. injection Hr0 as <-.
    specialize (HP _ _ Hr). unfold seat_user.
    destruct (_ =? _)%nat; exact HP.
  - intros m id r HP _ Hr _ _. apply all_rooms_insert; assumption.
Qed.

End I1_everywhere.

(** ** Handlers when every [send] succeeds *)

Lemma mgr_sync_log env roomId w : mgr (sync_log env roomId w) = mgr w.
Proof. unfold sync_log. destruct (rooms (mgr w) !! roomId); reflexivity. Qed.

Lemma wp_returns {A} (c : M A) (Post : A -> World -> Prop) w :
  wp c Post (fun _ => False) w <-> exists a w', c w = Returned a w' /\ Post a w'.
Proof.
  unfold wp. destruct (c w) as [a w'|w'|]; split; eauto; try contradiction.
  - intros (a0 & w0 & [= <- <-] & H). exact H.
  - intros (a0 & w0 & H & _). discriminate.
  - intros (a0 & w0 & H & _). discriminate.
Qed.

Lemma wp_returns_tt (c : M unit) (Post : World -> Prop) w :
  wp c (fun _ => Post) (fun _ => False) w ->
  exists w', c w = Returned tt w' /\ Post w'.
Proof.
  intros H. apply wp_returns in H. destruct H as ([] & w' & H1 & H2). eauto.
Qed.

Section Reliable.
Variable env : Env.
Hypothesis reliable : forall ws, fails env ws = false.

Lemma broadcastToRoom_ok roomId payload ex w :
  broadcastToRoom env roomId payload ex w
  = Returned tt (log w (fanout (mgr w) roomId ex payload)).
Proof. apply broadcastToRoom_nofail. intros; apply reliable. Qed.

Lemma broadcastPlaybackSync_ok roomId w :
  broadcastPlaybackSync env roomId w = Returned tt (sync_log env roomId w).
Proof.
  unfold sync_log. destruct (rooms (mgr w) !! roomId) as [room|] eqn:Hr.
  - apply broadcastPlaybackSync_nofail; [exact Hr | intros; apply reliable].
  - unfold broadcastPlaybackSync, bind, gets. now rewrite Hr.
Qed.

Lemma sendTo_ok ws payload w :
  sendTo env ws payload w = Returned tt (log w [(ws, payload)]).
Proof. apply sendTo_with_ok, reliable. Qed.

Lemma wp_broadcastToRoom_ok roomId payload ex Post Exc w :
  wp (broadcastToRoom env roomId payload ex) Post Exc w
  = Post tt (log w (fanout (mgr w) roomId ex payload)).
Proof. unfold wp. now rewrite broadcastToRoom_ok. Qed.

Lemma wp_broadcastToRoom_ok_bind {B} roomId payload ex (k : unit -> M B) Post Exc w :
  wp (bind (broadcastToRoom env roomId payload ex) k) Post Exc w
  = wp (k tt) Post Exc (log w (fanout (mgr w) roomId ex payload)).
Proof. unfold wp, bind. now rewrite broadcastToRoom_ok. Qed.

Lemma wp_broadcastPlaybackSync_ok roomId Post Exc w :
  wp (broadcastPlaybackSync env roomId) Post Exc w
  = Post tt (sync_log env roomId w).
Proof. unfold wp. now rewrite broadcastPlaybackSync_ok. Qed.

Lemma wp_sendTo_ok_bind {B} ws payload (k : unit -> M B) Post Exc w :
  wp (bind (sendTo env ws payload) k) Post Exc w
  = wp (k tt) Post Exc (log w [(ws, payload)]).
Proof. unfold wp, bind. now rewrite sendTo_ok. Qed.

End Reliable.

Ltac wp_ok H :=
  repeat (first
    [ rewrite (wp_broadcastToRoom_ok_bind _ H)
    | rewrite (wp_broadcastToRoom_ok _ H)
    | rewrite (wp_broadcastPlaybackSync_ok _ H)
    | rewrite (wp_sendTo_ok_bind _ H)
    | rewrite wp_put_room_bind
    | progress wp_simp ]).

Lemma alter_const_insert (m : gmap string Room) k r r' :
  m !! k = Some r -> alter (fun _ => r') k m = <[k := r']> m.
Proof.
  intros H. apply map_eq; intros j.
  rewrite lookup_alter, lookup_insert.
  destruct (decide (k = j)) as [->|]; [now rewrite H | reflexivity].
Qed.

(** *** [removeTrack] *)

Lemma removeTrack_mgr env u tid w c r i t :
  (forall ws, fails env ws = false) ->
  connections (mgr w) !! u = Some c ->
  rooms (mgr w) !! conn_roomId c = Some r ->
  findIndex tid (queue r) = Some i ->
  queue r !! i = Some t ->
  hostId r = Some u \/ addedBy t = u ->
  wp (removeTrack env u (JString tid))
     (fun _ w' =>
        mgr w' = set_rooms (<[conn_roomId c := removed (clock env (ticks w)) i r]>
                              (rooms (mgr w))) (mgr w))
     (fun _ => False) w.
Proof.
  intros Hok Hc Hr Hi Ht Hperm. unfold removeTrack. wp_simp.
  rewrite Hc. wp_simp. rewrite Hr. wp_simp.
  cbn [as_key mbind option_bind]. rewrite Hi, Ht.
  assert (Hp : negb (bool_decide (hostId r = Some u))
               && negb (bool_decide (addedBy t = u)) = false).
  { destruct Hperm as [H|H].
    - rewrite (bool_decide_eq_true_2 _ H). reflexivity.
    - rewrite (bool_decide_eq_true_2 _ H). apply andb_false_r. }
  rewrite Hp. unfold removed. cbn [currentIndex queue set_queue].
  destruct (Z.of_nat i <? currentIndex r)%Z; wp_ok Hok.
  { rewrite !mgr_sync_log. cbn. now rewrite (alter_const_insert _ _ r). }
  destruct (Z.of_nat i =? currentIndex r)%Z; wp_ok Hok.
  - destruct (len (splice1 i (queue r)) =? 0)%Z; wp_ok Hok.
    { rewrite !mgr_sync_log. cbn. now rewrite (alter_const_insert _ _ r). }
    destruct (currentIndex r >=? len (splice1 i (queue r)))%Z; wp_ok Hok;
      rewrite !mgr_sync_log; cbn; now rewrite (alter_const_insert _ _ r).
  - rewrite !mgr_sync_log. cbn. now rewrite (alter_const_insert _ _ r).
Qed.

Lemma len_nil_iff q : len q = 0%Z <-> q = [].
Proof. unfold len. destruct q; cbn; split; intros H; try reflexivity; try lia; discriminate. Qed.

(** C1. A permitted [queue:remove] of the track at index [i] removes that
    track and applies exactly one fix-up: [i < currentIndex] decrements
    [currentIndex] and touches nothing else; [i = currentIndex] stops
    playback when the queue became empty, restarts at the new last index
    when the removed track was last, restarts in place when a later track
    slid into the slot, and clears the votes in all three cases;
    [i > currentIndex] changes the queue only. *)
Theorem removeTrack_fixup env u tid w c r i t :
  (forall ws, fails env ws = false) ->
  connections (mgr w) !! u = Some c ->
  rooms (mgr w) !! conn_roomId c = Some r ->
  findIndex tid (queue r) = Some i ->
  queue r !! i = Some t ->
  hostId r = Some u \/ addedBy t = u ->
  exists w' r',
    removeTrack env u (JString tid) w = Returned tt w' /\
    rooms (mgr w') = <[conn_roomId c := r']> (rooms (mgr w)) /\
    connections (mgr w') = connections (mgr w) /\
    wsToUser (mgr w') = wsToUser (mgr w) /\
    queue r' = (take i (queue r) ++ drop (S i) (queue r))%list /\
    hostId r' = hostId r /\ users r' = users r /\
    crossfadeDuration r' = crossfadeDuration r /\
    let ci := currentIndex r in
    let now := Number_of_Z (clock env (ticks w)) in
    let kept :=
      startedAt r' = startedAt r /\ elapsed r' = elapsed r /\
      playbackState r' = playbackState r /\ skipVotes r' = skipVotes r in
    let restarted :=
      elapsed r' = 0%float /\ startedAt r' = now /\
      playbackState r' = playing /\ skipVotes r' = ∅ in
    ((Z.of_nat i < ci)%Z -> currentIndex r' = (ci - 1)%Z /\ kept) /\
    (Z.of_nat i = ci -> queue r' = [] ->
       currentIndex r' = (-1)%Z /\ playbackState r' = paused /\
       elapsed r' = 0%float /\ skipVotes r' = ∅) /\
    (Z.of_nat i = ci -> queue r' <> [] -> (len (queue r') <= Z.of_nat i)%Z ->
       currentIndex r' = (len (queue r') - 1)%Z /\ restarted) /\
    (Z.of_nat i = ci -> queue r' <> [] -> (Z.of_nat i < len (queue r'))%Z ->
       currentIndex r' = ci /\ restarted) /\
    ((ci < Z.of_nat i)%Z -> currentIndex r' = ci /\ kept).
Proof.
  intros Hok Hc Hr Hi Ht Hperm.
  pose proof (removeTrack_mgr env u tid w c r i t Hok Hc Hr Hi Ht Hperm) as H.
  apply wp_returns in H. destruct H as ([] & w' & Hrun & Hm).
  exists w', (removed (clock env (ticks w)) i r).
  split; [exact Hrun|]. rewrite Hm. cbn [rooms connections wsToUser set_rooms].
  do 3 (split; [reflexivity|]).
  unfold removed. cbn [queue set_queue].
  pose proof (len_nil_iff (splice1 i (queue r))) as Hnil.
  destruct (Z.of_nat i <? currentIndex r)%Z eqn:H1;
    [|destruct (Z.of_nat i =? currentIndex r)%Z eqn:H2;
      [destruct (len (splice1 i (queue r)) =? 0)%Z eqn:H3;
        [|destruct (currentIndex r >=? len (splice1 i (queue r)))%Z eqn:H4]|]];
    cbn; (split; [apply splice1_take_drop|]);
    do 3 (split; [reflexivity|]);
    repeat split; intros; try reflexivity; try lia;
    try (exfalso; lia); try tauto.
  all: try (exfalso; apply Z.eqb_neq in H3; tauto).
  all: try (apply Z.eqb_eq in H3; exfalso; tauto).
Qed.

Lemma removeTrack_fixup_witness :
  exists w' r',
    removeTrack (demo_env 9000) "u1" (JString "tB") (start demo) = Returned tt w' /\
    rooms (mgr w') = <["r1" := r']> (rooms demo) /\
    queue r' = [demo_track "tA" "u1"; demo_track "tC" "u2"].
Proof.
  destruct (removeTrack_fixup (demo_env 9000) "u1" "tB" (start demo)
              {| conn_ws := 1%nat; conn_roomId := "r1" |} demo_room 1
              (demo_track "tB" "u2"))
    as (w' & r' & H1 & H2 & _ & _ & H3 & _).
  - intros ws. reflexivity.
  - reflexivity.
  - reflexivity.
  - reflexivity.
  - reflexivity.
  - left. reflexivity.
  - exists w', r'. split; [exact H1|]. split; [exact H2|]. exact H3.
Defined.

Lemma I1_currentTrack r :
  I1 r -> (currentIndex r = (-1)%Z <-> currentTrack r = None).
Proof.
  unfold I1, currentTrack, queue_at, len. intros [H1 H2]. split.
  - intros ->. reflexivity.
  - destruct (currentIndex r >=? 0)%Z eqn:Hge; [|lia].
    assert (Hle : (0 <=? currentIndex r)%Z = true) by lia.
    rewrite Hle. intros Hnone. apply lookup_ge_None in Hnone. lia.
Qed.

(** C3. I1 holds in every room after every inbound event of every
    sequence of events run from the empty manager (rooms come into being
    by [createRoom] events of the sequence), and every such sequence runs
    to its end: [currentIndex] is [-1] or a valid index into the queue, it
    is [-1] when the queue is empty, and it is [-1] exactly when there is
    no current track. *)
Theorem I1_after_every_event
    (Number_toString : float -> string) (String_toNumber : string -> float)
    (extractYouTubeId : JsValue -> option string)
    (evs : list (Env * Inbound)) :
  exists m,
    run_events Number_toString String_toNumber extractYouTubeId evs constructor_
      = Some m /\
    forall roomId r, rooms m !! roomId = Some r ->
      (currentIndex r = (-1)%Z \/ (0 <= currentIndex r < len (queue r))%Z) /\
      (queue r = [] -> currentIndex r = (-1)%Z) /\
      (currentIndex r = (-1)%Z <-> currentTrack r = None).
Proof.
  destruct (run_keeps Number_toString String_toNumber extractYouTubeId
              (all_rooms I1) (fun _ _ => True)
              (fun env ev => I1_handle _ _ _ env ev) evs constructor_)
    as (m & Hrun & HI).
  - apply (fresh_along_Forall _ _ _ _ (fun _ => True)); [trivial|].
    apply Forall_forall. trivial.
  - intros k r H. cbn in H. rewrite lookup_empty in H. discriminate.
  - exists m. split; [exact Hrun|]. intros roomId r Hr.
    pose proof (HI _ _ Hr) as H1. split; [|split].
    + unfold I1 in H1. lia.
    + intros Hq. unfold I1, len in H1. rewrite Hq in H1. cbn in H1. lia.
    + apply I1_currentTrack. exact H1.
Qed.

(** *** [skip] and [nextTrack] *)

Lemma users_advanced now r : users (advanced now r) = users r.
Proof.
  unfold advanced.
  destruct (len (queue r) =? 0)%Z;
    [|destruct (currentIndex r <? len (queue r) - 1)%Z]; reflexivity.
Qed.

Lemma recipients_put m roomId r r' ex :
  rooms m !! roomId = Some r -> users r' = users r ->
  recipients (set_rooms (alter (fun _ => r') roomId (rooms m)) m) roomId ex
  = recipients m roomId ex.
Proof.
  intros Hr Hu. unfold recipients. cbn.
  rewrite lookup_alter_eq, Hr. cbn. now rewrite Hu.
Qed.

Lemma fanout_put m roomId r r' ex p :
  rooms m !! roomId = Some r -> users r' = users r ->
  fanout (set_rooms (alter (fun _ => r') roomId (rooms m)) m) roomId ex p
  = fanout m roomId ex p.
Proof. intros Hr Hu. unfold fanout. now rewrite (recipients_put _ _ r). Qed.

Lemma alter_alter_const (m : gmap string Room) k r1 r2 :
  alter (fun _ => r2) k (alter (fun _ => r1) k m) = alter (fun _ => r2) k m.
Proof. rewrite alter_alter_eq. reflexivity. Qed.

Lemma sync_log_put env m roomId r r' w :
  rooms m !! roomId = Some r -> users r' = users r ->
  mgr w = set_rooms (alter (fun _ => r') roomId (rooms m)) m ->
  sync_log env roomId w
  = log (tick (sync_ticks r') w)
        (fanout m roomId None (sync_frame env r' (ticks w))).
Proof.
  intros Hr Hu Hw. unfold sync_log. rewrite Hw. cbn [rooms set_rooms].
  rewrite lookup_alter_eq, Hr. cbn [fmap option_fmap option_map].
  now rewrite (fanout_put _ _ r).
Qed.

Lemma nextTrack_run env roomId r w :
  (forall ws, fails env ws = false) ->
  rooms (mgr w) !! roomId = Some r ->
  let r' := advanced (clock env (ticks w)) r in
  let t := ((if starts_next r then 1 else 0) + ticks w)%nat in
  nextTrack env roomId w =
  Returned tt
    {| mgr := set_rooms (alter (fun _ => r') roomId (rooms (mgr w))) (mgr w);
       sent := sent w
               ++ fanout (mgr w) roomId None (queue_updated (queue r') (currentIndex r'))
               ++ fanout (mgr w) roomId None (sync_frame env r' t);
       ticks := sync_ticks r' + t |}.
Proof.
  intros Hok Hr r' t.
  assert (Hu : users r' = users r) by apply users_advanced.
  assert (H : wp (nextTrack env roomId)
            (fun _ w' => w' =
              {| mgr := set_rooms (alter (fun _ => r') roomId (rooms (mgr w))) (mgr w);
                 sent := sent w
                   ++ fanout (mgr w) roomId None (queue_updated (queue r') (currentIndex r'))
                   ++ fanout (mgr w) roomId None (sync_frame env r' t);
                 ticks := sync_ticks r' + t |}) (fun _ => False) w).
  { unfold nextTrack. wp_simp. rewrite Hr. wp_simp.
    subst r' t. unfold advanced, starts_next in *.
    cbn [queue currentIndex set_skipVotes] in *.
    destruct (len (queue r) =? 0)%Z; cbn [negb andb] in *;
      [|destruct (currentIndex r <? len (queue r) - 1)%Z]; wp_ok Hok;
      cbn [mgr with_mgr];
      rewrite (fanout_put _ _ r) by (exact Hr || reflexivity);
      (erewrite sync_log_put; [| | |reflexivity]; [|exact Hr|reflexivity]);
      unfold log, tick; cbn [mgr sent ticks with_mgr];
      rewrite <- ?app_assoc; reflexivity. }
  apply wp_returns in H. destruct H as ([] & w' & Hrun & ->). exact Hrun.
Qed.

Lemma ceil_half_values :
  ceil_half 1 = 1%Z /\ ceil_half 2 = 1%Z /\ ceil_half 3 = 2%Z /\ ceil_half 4 = 2%Z.
Proof. repeat split; reflexivity. Qed.

Lemma skip_run env u w c r :
  (forall ws, fails env ws = false) ->
  connections (mgr w) !! u = Some c ->
  rooms (mgr w) !! conn_roomId c = Some r ->
  room_id r = conn_roomId c ->
  currentIndex r <> (-1)%Z ->
  let rid := conn_roomId c in
  let voted := set_skipVotes (skipVotes r ∪ {[u]}) r in
  let current := size (skipVotes r ∪ {[u]}) in
  let needed := ceil_half (JsMap.size (users r)) in
  let w1 := log (with_mgr (set_rooms (alter (fun _ => voted) rid (rooms (mgr w)))
                                      (mgr w)) w)
                (fanout (mgr w) rid None (skip_votes current needed)) in
  skip env u w =
  if (Z.of_nat current >=? needed)%Z then nextTrack env rid w1 else Returned tt w1.
Proof.
  intros Hok Hc Hr Hid Hci rid voted current needed w1.
  unfold skip, _roomForUser, bind, gets, ret.
  rewrite Hc, Hr. cbn [option_map].
  apply Z.eqb_neq in Hci. rewrite Hci.
  unfold put_room, update_room, modify.
  cbn [room_id set_skipVotes users skipVotes mgr]. rewrite Hid.
  rewrite (broadcastToRoom_ok env Hok). cbn [mgr].
  rewrite (fanout_put _ _ r) by (exact Hr || reflexivity).
  subst w1 current needed voted rid.
  destruct (_ >=? _)%Z; reflexivity.
Qed.

(** C2. A skip vote when nothing is scheduled changes nothing and sends
    nothing.  Otherwise the voter is added to the set of votes (a repeated
    vote does not grow it) and [skip:votes] is broadcast with the number
    of votes and [ceil(|users| / 2)]; below the threshold that is all;
    at or above it the votes are cleared and the next track starts, or
    playback stops at the end of the queue, and [queue:updated] and
    [playback:sync] follow.  The threshold is 1, 1, 2, 2 for 1, 2, 3, 4
    users. *)
Theorem skip_vote env u w c r :
  (forall ws, fails env ws = false) ->
  connections (mgr w) !! u = Some c ->
  rooms (mgr w) !! conn_roomId c = Some r ->
  room_id r = conn_roomId c ->
  (-1 <= currentIndex r)%Z ->
  let rid := conn_roomId c in
  let votes := skipVotes r ∪ {[u]} in
  let current := size votes in
  let needed := ceil_half (JsMap.size (users r)) in
  let now := clock env (ticks w) in
  let frames p := fanout (mgr w) rid None p in
  (currentIndex r = (-1)%Z -> skip env u w = Returned tt w) /\
  (u ∈ skipVotes r -> votes = skipVotes r) /\
  (currentIndex r <> (-1)%Z -> (Z.of_nat current < needed)%Z ->
     exists w',
       skip env u w = Returned tt w' /\
       mgr w' = set_rooms (<[rid := set_skipVotes votes r]> (rooms (mgr w))) (mgr w) /\
       sent w' = (sent w ++ frames (skip_votes current needed))%list) /\
  (currentIndex r <> (-1)%Z -> (needed <= Z.of_nat current)%Z ->
     exists w' r' t,
       skip env u w = Returned tt w' /\
       mgr w' = set_rooms (<[rid := r']> (rooms (mgr w))) (mgr w) /\
       sent w' = (sent w ++ frames (skip_votes current needed)
                    ++ frames (queue_updated (queue r') (currentIndex r'))
                    ++ frames (sync_frame env r' t))%list /\
       skipVotes r' = ∅ /\ queue r' = queue r /\ users r' = users r /\
       hostId r' = hostId r /\
       ((currentIndex r < len (queue r) - 1)%Z ->
          currentIndex r' = (currentIndex r + 1)%Z /\ elapsed r' = 0%float /\
          startedAt r' = Number_of_Z now /\ playbackState r' = playing) /\
       ((len (queue r) - 1 <= currentIndex r)%Z ->
          currentIndex r' = (-1)%Z /\ playbackState r' = paused /\
          elapsed r' = 0%float)) /\
  (ceil_half 1 = 1%Z /\ ceil_half 2 = 1%Z /\ ceil_half 3 = 2%Z /\ ceil_half 4 = 2%Z).
Proof.
  intros Hok Hc Hr Hid Hge. cbv zeta.
  split; [|split; [|split; [|split]]].
  - intros Hci. unfold skip, _roomForUser, bind, gets.
    rewrite Hc, Hr. cbn. rewrite Hci. reflexivity.
  - intros Hu. apply set_eq. intros x.
    rewrite elem_of_union, elem_of_singleton. split; [intros [H| ->]|]; auto.
  - intros Hci Hlt. rewrite (skip_run env u w c r Hok Hc Hr Hid Hci).
    match goal with |- context [(?a >=? ?b)%Z] =>
      assert (Hb : (a >=? b)%Z = false) by lia end.
    rewrite Hb. eexists. split; [reflexivity|].
    cbn [mgr sent log with_mgr]. split; [|reflexivity].
    now rewrite (alter_const_insert _ _ r).
  - intros Hci Hle. rewrite (skip_run env u w c r Hok Hc Hr Hid Hci).
    match goal with |- context [(?a >=? ?b)%Z] =>
      assert (Hb : (a >=? b)%Z = true) by lia end.
    rewrite Hb.
    set (voted := set_skipVotes (skipVotes r ∪ {[u]}) r).
    rewrite (nextTrack_run env (conn_roomId c) voted); [|exact Hok|].
    2:{ cbn [mgr log with_mgr rooms set_rooms]. now rewrite lookup_alter_eq, Hr. }
    cbn [mgr sent ticks log with_mgr].
    eexists _, (advanced (clock env (ticks w)) voted), _.
    split; [reflexivity|].
    assert (Hu : users (advanced (clock env (ticks w)) voted) = users r)
      by (rewrite users_advanced; reflexivity).
    split; [|split].
    + cbn [rooms set_rooms]. rewrite alter_alter_const.
      now rewrite (alter_const_insert _ _ r).
    + rewrite !(fanout_put _ _ r) by (exact Hr || reflexivity).
      rewrite <- app_assoc. reflexivity.
    + unfold advanced, voted. cbn [queue currentIndex set_skipVotes].
      pose proof (len_nil_iff (queue r)) as Hnil. unfold len in *.
      destruct (Z.of_nat (length (queue r)) =? 0)%Z eqn:H1;
        [|destruct (currentIndex r <? Z.of_nat (length (queue r)) - 1)%Z eqn:H2];
        cbn; repeat split; intros; try reflexivity; try lia.
  - apply ceil_half_values.
Qed.

Lemma skip_vote_witness :
  exists w' r',
    skip (demo_env 9000) "u1" (start demo) = Returned tt w' /\
    mgr w' = set_rooms (<["r1" := r']> (rooms demo)) demo /\
    currentIndex r' = 2%Z /\ startedAt r' = Number_of_Z 9000.
Proof.
  destruct (skip_vote (demo_env 9000) "u1" (start demo)
              {| conn_ws := 1%nat; conn_roomId := "r1" |} demo_room)
    as (_ & _ & _ & H & _).
  - intros ws. reflexivity.
  - reflexivity.
  - reflexivity.
  - reflexivity.
  - vm_compute. discriminate.
  - destruct H as (w' & r' & t & H1 & H2 & _ & _ & _ & _ & _ & H3 & _).
    + discriminate.
    + vm_compute. discriminate.
    + exists w', r'. split; [exact H1|]. split; [exact H2|].
      destruct H3 as (H3 & _ & H4 & _); [vm_compute; reflexivity|].
      split; [exact H3 | exact H4].
Defined.

(** *** [play] and [pause] *)

(** C6. [play] while playing and [pause] while paused leave the whole
    state as it is and send nothing. *)
Theorem play_pause_idle env u w c r :
  connections (mgr w) !! u = Some c ->
  rooms (mgr w) !! conn_roomId c = Some r ->
  (playbackState r = playing -> play env u w = Returned tt w) /\
  (playbackState r = paused -> pause env u w = Returned tt w).
Proof.
  intros Hc Hr. split; intros Hps.
  - unfold play, _roomForUser, bind, gets, ret. rewrite Hc, Hr. cbn [option_map].
    rewrite Hps. rewrite orb_true_r. reflexivity.
  - unfold pause, _roomForUser, bind, gets, ret. rewrite Hc, Hr. cbn [option_map].
    rewrite Hps. reflexivity.
Qed.

Lemma play_pause_idle_witness :
  play (demo_env 9000) "u1" (start demo) = Returned tt (start demo).
Proof.
  apply (play_pause_idle (demo_env 9000) "u1" (start demo)
           {| conn_ws := 1%nat; conn_roomId := "r1" |} demo_room);
    reflexivity.
Defined.






(** *** [createRoom] *)

Lemma createRoom_cases env name w :
  (exists roomName,
     createRoom env name w =
     Returned (nanoid env, roomName)
       {| mgr := set_rooms (<[nanoid env :=
            {| room_id := nanoid env; room_name := roomName;
               createdAt := clock env (ticks w);
               hostId := None; queue := []; currentIndex := -1;
               playbackState := paused; startedAt := 0; elapsed := 0;
               users := []; skipVotes := ∅; crossfadeDuration := 3 |}]>
            (rooms (mgr w))) (mgr w);
          sent := sent w; ticks := S (ticks w) |}) \/
  (createRoom env name w = Thrown w /\ truthy name = true /\
   forall s, name <> JString s).
Proof.
  unfold createRoom.
  destruct (truthy name) eqn:Ht; [destruct name|];
    try (right; split; [reflexivity|split; [reflexivity|intros; discriminate]]);
    left; eexists; reflexivity.
Qed.

(** C10. A room that [createRoom] returns starts with
    [crossfadeDuration = 3], which lies in [0, 8] and is not [0], and is
    otherwise empty: no track, [currentIndex = -1], paused at [0], no
    host, no user, no vote; and [createRoom] does return one unless the
    name is a truthy value that is not a string. *)
Theorem createRoom_initial env name w :
  (forall id roomName w',
     createRoom env name w = Returned (id, roomName) w' ->
     exists r,
       rooms (mgr w') !! id = Some r /\
       crossfadeDuration r = 3%float /\
       (crossfadeDuration r =? 0)%float = false /\
       (0 <=? crossfadeDuration r)%float = true /\
       (crossfadeDuration r <=? 8)%float = true /\
       queue r = [] /\ currentIndex r = (-1)%Z /\ playbackState r = paused /\
       elapsed r = 0%float /\ hostId r = None /\ users r = [] /\ skipVotes r = ∅ /\
       room_id r = id /\ room_name r = roomName /\ sent w' = sent w) /\
  (truthy name = false \/ (exists s, name = JString s) ->
   exists roomName w',
     createRoom env name w = Returned (nanoid env, roomName) w').
Proof.
  destruct (createRoom_cases env name w) as [(rn & H) | (H & Ht & Hs)].
  - split.
    + intros id roomName w' Hrun. rewrite H in Hrun.
      injection Hrun as <- <- <-. eexists. cbn [mgr rooms set_rooms sent].
      split; [apply lookup_insert_eq|]. cbn.
      repeat split; try reflexivity; try discriminate.
    + intros _. eauto.
  - split.
    + intros id roomName w' Hrun. rewrite H in Hrun. discriminate.
    + intros [Hf | (s & ->)]; [congruence | exfalso; eapply Hs; reflexivity].
Qed.

Lemma createRoom_initial_witness :
  exists roomName r w',
    createRoom (demo_env 1000) (JString "  Friday night  ") (start constructor_)
      = Returned ("fresh", roomName) w' /\
    rooms (mgr w') !! "fresh" = Some r /\ crossfadeDuration r = 3%float.
Proof.
  destruct (createRoom_initial (demo_env 1000) (JString "  Friday night  ")
              (start constructor_)) as (HA & HB).
  destruct HB as (rn & w' & Hrun); [right; eexists; reflexivity|].
  destruct (HA _ _ _ Hrun) as (r & Hr & Hc & _).
  exists rn, r, w'. split; [exact Hrun|]. split; [exact Hr | exact Hc].
Defined.

(** *** [leaveRoom] *)

Lemma users_migrate_host u r : users (migrate_host u r) = users r.
Proof.
  unfold migrate_host. destruct (decide _); [destruct (_ <? _)%nat|]; reflexivity.
Qed.

Lemma leaveRoom_run env u w c r :
  connections (mgr w) !! u = Some c ->
  rooms (mgr w) !! conn_roomId c = Some r ->
  (forall ws,
     ws ∈ recipients (exit_room u (conn_roomId c) (unbind u c (mgr w)))
            (conn_roomId c) None ->
     fails env ws = false) ->
  leaveRoom env u w =
  Returned tt
    {| mgr := after_leave u c r (mgr w);
       sent := sent w ++
               fanout (exit_room u (conn_roomId c) (unbind u c (mgr w)))
                 (conn_roomId c) None (user_left u);
       ticks := ticks w |}.
Proof.
  intros Hc Hr Hok. unfold leaveRoom. cbn [leaveRoom_fuel].
  unfold leaveRoom_body.
  unfold bind at 1, gets at 1. rewrite Hc.
  unfold bind at 1, gets at 1. rewrite Hr.
  unfold bind at 1, modify at 1. unfold bind at 1, modify at 1.
  unfold bind at 1, update_room at 1, modify at 1.
  cbn [mgr sent ticks].
  change (set_rooms _ (set_wsToUser _ (set_connections _ (mgr w))))
    with (exit_room u (conn_roomId c) (unbind u c (mgr w))).
  set (m1 := exit_room u (conn_roomId c) (unbind u c (mgr w))) in *.
  unfold bind at 1.
  rewrite (broadcastToRoom_with_nofail env _ (conn_roomId c) (user_left u) None
             {| mgr := m1; sent := sent w; ticks := ticks w |} Hok).
  unfold bind, update_room, modify, gets, log. cbn [mgr sent ticks].
  assert (Hl : alter (migrate_host u) (conn_roomId c) (rooms m1) !! conn_roomId c
               = Some (departed u r)).
  { subst m1. cbn [rooms exit_room unbind set_rooms set_wsToUser set_connections].
    rewrite lookup_alter_eq, lookup_alter_eq, Hr. reflexivity. }
  cbn [rooms set_rooms]. rewrite Hl. unfold after_leave.
  destruct (JsMap.size (users (departed u r)) =? 0)%nat.
  - f_equal. f_equal. subst m1. unfold exit_room, unbind, set_rooms,
      set_wsToUser, set_connections. cbn. f_equal.
    apply map_eq. intros k. rewrite !lookup_delete, !lookup_alter.
    destruct (decide (conn_roomId c = k)); reflexivity.
  - f_equal. f_equal. subst m1. unfold exit_room, unbind, set_rooms,
      set_wsToUser, set_connections. cbn. f_equal.
    apply map_eq. intros k.
    destruct (decide (conn_roomId c = k)) as [<-|Hne].
    + rewrite lookup_alter_eq, lookup_alter_eq, lookup_insert_eq, Hr. reflexivity.
    + rewrite !lookup_alter_ne, lookup_insert_ne by exact Hne. reflexivity.
Qed.

Lemma audience_after_leave u c r m ws :
  rooms m !! conn_roomId c = Some r ->
  ws ∈ recipients (exit_room u (conn_roomId c) (unbind u c m)) (conn_roomId c) None
  <-> exists v c', v ∈ JsMap.keys (JsMap.delete u (users r)) /\
                   connections m !! v = Some c' /\ conn_ws c' = ws.
Proof.
  intros Hr. unfold recipients.
  cbn [rooms connections exit_room unbind set_rooms set_wsToUser set_connections].
  rewrite lookup_alter_eq, Hr. cbn [fmap option_fmap option_map users set_users
    set_skipVotes].
  rewrite list_elem_of_omap. split.
  - intros (v & Hv & Ht). exists v.
    pose proof (proj1 (JsMap_keys_delete _ _ _) Hv) as [_ Hne].
    rewrite lookup_delete_ne in Ht by congruence.
    destruct (connections m !! v) as [c'|]; [|discriminate].
    destruct (decide (None = Some (conn_ws c'))); [discriminate|].
    injection Ht as <-. eauto.
  - intros (v & c' & Hv & Hc' & <-). exists v. split; [exact Hv|].
    pose proof (proj1 (JsMap_keys_delete _ _ _) Hv) as [_ Hne].
    rewrite lookup_delete_ne by congruence. rewrite Hc'.
    destruct (decide (None = Some (conn_ws c'))); [discriminate | reflexivity].
Qed.

(** C4. When a user bound to a room leaves, by [leaveRoom] or by the
    close of the socket bound to the user, the user goes from both
    indices, from the room's users and from its votes; [user:left] goes to
    the sockets of the remaining users and to no other; if the user was
    the host and somebody remains, the first remaining user in insertion
    order becomes host; if nobody remains the room is deleted at once and
    nothing is sent. *)
Theorem leave_room env u w c r :
  connections (mgr w) !! u = Some c ->
  rooms (mgr w) !! conn_roomId c = Some r ->
  let rid := conn_roomId c in
  let remaining := JsMap.delete u (users r) in
  let audience := recipients (exit_room u rid (unbind u c (mgr w))) rid None in
  (forall ws, ws ∈ audience -> fails env ws = false) ->
  exists w',
    leaveRoom env u w = Returned tt w' /\
    (forall ws, wsToUser (mgr w) !! ws = Some u -> u <> "" ->
       close env ws w = Returned tt w') /\
    connections (mgr w') = delete u (connections (mgr w)) /\
    wsToUser (mgr w') = delete (conn_ws c) (wsToUser (mgr w)) /\
    sent w' = (sent w ++ map (fun ws => (ws, user_left u)) audience)%list /\
    (forall ws, (ws ∈ audience) <->
       (exists v c', v ∈ JsMap.keys remaining /\
                     connections (mgr w) !! v = Some c' /\ conn_ws c' = ws)) /\
    (u ∉ JsMap.keys remaining) /\
    (remaining <> [] ->
       exists r',
         rooms (mgr w') = <[rid := r']> (rooms (mgr w)) /\
         users r' = remaining /\
         skipVotes r' = skipVotes r ∖ {[u]} /\
         (hostId r = Some u ->
            hostId r' = JsMap.first_key remaining /\
            is_Some (JsMap.first_key remaining)) /\
         (hostId r <> Some u -> hostId r' = hostId r) /\
         queue r' = queue r /\ currentIndex r' = currentIndex r /\
         playbackState r' = playbackState r /\ startedAt r' = startedAt r /\
         elapsed r' = elapsed r /\ crossfadeDuration r' = crossfadeDuration r) /\
    (remaining = [] ->
       rooms (mgr w') = delete rid (rooms (mgr w)) /\ sent w' = sent w).
Proof.
  intros Hc Hr rid remaining audience Hok.
  pose proof (leaveRoom_run env u w c r Hc Hr Hok) as Hrun.
  eexists. split; [exact Hrun|].
  cbn [mgr sent ticks]. split; [|split; [|split; [|split; [|split; [|split; [|split]]]]]].
  - intros ws Hws Hne. unfold close, leaveByWs, bind, gets. rewrite Hws.
    destruct u; [congruence|]. exact Hrun.
  - unfold after_leave. destruct (_ =? _)%nat; reflexivity.
  - unfold after_leave. destruct (_ =? _)%nat; reflexivity.
  - reflexivity.
  - intros ws. apply audience_after_leave. exact Hr.
  - intros Hin. apply JsMap_keys_delete in Hin. tauto.
  - intros Hne. exists (departed u r).
    assert (Hu : users (departed u r) = remaining)
      by (unfold departed; rewrite users_migrate_host; reflexivity).
    assert (Hsz : (JsMap.size remaining =? 0)%nat = false).
    { apply Nat.eqb_neq. unfold JsMap.size. destruct remaining; [congruence|].
      cbn; lia. }
    split.
    { unfold after_leave. rewrite Hu, Hsz. reflexivity. }
    split; [exact Hu|].
    unfold departed, migrate_host.
    cbn [hostId users set_skipVotes set_users]. fold remaining. 
    assert (Hlt : (0 <? JsMap.size remaining)%nat = true).
    { apply Nat.eqb_neq in Hsz. apply Nat.ltb_lt. lia. }
    rewrite Hlt.
    destruct (decide (hostId r = Some u)) as [Hh|Hh]; cbn.
    + repeat split; try reflexivity; try congruence.
      unfold JsMap.first_key, JsMap.keys. destruct remaining as [|[k v] l];
        [congruence | cbn; eauto].
    + repeat split; try reflexivity; try congruence.
  - intros He. split.
    + unfold after_leave, departed. rewrite users_migrate_host.
      cbn [users set_skipVotes set_users]. fold remaining. rewrite He.
      reflexivity.
    + assert (Ha : audience = []).
      { destruct audience as [|ws l] eqn:Ea; [reflexivity|].
        assert (Hin : ws ∈ audience) by (rewrite Ea; left).
        apply (audience_after_leave u c r (mgr w) ws Hr) in Hin.
        destruct Hin as (v & c' & Hv & _). fold remaining in Hv.
        rewrite He in Hv. inversion Hv. }
      unfold fanout. fold rid. fold audience. rewrite Ha. cbn.
      apply app_nil_r.
Qed.

Lemma leave_room_witness :
  exists w' r',
    leaveRoom (demo_env 9000) "u1" (start demo) = Returned tt w' /\
    rooms (mgr w') = <["r1" := r']> (rooms demo) /\
    hostId r' = Some "u2" /\
    sent w' = [(2%nat, user_left "u1")].
Proof.
  destruct (leave_room (demo_env 9000) "u1" (start demo)
              {| conn_ws := 1%nat; conn_roomId := "r1" |} demo_room)
    as (w' & H1 & _ & _ & _ & H2 & _ & _ & H3 & _).
  - reflexivity.
  - reflexivity.
  - intros ws _. reflexivity.
  - destruct H3 as (r' & H4 & _ & _ & H5 & _); [discriminate|].
    exists w', r'. split; [exact H1|]. split; [exact H4|].
    destruct H5 as [H5 _]; [reflexivity|].
    split; [exact H5 | exact H2].
Defined.

(** *** [chat] *)

Lemma chat_run nts env u text w c r usr :
  (forall ws, fails env ws = false) ->
  connections (mgr w) !! u = Some c ->
  rooms (mgr w) !! conn_roomId c = Some r ->
  JsMap.get u (users r) = Some usr ->
  chat nts env u text w =
  if JsString.is_empty (sanitize nts text) then Returned tt w
  else Returned tt
         {| mgr := mgr w;
            sent := sent w ++
                    fanout (mgr w) (conn_roomId c) None
                      (chat_message u (user_name usr) (sanitize nts text)
                         (clock env (ticks w)));
            ticks := S (ticks w) |}.
Proof.
  intros Hok Hc Hr Hu. unfold chat, bind, gets, ret. rewrite Hc, Hr, Hu.
  unfold JsString.truthy. rewrite negb_involutive.
  destruct (JsString.is_empty (sanitize nts text)); [reflexivity|].
  unfold Date_now. rewrite (broadcastToRoom_ok env Hok). reflexivity.
Qed.

Lemma recipients_all_connected m roomId r :
  rooms m !! roomId = Some r ->
  (forall v, v ∈ JsMap.keys (users r) -> is_Some (connections m !! v)) ->
  Forall2 (fun v ws => exists c', connections m !! v = Some c' /\ conn_ws c' = ws)
    (JsMap.keys (users r)) (recipients m roomId None).
Proof.
  intros Hr. unfold recipients. rewrite Hr.
  induction (JsMap.keys (users r)) as [|v l IH]; intros Hall; cbn.
  - constructor.
  - destruct (Hall v) as [c' Hc']; [left|]. rewrite Hc'.
    destruct (decide (None = Some (conn_ws c'))); [discriminate|].
    constructor; [eauto|]. apply IH. intros v' Hv'. apply Hall. now right.
Qed.

Lemma recipients_member m roomId r v c' :
  rooms m !! roomId = Some r ->
  v ∈ JsMap.keys (users r) -> connections m !! v = Some c' ->
  conn_ws c' ∈ recipients m roomId None.
Proof.
  intros Hr Hv Hc'. unfold recipients. rewrite Hr.
  apply list_elem_of_omap. exists v. split; [exact Hv|]. rewrite Hc'.
  destruct (decide (None = Some (conn_ws c'))); [discriminate | reflexivity].
Qed.

(** C8, the counterexample.  The specification has a text that is not a string
    become the empty string, so that its frame would be dropped.  The
    JSON value [true], which is not a string, sent by ann as the text of a
    [chat:message], is broadcast to both users as the text "true". *)
Lemma chat_non_string_counterexample :
  let out := chat (fun _ => "") (demo_env 9000) "u1" (JBool true) (start demo) in
  (forall s, JBool true <> JString s) /\
  sanitize (fun _ => "") (JBool true) = "true" /\
  out = Returned tt
          {| mgr := demo;
             sent := [(1%nat, chat_message "u1" "ann" "true" 9000);
                      (2%nat, chat_message "u1" "ann" "true" 9000)];
             ticks := 1 |} /\
  out <> Returned tt (start demo).
Proof.
  cbv zeta.
  assert (Hrun : chat (fun _ => "") (demo_env 9000) "u1" (JBool true) (start demo)
                 = Returned tt
                     {| mgr := demo;
                        sent := [(1%nat, chat_message "u1" "ann" "true" 9000);
                                 (2%nat, chat_message "u1" "ann" "true" 9000)];
                        ticks := 1 |}) by (vm_compute; reflexivity).
  split; [intros s; discriminate|]. split; [reflexivity|].
  split; [exact Hrun|]. rewrite Hrun. discriminate.
Qed.

(** C8, amended.  A falsy text (absent, [null], [false], [0], the empty
    string) becomes the empty string and any other text its JavaScript
    string rendering [String(text)], a string being taken as it is; the
    result is trimmed and cut to 500 characters.  If that is empty
    nothing is sent and nothing changes; otherwise one [chat:message]
    frame with the sender's id and name, that text and the clock reading
    goes to the socket of every user of the room, the sender included,
    and the manager is unchanged. *)
Theorem chat_broadcast nts env u text w c r usr :
  (forall ws, fails env ws = false) ->
  connections (mgr w) !! u = Some c ->
  rooms (mgr w) !! conn_roomId c = Some r ->
  JsMap.get u (users r) = Some usr ->
  let raw := if truthy text then String_ nts text else "" in
  let s := JsString.slice0 500 (JsString.trim raw) in
  let now := clock env (ticks w) in
  let audience := recipients (mgr w) (conn_roomId c) None in
  sanitize nts text = s /\
  (String.length s <= 500)%nat /\
  (forall str, text = JString str -> raw = str) /\
  (s = "" -> chat nts env u text w = Returned tt w) /\
  (s <> "" ->
     exists w',
       chat nts env u text w = Returned tt w' /\
       mgr w' = mgr w /\
       sent w' = (sent w ++
                  map (fun ws => (ws, chat_message u (user_name usr) s now))
                      audience)%list /\
       conn_ws c ∈ audience /\
       ((forall v, v ∈ JsMap.keys (users r) -> is_Some (connections (mgr w) !! v)) ->
        Forall2 (fun v ws => exists c', connections (mgr w) !! v = Some c' /\
                                        conn_ws c' = ws)
          (JsMap.keys (users r)) audience)).
Proof.
  intros Hok Hc Hr Hu raw s now audience.
  assert (Hs : sanitize nts text = s).
  { unfold sanitize, s, raw, or_else. destruct (truthy text); reflexivity. }
  split; [exact Hs|]. split; [apply slice0_length|].
  split.
  { intros str ->. unfold raw. cbn. destruct str; reflexivity. }
  rewrite (chat_run nts env u text w c r usr Hok Hc Hr Hu), Hs.
  split.
  - intros ->. reflexivity.
  - intros Hne. destruct s as [|a s'] eqn:Es; [congruence|]. cbn [JsString.is_empty].
    eexists. split; [reflexivity|]. cbn [mgr sent]. split; [reflexivity|].
    split; [reflexivity|]. split.
    + eapply recipients_member; [exact Hr| |exact Hc].
      apply JsMap_get_keys. rewrite Hu. eauto.
    + apply recipients_all_connected. exact Hr.
Qed.

Lemma chat_broadcast_witness :
  exists w',
    chat (fun _ => "") (demo_env 9000) "u2" (JString "  hello  ") (start demo)
      = Returned tt w' /\
    sent w' = [(1%nat, chat_message "u2" "bob" "hello" 9000);
               (2%nat, chat_message "u2" "bob" "hello" 9000)].
Proof.
  destruct (chat_broadcast (fun _ => "") (demo_env 9000) "u2"
              (JString "  hello  ") (start demo)
              {| conn_ws := 2%nat; conn_roomId := "r1" |} demo_room
              (demo_user "u2" "bob" "#FF9800"))
    as (_ & _ & _ & _ & H).
  - intros ws. reflexivity.
  - reflexivity.
  - reflexivity.
  - reflexivity.
  - destruct H as (w' & H1 & _ & H2 & _); [discriminate|].
    exists w'. split; [exact H1 | exact H2].
Defined.

(** *** [joinRoom] *)

Lemma joinRoom_mgr env roomId userName ws w r s :
  (forall ws', fails env ws' = false) ->
  rooms (mgr w) !! roomId = Some r ->
  or_else userName (JString "Anonymous") = JString s ->
  exists w',
    joinRoom env (JString roomId) userName ws w = Returned tt w' /\
    mgr w' = joined ws roomId (nanoid env)
               (seat_user (nanoid env) (new_user env s r) r) (mgr w).
Proof.
  intros Hok Hr Hs. apply wp_returns_tt.
  unfold joinRoom. wp_simp. cbn [as_key mbind option_bind]. rewrite Hr, Hs.
  rewrite wp_put_room_bind. wp_simp. unfold serializeRoom, position.
  destruct (playbackState _); wp_ok Hok; reflexivity.
Qed.

Lemma joinRoom_stored env roomId userName ws w r s :
  (forall ws', fails env ws' = false) ->
  rooms (mgr w) !! roomId = Some r ->
  or_else userName (JString "Anonymous") = JString s ->
  exists w' r',
    joinRoom env (JString roomId) userName ws w = Returned tt w' /\
    rooms (mgr w') !! roomId = Some r' /\
    JsMap.get (nanoid env) (users r') = Some (new_user env s r).
Proof.
  intros Hok Hr Hs.
  destruct (joinRoom_mgr env roomId userName ws w r s Hok Hr Hs) as (w' & H1 & H2).
  exists w', (seat_user (nanoid env) (new_user env s r) r).
  split; [exact H1|]. rewrite H2. unfold joined. cbn [rooms set_rooms
    set_wsToUser set_connections].
  rewrite lookup_alter_eq, Hr. split; [reflexivity|].
  unfold seat_user. destruct (_ =? _)%nat; cbn [users set_users set_hostId];
    apply JsMap_get_set_eq.
Qed.

(** C7, the failing input.  A user joining the demo room under a name of
    three spaces is stored with the empty name, not with "Anonymous":
    the default is applied before the name is trimmed. *)
Theorem join_blank_name_stored_empty :
  exists w' r' usr,
    joinRoom (demo_env 9000) (JString "r1") (JString "   ") 3 (start demo)
      = Returned tt w' /\
    rooms (mgr w') !! "r1" = Some r' /\
    JsMap.get "fresh" (users r') = Some usr /\
    user_name usr = "" /\
    user_name usr <> "Anonymous" /\
    JsString.trim "   " = "".
Proof.
  destruct (joinRoom_stored (demo_env 9000) "r1" (JString "   ") 3 (start demo)
              demo_room "   ") as (w' & r' & H1 & H2 & H3).
  - intros ws. reflexivity.
  - reflexivity.
  - reflexivity.
  - exists w', r', (new_user (demo_env 9000) "   " demo_room).
    split; [exact H1|]. split; [exact H2|]. split; [exact H3|].
    split; [reflexivity|]. split; [discriminate | reflexivity].
Qed.

(** X22. What [joinRoom] does store: the name, or "Anonymous" for a falsy
    name, trimmed and cut to 24 characters; so "Anonymous" for an absent
    or empty name, and the empty string for a name of white space only. *)
Lemma joinRoom_name env roomId userName ws w r :
  (forall ws', fails env ws' = false) ->
  rooms (mgr w) !! roomId = Some r ->
  truthy userName = false \/ (exists s, userName = JString s) ->
  exists w' r' usr,
    joinRoom env (JString roomId) userName ws w = Returned tt w' /\
    rooms (mgr w') !! roomId = Some r' /\
    JsMap.get (nanoid env) (users r') = Some usr /\
    (String.length (user_name usr) <= 24)%nat /\
    (truthy userName = false -> user_name usr = "Anonymous") /\
    (forall s, userName = JString s -> s <> "" ->
       user_name usr = JsString.slice0 24 (JsString.trim s)) /\
    (forall s, userName = JString s -> s <> "" ->
       JsString.all_space s = true -> user_name usr = "").
Proof.
  intros Hok Hr Hname.
  assert (Hs : exists s, or_else userName (JString "Anonymous") = JString s /\
             (truthy userName = false -> s = "Anonymous") /\
             (forall s', userName = JString s' -> s' <> "" -> s = s')).
  { unfold or_else. destruct Hname as [Hf | (s & ->)].
    - rewrite Hf. exists "Anonymous". repeat split; auto.
      intros s' -> Hne. destruct s'; [congruence | discriminate].
    - destruct s as [|a s].
      + exists "Anonymous". cbn. repeat split; auto. intros s' [= <-]. congruence.
      + exists (String a s). cbn. repeat split; auto; [discriminate|].
        intros s' [= <-] _. reflexivity. }
  destruct Hs as (s & Hs & Hfalsy & Hstr).
  destruct (joinRoom_stored env roomId userName ws w r s Hok Hr Hs)
    as (w' & r' & H1 & H2 & H3).
  exists w', r', (new_user env s r).
  split; [exact H1|]. split; [exact H2|]. split; [exact H3|].
  cbn [user_name new_user]. split; [apply slice0_length|].
  split; [|split].
  - intros Hf. rewrite (Hfalsy Hf). reflexivity.
  - intros s' Hs' Hne. rewrite (Hstr s' Hs' Hne). reflexivity.
  - intros s' Hs' Hne Hsp. rewrite (Hstr s' Hs' Hne).
    rewrite trim_all_space by exact Hsp. reflexivity.
Qed.

(** ** A user whose socket was rebound *)

Section Stranded.
Variable Number_toString : float -> string.
Variable String_toNumber : string -> float.
Variable extractYouTubeId : JsValue -> option string.
Variable u1 : string.
Variable c1 : Conn.




End Stranded.



(** ** Consistency of the indices

    What the theorems above assume of the manager holds after every run
    from the empty manager in which [joinRoom] never draws the identifier
    of a connected user: a room is stored under its own id, every user of
    a room has a connection to that room, and a socket is bound to a user
    whose connection is that socket. *)

Section Consistency.
Variable Number_toString : float -> string.
Variable String_toNumber : string -> float.
Variable extractYouTubeId : JsValue -> option string.

Lemma consistent_unbind m v c :
  consistent m -> connections m !! v = Some c ->
  (forall roomId r, rooms m !! roomId = Some r -> v ∈ JsMap.keys (users r) ->
     False) ->
  consistent (unbind v c m).
Proof.
  intros (H1 & H2 & H3) Hc Hout. split; [exact H1|]. split.
  - intros roomId r u Hr Hu. destruct (H2 _ _ _ Hr Hu) as (cu & Hcu & Hid).
    exists cu. split; [|exact Hid]. cbn.
    rewrite lookup_delete_ne; [exact Hcu|].
    intros <-. exact (Hout _ _ Hr Hu).
  - intros ws u. cbn. intros H. apply lookup_delete_Some in H.
    destruct H as [Hne H]. destruct (H3 _ _ H) as (cu & Hcu & Hw).
    exists cu. split; [|exact Hw]. rewrite lookup_delete_ne; [exact Hcu|].
    intros <-. rewrite Hc in Hcu. injection Hcu as <-. congruence.
Qed.

Lemma consistent_handle env ev :
  keeps_fresh consistent unused env
    (handle Number_toString String_toNumber env extractYouTubeId ev).
Proof.
  apply (keeps_handle Number_toString String_toNumber extractYouTubeId
           consistent (fun _ => True) unused).
  - trivial.
  - intros m v c HP _ Hc Hr. apply consistent_unbind; [exact HP | exact Hc|].
    intros roomId r Hr' Hv. destruct HP as (_ & H2 & _).
    destruct (H2 _ _ _ Hr' Hv) as (c' & Hc' & Hid).
    rewrite Hc in Hc'. injection Hc' as <-. congruence.
  - intros m v c r (H1 & H2 & H3) _ Hc Hr. split; [|split].
    + intros roomId r'. cbn. rewrite lookup_alter_Some.
      intros [[<- (r0 & Hr0 & ->)] | [_ Hr0]]; [|eauto].
      cbn. eauto.
    + intros roomId r' u. cbn. rewrite lookup_alter_Some.
      intros [[<- (r0 & Hr0 & ->)] | [Hne Hr0]] Hu.
      * cbn in Hu. apply JsMap_keys_delete in Hu. destruct Hu as [Hu Hneq].
        destruct (H2 _ _ _ Hr0 Hu) as (cu & Hcu & Hid).
        exists cu. split; [|exact Hid]. rewrite lookup_delete_ne; congruence.
      * destruct (H2 _ _ _ Hr0 Hu) as (cu & Hcu & Hid).
        exists cu. split; [|exact Hid]. rewrite lookup_delete_ne; [exact Hcu|].
        intros <-. rewrite Hc in Hcu. injection Hcu as <-. congruence.
    + intros ws u. cbn. intros H. apply lookup_delete_Some in H.
      destruct H as [Hne H]. destruct (H3 _ _ H) as (cu & Hcu & Hw).
      exists cu. split; [|exact Hw]. rewrite lookup_delete_ne; [exact Hcu|].
      intros <-. rewrite Hc in Hcu. injection Hcu as <-. congruence.
  - intros m v roomId (H1 & H2 & H3). split; [|split; [|exact H3]].
    + intros k r'. cbn. rewrite lookup_alter_Some.
      intros [[<- (r0 & Hr0 & ->)] | [_ Hr0]]; [|eauto].
      unfold migrate_host. destruct (decide _); [destruct (_ <? _)%nat|];
        cbn; eauto.
    + intros k r' u. cbn. rewrite lookup_alter_Some.
      intros [[<- (r0 & Hr0 & ->)] | [_ Hr0]] Hu; [|eauto].
      rewrite users_migrate_host in Hu. eauto.
  - intros m roomId r (H1 & H2 & H3) _ _. split; [|split; [|exact H3]].
    + intros k r'. cbn. rewrite lookup_delete_Some. intros [_ H]. eauto.
    + intros k r' u. cbn. rewrite lookup_delete_Some. intros [_ H]. eauto.
  - intros m roomId r r' (H1 & H2 & H3) Hr (Hu & Hid & _).
    split; [|split; [|exact H3]].
    + intros k r0. cbn. rewrite lookup_alter_Some.
      intros [[<- (r1 & Hr1 & ->)] | [_ Hr0]]; [|eauto].
      rewrite Hid. eauto.
    + intros k r0 u. cbn. rewrite lookup_alter_Some.
      intros [[<- (r1 & Hr1 & ->)] | [_ Hr0]] Hu0; [|eauto].
      rewrite Hu in Hu0. eauto.
  - intros m roomId r ws u user (H1 & H2 & H3) Hfresh Hr.
    unfold unused in Hfresh. unfold joined. split; [|split].
    + intros k r0. cbn. rewrite lookup_alter_Some.
      intros [[<- (r1 & Hr1 & ->)] | [_ Hr0]]; [|eauto].
      unfold seat_user. destruct (_ =? _)%nat; cbn; eauto.
    + intros k r0 v. cbn. rewrite lookup_alter_Some.
      intros [[<- (r1 & Hr1 & ->)] | [_ Hr0]] Hv.
      * assert (Hv' : v = u \/ v ∈ JsMap.keys (users r)).
        { unfold seat_user in Hv.
          destruct (_ =? _)%nat; cbn [users set_users set_hostId] in Hv;
            apply JsMap_keys_set in Hv; exact Hv. }
        destruct Hv' as [-> | Hv'].
        -- eexists. rewrite lookup_insert_eq. split; reflexivity.
        -- destruct (H2 _ _ _ Hr Hv') as (cv & Hcv & Hid).
           exists cv. split; [|exact Hid].
           rewrite lookup_insert_ne; [exact Hcv | congruence].
      * destruct (H2 _ _ _ Hr0 Hv) as (cv & Hcv & Hid).
        exists cv. split; [|exact Hid].
        rewrite lookup_insert_ne; [exact Hcv | congruence].
    + intros ws' v. cbn. rewrite lookup_insert_Some.
      intros [[<- <-] | [Hne H]].
      * eexists. rewrite lookup_insert_eq. split; reflexivity.
      * destruct (H3 _ _ H) as (cv & Hcv & Hw).
        exists cv. split; [|exact Hw].
        rewrite lookup_insert_ne; [exact Hcv | congruence].
  - intros m id r (H1 & H2 & H3) _ _ Hu Hid. split; [|split; [|exact H3]].
    + intros k r0. cbn. rewrite lookup_insert_Some.
      intros [[<- <-] | [_ H]]; eauto.
    + intros k r0 v. cbn. rewrite lookup_insert_Some.
      intros [[<- <-] | [_ H]] Hv; [|eauto].
      rewrite Hu in Hv. inversion Hv.
Qed.

(** X6. After every event of every run from the empty manager in which
    [joinRoom] never draws the identifier of a connected user, whatever
    sockets fail, the three indices agree: a room is stored under its own
    id, every user of a room has a connection entry that names that
    room, and a socket is bound to a user whose connection entry names
    that socket. *)
Theorem consistent_after_every_event (evs : list (Env * Inbound)) :
  fresh_along Number_toString String_toNumber extractYouTubeId unused
    evs constructor_ ->
  exists m,
    run_events Number_toString String_toNumber extractYouTubeId evs constructor_
      = Some m /\ consistent m.
Proof.
  intros Hf. apply (run_keeps _ _ _ consistent unused consistent_handle); auto.
  split; [|split]; cbn; intros *; rewrite lookup_empty; discriminate.
Qed.

(** X8. Every inbound event is handled to its end, whatever the manager it
    finds and whatever sockets fail: [leaveRoom] calls [broadcastToRoom],
    which calls [sendTo], which on a failing socket calls [leaveRoom]
    again, and this recursion ends because every nested call comes after
    the deletion of a connection entry. *)
Theorem handle_ends env ev w :
  exists w',
    final (handle Number_toString String_toNumber env extractYouTubeId ev w)
    = Some w'.
Proof.
  pose proof (keeps_handle Number_toString String_toNumber extractYouTubeId
                (fun _ => True) (fun _ => True) (fun _ _ => True)) as H.
  specialize (H ltac:(trivial) ltac:(trivial) ltac:(trivial) ltac:(trivial)
                ltac:(trivial) ltac:(trivial) ltac:(trivial) ltac:(trivial)
                env ev w I I).
  unfold wp in H. destruct (handle _ _ _ _ _ _); cbn; eauto. contradiction.
Qed.

End Consistency.

(** ** The amount of fuel does not matter *)

Lemma refines_refl {A} (c : M A) : refines c c.
Proof. intros w a w' H. exact H. Qed.

Lemma refines_bind {A B} (c c' : M A) (k k' : A -> M B) :
  refines c c' -> (forall a, refines (k a) (k' a)) ->
  refines (bind c k) (bind c' k').
Proof.
  intros Hc Hk w b w2. unfold bind.
  destruct (c w) as [a w1|w1|] eqn:E; try discriminate.
  rewrite (Hc _ _ _ E). apply Hk.
Qed.

Lemma for_each_refines {A} (l : list A) (body body' : A -> M unit) :
  (forall x, refines (body x) (body' x)) ->
  refines (for_each l body) (for_each l body').
Proof.
  intros Hb. induction l as [|x l IH]; cbn [for_each].
  - apply refines_refl.
  - apply refines_bind; [apply Hb | intros _; exact IH].
Qed.

Section Fuel.
Variable env : Env.

Lemma sendTo_with_refines leave leave' ws payload :
  (forall v, refines (leave v) (leave' v)) ->
  refines (sendTo_with env leave ws payload) (sendTo_with env leave' ws payload).
Proof.
  intros Hl. unfold sendTo_with. destruct (fails env ws); [|apply refines_refl].
  apply refines_bind; [apply refines_refl|]. intros [v|]; [|apply refines_refl].
  destruct (JsString.truthy v); [apply Hl | apply refines_refl].
Qed.

Lemma broadcastToRoom_with_refines leave leave' roomId payload ex :
  (forall v, refines (leave v) (leave' v)) ->
  refines (broadcastToRoom_with env leave roomId payload ex)
          (broadcastToRoom_with env leave' roomId payload ex).
Proof.
  intros Hl. unfold broadcastToRoom_with.
  apply refines_bind; [apply refines_refl|]. intros [room|]; [|apply refines_refl].
  apply for_each_refines. intros u.
  apply refines_bind; [apply refines_refl|]. intros [|]; [|apply refines_refl].
  apply refines_bind; [apply refines_refl|]. intros [c|]; [|apply refines_refl].
  destruct (decide _); [apply refines_refl|].
  apply sendTo_with_refines. exact Hl.
Qed.

Lemma leaveRoom_body_refines leave leave' v :
  (forall v', refines (leave v') (leave' v')) ->
  refines (leaveRoom_body env leave v) (leaveRoom_body env leave' v).
Proof.
  intros Hl. unfold leaveRoom_body.
  apply refines_bind; [apply refines_refl|]. intros [c|]; [|apply refines_refl].
  apply refines_bind; [apply refines_refl|]. intros room.
  apply refines_bind; [apply refines_refl|]. intros _.
  apply refines_bind; [apply refines_refl|]. intros _.
  destruct room; [|apply refines_refl].
  apply refines_bind; [apply refines_refl|]. intros _.
  apply refines_bind; [|intros _; apply refines_refl].
  apply broadcastToRoom_with_refines. exact Hl.
Qed.

Lemma leaveRoom_fuel_S n : forall v,
  refines (leaveRoom_fuel env n v) (leaveRoom_fuel env (S n) v).
Proof.
  induction n as [|n IH]; intros v.
  - intros w a w' H. discriminate.
  - change (refines (leaveRoom_body env (leaveRoom_fuel env n) v)
                    (leaveRoom_body env (leaveRoom_fuel env (S n)) v)).
    apply leaveRoom_body_refines. exact IH.
Qed.

Lemma leaveRoom_fuel_le n n' v :
  (n <= n')%nat -> refines (leaveRoom_fuel env n v) (leaveRoom_fuel env n' v).
Proof.
  induction 1 as [|n' _ IH]; [apply refines_refl|].
  intros w a w' H. apply leaveRoom_fuel_S. apply IH. exact H.
Qed.

(** [leaveRoom] is [leaveRoom_fuel] at any sufficient amount of fuel. *)
Theorem leaveRoom_fuel_enough n v w :
  (size (connections (mgr w)) < n)%nat ->
  leaveRoom_fuel env n v w = leaveRoom env v w.
Proof.
  intros Hn. unfold leaveRoom.
  pose proof (leaveRoom_fuel_wp env (fun _ => True) (fun _ => True)
                (fun _ => False)
                ltac:(trivial) ltac:(trivial) ltac:(trivial) ltac:(trivial)
                ltac:(trivial)
                (S (size (connections (mgr w)))) (size (connections (mgr w)))
                v w ltac:(lia) (conj I (le_n _)) I) as H.
  unfold wp in H.
  destruct (leaveRoom_fuel env (S (size (connections (mgr w)))) v w)
    as [a w'|w'|] eqn:E; try contradiction.
  apply (leaveRoom_fuel_le _ n) in E; [exact E | lia].
Qed.

End Fuel.

(** ** [removeTrack] when sockets fail

    A failing [send] during the two broadcasts evicts users, which can
    take votes away and even delete the room; it never touches the queue
    or the playback fields that [removeTrack] has set. *)

Lemma room_is_alter roomId r f k m :
  (forall r0, same_playback r r0 -> same_playback r (f r0)) ->
  room_is roomId r m -> room_is roomId r (set_rooms (alter f k (rooms m)) m).
Proof.
  intros Hf HP r'. cbn. rewrite lookup_alter_Some.
  intros [[-> (r0 & Hr0 & ->)] | [_ Hr0]]; eauto.
Qed.

Lemma room_is_tail env roomId r payload w :
  room_is roomId r (mgr w) ->
  wp (broadcastToRoom env roomId payload None ;;
      broadcastPlaybackSync env roomId)
     (fun _ w' => room_is roomId r (mgr w')) (fun _ => False) w.
Proof.
  intros H0.
  assert (Hun : forall m v c0, room_is roomId r m -> True ->
            connections m !! v = Some c0 -> rooms m !! conn_roomId c0 = None ->
            room_is roomId r (unbind v c0 m)).
  { intros m v c0 HP _ _ _. exact HP. }
  assert (Hex : forall m v c0 r0, room_is roomId r m -> True ->
            connections m !! v = Some c0 -> rooms m !! conn_roomId c0 = Some r0 ->
            room_is roomId r (exit_room v (conn_roomId c0) (unbind v c0 m))).
  { intros m v c0 r0 HP _ _ _. unfold exit_room.
    apply room_is_alter; [|exact HP].
    intros r1 (H1 & H2 & H3 & H4 & H5 & H6).
    split; [exact H1|]. split; [exact H2|]. split; [exact H3|].
    split; [exact H4|]. split; [exact H5|]. cbn.
    intros x Hx. apply H6. apply elem_of_difference in Hx. tauto. }
  assert (Hmi : forall m v k, room_is roomId r m ->
            room_is roomId r (set_rooms (alter (migrate_host v) k (rooms m)) m)).
  { intros m v k HP. apply room_is_alter; [|exact HP].
    intros r1 H. unfold migrate_host.
    destruct (decide _); [destruct (_ <? _)%nat|]; exact H. }
  assert (Hpr : forall m k r0, room_is roomId r m -> rooms m !! k = Some r0 ->
            JsMap.size (users r0) = O ->
            room_is roomId r (set_rooms (delete k (rooms m)) m)).
  { intros m k r0 HP _ _ r'. cbn. rewrite lookup_delete_Some.
    intros [_ H]. eauto. }
  eapply wp_seq.
  - apply (broadcastToRoom_wp env (room_is roomId r) (fun _ => True)
             (fun _ => False)); auto.
  - intros a w' H'.
    apply (broadcastPlaybackSync_wp env (room_is roomId r) (fun _ => True)
             (fun _ => False)); auto.
Qed.

Lemma room_is_put roomId r m :
  room_is roomId r (set_rooms (alter (fun _ => r) roomId (rooms m)) m).
Proof.
  intros r'. cbn. rewrite lookup_alter_Some.
  intros [[_ (r1 & _ & ->)] | [Hne _]]; [|congruence].
  repeat split; reflexivity.
Qed.

Lemma removeTrack_room_is env u tid w c r i t :
  connections (mgr w) !! u = Some c ->
  rooms (mgr w) !! conn_roomId c = Some r ->
  findIndex tid (queue r) = Some i ->
  queue r !! i = Some t ->
  hostId r = Some u \/ addedBy t = u ->
  exists w',
    removeTrack env u (JString tid) w = Returned tt w' /\
    room_is (conn_roomId c) (removed (clock env (ticks w)) i r) (mgr w').
Proof.
  intros Hc Hr Hi Ht Hperm. apply wp_returns_tt.
  unfold removeTrack. wp_simp.
  rewrite Hc. wp_simp. rewrite Hr. wp_simp.
  cbn [as_key mbind option_bind]. rewrite Hi, Ht.
  assert (Hp : negb (bool_decide (hostId r = Some u))
               && negb (bool_decide (addedBy t = u)) = false).
  { destruct Hperm as [H|H].
    - rewrite (bool_decide_eq_true_2 _ H). reflexivity.
    - rewrite (bool_decide_eq_true_2 _ H). apply andb_false_r. }
  rewrite Hp. unfold removed. cbn [currentIndex queue set_queue].
  destruct (Z.of_nat i <? currentIndex r)%Z; wp_simp;
    [|destruct (Z.of_nat i =? currentIndex r)%Z; wp_simp;
      [destruct (len (splice1 i (queue r)) =? 0)%Z; wp_simp;
        [|destruct (currentIndex r >=? len (splice1 i (queue r)))%Z; wp_simp]|]];
    rewrite wp_put_room_bind; apply room_is_tail; cbn [mgr with_mgr];
    apply room_is_put.
Qed.

(** * Properties of every event, and of the handlers the dispatcher and
      the routes call

    ** The writes of the handlers

    Every handler writes to the manager in one of a few ways: by an
    eviction ([leaveRoom], which a failing socket starts), by one of the
    updates of [update] to a room, by a vote, by a join, by a creation.
    A property of the manager that each of these keeps is kept by every
    inbound event.  Unlike [keeps_handle], which lets an update be any
    write that keeps I1, this asks for the writes the handlers do make,
    and for [leaveRoom] as a whole rather than for each of its steps. *)

Section Handlers.
Variable Number_toString : float -> string.
Variable String_toNumber : string -> float.
Variable extractYouTubeId : JsValue -> option string.
Variable P : RoomManager -> Prop.
Variable F : RoomManager -> string -> Prop.
Variable T : Track -> Prop.

Hypothesis P_leave : forall env v, keeps P (leaveRoom env v).
Hypothesis P_update : forall m k r r',
  P m -> rooms m !! k = Some r -> update T r r' ->
  P (set_rooms (alter (fun _ => r') k (rooms m)) m).
Hypothesis P_vote : forall m u c r,
  P m -> connections m !! u = Some c -> rooms m !! conn_roomId c = Some r ->
  P (set_rooms (alter (fun _ => voted u r) (conn_roomId c) (rooms m)) m).
Hypothesis P_join : forall m roomId r ws u user,
  P m -> F m u -> rooms m !! roomId = Some r ->
  P (joined ws roomId u (seat_user u user r) m).
Hypothesis P_create : forall m id name now,
  P m -> F m id -> P (set_rooms (<[id := new_room id name now]> (rooms m)) m).

Variable env : Env.

Lemma inv_sendTo ws payload : keeps P (sendTo env ws payload).
Proof.
  intros w HP. unfold sendTo, sendTo_with.
  destruct (fails env ws); [|exact HP]. wp_simp.
  destruct (wsToUser (mgr w) !! ws) as [v|]; [|exact HP].
  destruct (JsString.truthy v); [|exact HP].
  apply P_leave. exact HP.
Qed.

Lemma inv_broadcastToRoom roomId payload ex :
  keeps P (broadcastToRoom env roomId payload ex).
Proof.
  intros w HP. unfold broadcastToRoom, broadcastToRoom_with. wp_simp.
  destruct (rooms (mgr w) !! roomId) as [room|]; [|exact HP].
  apply (wp_for_each _ _ (fun w' => P (mgr w'))); [|exact HP].
  intros u w' _ HP'. wp_simp.
  destruct (still_member roomId u (mgr w')); [|exact HP']. wp_simp.
  destruct (connections (mgr w') !! u) as [c|]; [|exact HP'].
  destruct (decide (ex = Some (conn_ws c))); [exact HP'|].
  apply inv_sendTo. exact HP'.
Qed.

Lemma inv_broadcastPlaybackSync roomId :
  keeps P (broadcastPlaybackSync env roomId).
Proof.
  intros w HP. unfold broadcastPlaybackSync. wp_simp.
  destruct (rooms (mgr w) !! roomId) as [room|]; [|exact HP].
  unfold position. destruct (playbackState room); wp_simp;
    apply inv_broadcastToRoom; exact HP.
Qed.

Lemma inv_leaveByWs ws : keeps P (leaveByWs env ws).
Proof.
  intros w HP. unfold leaveByWs. wp_simp.
  destruct (wsToUser (mgr w) !! ws) as [v|]; [|exact HP].
  destruct (JsString.truthy v); [|exact HP].
  apply P_leave. exact HP.
Qed.

Lemma inv_seq {A B} (c : M A) (k : A -> M B) :
  keeps P c -> (forall a, keeps P (k a)) -> keeps P (bind c k).
Proof.
  intros Hc Hk w HP. eapply wp_seq; [apply Hc; exact HP|].
  intros a w' HP'. apply Hk; exact HP'.
Qed.

Lemma inv_put_then key r r' (k : M unit) w :
  P (mgr w) -> rooms (mgr w) !! key = Some r -> update T r r' -> keeps P k ->
  wp (put_room key r' ;; k) (fun _ w' => P (mgr w')) (fun w' => P (mgr w')) w.
Proof.
  intros HP Hr Hu Hk. rewrite wp_put_room_bind.
  apply Hk. cbn [mgr with_mgr]. eapply P_update; eauto.
Qed.

Lemma inv_sync_tail roomId payload :
  keeps P (broadcastToRoom env roomId payload None ;;
           broadcastPlaybackSync env roomId).
Proof.
  apply inv_seq; [apply inv_broadcastToRoom|].
  intros _. apply inv_broadcastPlaybackSync.
Qed.

Lemma inv_addTrack u yt ti th :
  (forall r, T (new_track env u yt ti th r)) ->
  keeps P (addTrack env u yt ti th).
Proof.
  intros HT w HP. unfold addTrack. wp_simp.
  destruct (connections (mgr w) !! u) as [c|]; wp_simp; [|exact HP].
  destruct (rooms (mgr w) !! conn_roomId c) as [r|] eqn:Hr; wp_simp; [|exact HP].
  cbn [currentIndex set_queue].
  pose proof (update_add T r (clock env (ticks w)) _ (HT r)) as Hu.
  unfold added, new_track in Hu.
  destruct (currentIndex r =? -1)%Z; wp_simp;
    (eapply inv_put_then; [exact HP | exact Hr | exact Hu | apply inv_sync_tail]).
Qed.

Lemma inv_removeTrack u trackId : keeps P (removeTrack env u trackId).
Proof.
  intros w HP. unfold removeTrack. wp_simp.
  destruct (connections (mgr w) !! u) as [c|]; wp_simp; [|exact HP].
  destruct (rooms (mgr w) !! conn_roomId c) as [r|] eqn:Hr; wp_simp; [|exact HP].
  destruct (as_key trackId ≫= _) as [i|] eqn:Hi; wp_simp; [|exact HP].
  destruct (negb _ && negb _); wp_simp; [exact HP|].
  assert (Hlt : (i < length (queue r))%nat).
  { destruct trackId; try discriminate. cbn in Hi. eapply findIndex_lt; eauto. }
  pose proof (update_remove T r (clock env (ticks w)) i Hlt) as Hu.
  unfold removed in Hu. cbn [currentIndex set_queue queue] in *.
  destruct (Z.of_nat i <? currentIndex r)%Z; wp_simp;
    [|destruct (Z.of_nat i =? currentIndex r)%Z; wp_simp;
      [destruct (len (splice1 i (queue r)) =? 0)%Z; wp_simp;
        [|destruct (currentIndex r >=? len (splice1 i (queue r)))%Z; wp_simp]|]];
    (eapply inv_put_then; [exact HP | exact Hr | exact Hu | apply inv_sync_tail]).
Qed.

Lemma inv_play u : keeps P (play env u).
Proof.
  intros w HP. unfold play, _roomForUser. wp_simp.
  destruct (connections (mgr w) !! u) as [c|]; wp_simp; [|exact HP].
  destruct (rooms (mgr w) !! conn_roomId c) as [r|] eqn:Hr; cbn [option_map];
    wp_simp; [|exact HP].
  destruct (currentIndex r =? -1)%Z eqn:Hci; cbn [orb]; wp_simp; [exact HP|].
  destruct (bool_decide (playbackState r = playing)) eqn:Hps; wp_simp;
    [exact HP|].
  eapply inv_put_then;
    [exact HP | exact Hr | | apply inv_broadcastPlaybackSync].
  apply (update_play T r (clock env (ticks w))).
  - apply Z.eqb_neq. exact Hci.
  - apply bool_decide_eq_false in Hps. destruct (playbackState r); congruence.
Qed.

Lemma inv_pause u : keeps P (pause env u).
Proof.
  intros w HP. unfold pause, _roomForUser. wp_simp.
  destruct (connections (mgr w) !! u) as [c|]; wp_simp; [|exact HP].
  destruct (rooms (mgr w) !! conn_roomId c) as [r|] eqn:Hr; cbn [option_map];
    wp_simp; [|exact HP].
  destruct (bool_decide (playbackState r = paused)) eqn:Hps; wp_simp;
    [exact HP|].
  eapply inv_put_then;
    [exact HP | exact Hr | | apply inv_broadcastPlaybackSync].
  apply (update_pause T r (clock env (ticks w))).
  apply bool_decide_eq_false in Hps. destruct (playbackState r); congruence.
Qed.

Lemma inv_seek u time : keeps P (seek String_toNumber env u time).
Proof.
  intros w HP. unfold seek, _roomForUser. wp_simp.
  destruct (connections (mgr w) !! u) as [c|]; wp_simp; [|exact HP].
  destruct (rooms (mgr w) !! conn_roomId c) as [r|] eqn:Hr; cbn [option_map];
    wp_simp; [|exact HP].
  destruct (currentIndex r =? -1)%Z eqn:Hci; wp_simp; [exact HP|].
  pose proof (update_seek T r (clock env (ticks w))
                (Math_max 0 (Number_or_0 String_toNumber time))
                ltac:(apply Z.eqb_neq; exact Hci)) as Hu.
  unfold sought in Hu.
  destruct (playbackState r); wp_simp;
    (eapply inv_put_then;
       [exact HP | exact Hr | exact Hu | apply inv_broadcastPlaybackSync]).
Qed.

Lemma inv_nextTrack roomId : keeps P (nextTrack env roomId).
Proof.
  intros w HP. unfold nextTrack. wp_simp.
  destruct (rooms (mgr w) !! roomId) as [r|] eqn:Hr; wp_simp; [|exact HP].
  pose proof (update_next T r (clock env (ticks w))) as Hu. unfold advanced in Hu.
  cbn [queue currentIndex set_skipVotes] in *.
  destruct (len (queue r) =? 0)%Z; wp_simp;
    [|destruct (currentIndex r <? len (queue r) - 1)%Z; wp_simp];
    (eapply inv_put_then; [exact HP | exact Hr | exact Hu | apply inv_sync_tail]).
Qed.

Lemma inv_ret {A} (a : A) : keeps P (ret a).
Proof. intros w HP. exact HP. Qed.

Lemma inv_skip u : keeps P (skip env u).
Proof.
  intros w HP. unfold skip, _roomForUser. wp_simp.
  destruct (connections (mgr w) !! u) as [c|] eqn:Hc; wp_simp; [|exact HP].
  destruct (rooms (mgr w) !! conn_roomId c) as [r|] eqn:Hr; cbn [option_map];
    wp_simp; [|exact HP].
  destruct (currentIndex r =? -1)%Z; wp_simp; [exact HP|].
  rewrite wp_put_room_bind.
  assert (HP' : P (set_rooms (alter (fun _ => voted u r) (conn_roomId c)
                                (rooms (mgr w))) (mgr w)))
    by (apply P_vote; assumption).
  eapply wp_seq; [apply inv_broadcastToRoom; exact HP'|].
  intros a w' HP''. cbv beta.
  destruct (_ >=? _)%Z; [apply inv_nextTrack | apply inv_ret]; exact HP''.
Qed.

Lemma inv_chat u text : keeps P (chat Number_toString env u text).
Proof.
  intros w HP. unfold chat. wp_simp.
  destruct (connections (mgr w) !! u) as [c|]; wp_simp; [|exact HP].
  destruct (rooms (mgr w) !! conn_roomId c) as [r|] eqn:Hr; wp_simp; [|exact HP].
  destruct (JsMap.get u (users r)); wp_simp; [|exact HP].
  destruct (negb _); wp_simp; [exact HP|].
  apply inv_broadcastToRoom. exact HP.
Qed.

Lemma inv_setCrossfade u d : keeps P (setCrossfade String_toNumber env u d).
Proof.
  intros w HP. unfold setCrossfade. wp_simp.
  destruct (connections (mgr w) !! u) as [c|]; wp_simp; [|exact HP].
  destruct (rooms (mgr w) !! conn_roomId c) as [r|] eqn:Hr; wp_simp; [|exact HP].
  eapply inv_put_then; [exact HP | exact Hr | | apply inv_broadcastToRoom].
  apply update_crossfade; apply clamp_bounds, Number_or_0_not_nan.
Qed.

Lemma inv_handleQueueAdd u url :
  keeps P (handleQueueAdd env extractYouTubeId u url).
Proof.
  intros w HP. unfold handleQueueAdd. wp_simp.
  destruct (connections (mgr w) !! u) as [c|]; wp_simp; [|exact HP].
  destruct (extractYouTubeId url); wp_simp; [exact HP|].
  apply inv_sendTo. exact HP.
Qed.

Lemma inv_createRoom name : keeps_fresh P F env (createRoom env name).
Proof.
  intros w HP HF. unfold createRoom.
  destruct (truthy name); [destruct name|]; wp_simp; try exact HP;
    cbn [mgr with_mgr]; apply (P_create _ _ _ _ HP HF).
Qed.

Lemma inv_joinRoom roomId userName ws :
  keeps_fresh P F env (joinRoom env roomId userName ws).
Proof.
  intros w HP HF. unfold joinRoom. wp_simp.
  destruct (as_key roomId) as [k|] eqn:Hk; cbn [mbind option_bind].
  2:{ apply inv_sendTo. exact HP. }
  destruct (rooms (mgr w) !! k) as [r|] eqn:Hr.
  2:{ apply inv_sendTo. exact HP. }
  destruct (or_else userName (JString "Anonymous")); wp_simp; try exact HP.
  rewrite wp_put_room_bind. wp_simp.
  unfold serializeRoom. wp_simp.
  match goal with
  | |- wp _ _ _ ?w0 => assert (HP0 : P (mgr w0))
  end.
  { cbn [mgr with_mgr]. apply (P_join _ _ _ ws _ _ HP HF Hr). }
  unfold position.
  destruct (playbackState _); wp_simp;
    (eapply wp_seq; [apply inv_sendTo; exact HP0|];
     intros a w' HP'; apply inv_broadcastToRoom; exact HP').
Qed.

Lemma inv_message ws msg :
  keeps_fresh P F env
    (message Number_toString String_toNumber env extractYouTubeId ws msg).
Proof.
  intros w HP HF. unfold message. wp_simp.
  destruct msg; try (apply inv_joinRoom; assumption);
    try exact HP;
    (destruct (wsToUser (mgr w) !! ws) as [u|]; [|exact HP];
     destruct (JsString.truthy u); [|exact HP]).
  - apply inv_handleQueueAdd; exact HP.
  - apply inv_removeTrack; exact HP.
  - apply inv_play; exact HP.
  - apply inv_pause; exact HP.
  - apply inv_skip; exact HP.
  - apply inv_seek; exact HP.
  - apply inv_chat; exact HP.
  - apply inv_setCrossfade; exact HP.
Qed.

Lemma inv_handle ev :
  adds_only T env ev ->
  keeps_fresh P F env
    (handle Number_toString String_toNumber env extractYouTubeId ev).
Proof.
  intros HT w HP HF. destruct ev; cbn [handle].
  - eapply wp_seq; [apply inv_createRoom; assumption|].
    intros a w' HP'. exact HP'.
  - apply inv_message; assumption.
  - apply inv_leaveByWs; assumption.
  - apply inv_addTrack; assumption.
Qed.

End Handlers.

(** ** Properties of the schedule of a room

    A property of the queue, the playback fields and the crossfade that
    the writes of the handlers keep holds in every room after every
    event: evictions and joins do not touch these fields. *)

Lemma keeps_leaveRoom env (P : RoomManager -> Prop) :
  (forall m v c, P m -> connections m !! v = Some c ->
     rooms m !! conn_roomId c = None -> P (unbind v c m)) ->
  (forall m v c r, P m -> connections m !! v = Some c ->
     rooms m !! conn_roomId c = Some r ->
     P (exit_room v (conn_roomId c) (unbind v c m))) ->
  (forall m v roomId,
     P m -> P (set_rooms (alter (migrate_host v) roomId (rooms m)) m)) ->
  (forall m roomId r, P m -> rooms m !! roomId = Some r ->
     JsMap.size (users r) = O -> P (set_rooms (delete roomId (rooms m)) m)) ->
  forall v, keeps P (leaveRoom env v).
Proof.
  intros H1 H2 H3 H4 v w HP.
  eapply wp_mono.
  - apply (leaveRoom_wp env P (fun _ => True) (fun w' => P (mgr w'))
             (fun _ _ _ _ _ _ => I)
             (fun m v c HP _ => H1 m v c HP)
             (fun m v c r HP _ => H2 m v c r HP) H3 H4 v w HP I).
  - intros a w' [H _]. exact H.
Qed.

Lemma same_schedule_migrate v r : same_schedule r (migrate_host v r).
Proof.
  unfold migrate_host. destruct (decide _); [destruct (_ <? _)%nat|];
    repeat split; reflexivity.
Qed.

Lemma same_schedule_seat u user r : same_schedule r (seat_user u user r).
Proof.
  unfold seat_user. destruct (_ =? _)%nat; repeat split; reflexivity.
Qed.

Section Schedule.
Variable Number_toString : float -> string.
Variable String_toNumber : string -> float.
Variable extractYouTubeId : JsValue -> option string.
Variable R : Room -> Prop.
Hypothesis R_same : forall r r', same_schedule r r' -> R r -> R r'.
Hypothesis R_update : forall r r', update (fun _ => True) r r' -> R r -> R r'.
Hypothesis R_new : forall id name now, R (new_room id name now).

Lemma schedule_handle env ev :
  keeps_fresh (all_rooms R) (fun _ _ => True) env
    (handle Number_toString String_toNumber env extractYouTubeId ev).
Proof.
  apply (inv_handle _ _ _ _ _ (fun _ => True)); [| | | | |destruct ev; cbn; trivial].
  - intros env' v. apply keeps_leaveRoom.
    + intros m v' c HP _ _. exact HP.
    + intros m v' c r HP _ _. apply all_rooms_alter; [|exact HP].
      intros r0 _. apply R_same. repeat split; reflexivity.
    + intros m v' roomId HP. apply all_rooms_alter; [|exact HP].
      intros r0 _. apply R_same, same_schedule_migrate.
    + intros m roomId r HP _ _. apply all_rooms_delete; exact HP.
  - intros m k r r' HP Hr Hu. apply all_rooms_alter; [|exact HP].
    intros r0 Hr0 H0. rewrite Hr in Hr0. injection Hr0 as <-.
    apply (R_update _ _ Hu H0).
  - intros m u c r HP _ Hr. apply all_rooms_alter; [|exact HP].
    intros r0 Hr0. rewrite Hr in Hr0. injection Hr0 as <-.
    apply R_same. repeat split; reflexivity.
  - intros m roomId r ws u user HP _ Hr. unfold joined.
    apply (all_rooms_alter R (fun _ => seat_user u user r) roomId
             (set_connections _ (set_wsToUser _ m))); [|exact HP].
    intros r0 Hr0. cbn in Hr0. rewrite Hr in Hr0. injection Hr0 as <-.
    apply R_same, same_schedule_seat.
  - intros m id name now HP _. apply all_rooms_insert; [apply R_new | exact HP].
Qed.

Lemma schedule_run (evs : list (Env * Inbound)) :
  exists m,
    run_events Number_toString String_toNumber extractYouTubeId evs constructor_
      = Some m /\ all_rooms R m.
Proof.
  apply (run_keeps _ _ _ (all_rooms R) (fun _ _ => True) schedule_handle).
  - apply (fresh_along_Forall _ _ _ _ (fun _ => True)); [trivial|].
    apply Forall_forall. trivial.
  - intros k r H. cbn in H. rewrite lookup_empty in H. discriminate.
Qed.

End Schedule.

Lemma update_membership T r r' :
  update T r r' ->
  users r' = users r /\ hostId r' = hostId r /\ room_id r' = room_id r /\
  skipVotes r' ⊆ skipVotes r.
Proof.
  intros [now t _|now i Hi|now H1 H2|now H1|now t H1|now|d H1 H2].
  - unfold added. destruct (_ =? _)%Z; repeat split; reflexivity.
  - unfold removed.
    destruct (_ <? _)%Z; [repeat split; reflexivity|].
    destruct (_ =? _)%Z; [|repeat split; reflexivity].
    destruct (_ =? _)%Z; [|destruct (_ >=? _)%Z];
      (split; [reflexivity|split; [reflexivity|split; [reflexivity|]]]);
      cbn; apply empty_subseteq.
  - repeat split; reflexivity.
  - repeat split; reflexivity.
  - unfold sought. destruct (playbackState r); repeat split; reflexivity.
  - unfold advanced.
    destruct (_ =? _)%Z; [|destruct (_ <? _)%Z];
      (split; [reflexivity|split; [reflexivity|split; [reflexivity|]]]);
      cbn; apply empty_subseteq.
  - repeat split; reflexivity.
Qed.

Lemma update_I1 T r r' : update T r r' -> I1 r -> I1 r'.
Proof.
  intros [now t _|now i Hi|now H1 H2|now H1|now t H1|now|d H1 H2];
    unfold I1; intros HI.
  - unfold added, len in *.
    destruct (currentIndex r =? -1)%Z; cbn; rewrite length_app; cbn; lia.
  - pose proof (splice1_length i (queue r) Hi) as Hlen.
    unfold removed, len in *.
    destruct (Z.of_nat i <? currentIndex r)%Z eqn:E1; [cbn; lia|].
    destruct (Z.of_nat i =? currentIndex r)%Z eqn:E2; [|cbn; lia].
    cbn [queue set_queue].
    destruct (Z.of_nat (length (splice1 i (queue r))) =? 0)%Z eqn:E3;
      [cbn; lia|].
    destruct (currentIndex r >=? Z.of_nat (length (splice1 i (queue r))))%Z
      eqn:E4; cbn; lia.
  - exact HI.
  - exact HI.
  - unfold sought. destruct (playbackState r); exact HI.
  - unfold advanced, len in *.
    destruct (Z.of_nat (length (queue r)) =? 0)%Z eqn:E1; [cbn; lia|].
    destruct (currentIndex r <? Z.of_nat (length (queue r)) - 1)%Z eqn:E2;
      cbn; lia.
  - exact HI.
Qed.

Lemma update_idle T r r' : update T r r' -> I1 r -> idle_ok r -> idle_ok r'.
Proof.
  intros [now t _|now i Hi|now H1 H2|now H1|now t H1|now|d H1 H2];
    unfold idle_ok, I1; intros H0 HI.
  - unfold added. destruct (currentIndex r =? -1)%Z eqn:E; cbn; [lia|].
    intros H. apply HI. exact H.
  - unfold removed.
    destruct (Z.of_nat i <? currentIndex r)%Z eqn:E1; [cbn; lia|].
    destruct (Z.of_nat i =? currentIndex r)%Z eqn:E2; [|exact HI].
    cbn [queue set_queue].
    destruct (len (splice1 i (queue r)) =? 0)%Z eqn:E3; [cbn; auto|].
    destruct (currentIndex r >=? len (splice1 i (queue r)))%Z eqn:E4;
      cbn; unfold len in *; lia.
  - cbn. intros H. contradiction.
  - cbn. intros H. destruct (HI H) as [Hp _]. congruence.
  - unfold sought. destruct (playbackState r); cbn; intros H; contradiction.
  - unfold advanced.
    destruct (len (queue r) =? 0)%Z eqn:E1; [cbn; auto|].
    destruct (currentIndex r <? len (queue r) - 1)%Z eqn:E2; cbn; [|auto].
    unfold len in *. lia.
  - exact HI.
Qed.

Lemma update_crossfade_ok T r r' :
  update T r r' -> crossfade_ok r -> crossfade_ok r'.
Proof.
  intros [now t _|now i Hi|now H1 H2|now H1|now t H1|now|d H1 H2];
    unfold crossfade_ok; intros HI.
  - unfold added. destruct (_ =? _)%Z; exact HI.
  - unfold removed.
    destruct (_ <? _)%Z; [exact HI|]. destruct (_ =? _)%Z; [|exact HI].
    destruct (_ =? _)%Z; [|destruct (_ >=? _)%Z]; exact HI.
  - exact HI.
  - exact HI.
  - unfold sought. destruct (playbackState r); exact HI.
  - unfold advanced. destruct (_ =? _)%Z; [|destruct (_ <? _)%Z]; exact HI.
  - cbn. split; assumption.
Qed.

(** X2. In every room after every event of every run from the empty manager,
    whatever sockets fail: a room with nothing scheduled is paused at
    position 0, and a playing room has a current track. *)
Theorem idle_after_every_event
    (Number_toString : float -> string) (String_toNumber : string -> float)
    (extractYouTubeId : JsValue -> option string)
    (evs : list (Env * Inbound)) :
  exists m,
    run_events Number_toString String_toNumber extractYouTubeId evs constructor_
      = Some m /\
    forall roomId r, rooms m !! roomId = Some r ->
      (currentIndex r = (-1)%Z -> playbackState r = paused /\ elapsed r = 0%float) /\
      (playbackState r = playing -> exists t, currentTrack r = Some t).
Proof.
  destruct (schedule_run Number_toString String_toNumber extractYouTubeId
              (fun r => I1 r /\ idle_ok r)) with (evs := evs)
    as (m & Hrun & HR).
  - intros r r' (H1 & H2 & H3 & H4 & H5 & H6) [HI Hd]. split.
    + unfold I1 in *. rewrite H1, H2. exact HI.
    + unfold idle_ok in *. rewrite H2, H3, H5. exact Hd.
  - intros r r' Hu [HI Hd]. split; [eapply update_I1 | eapply update_idle]; eauto.
  - intros id name now. split; [unfold I1, len; cbn; lia|].
    intros _. split; reflexivity.
  - exists m. split; [exact Hrun|]. intros roomId r Hr.
    destruct (HR _ _ Hr) as [HI Hd]. split; [exact Hd|].
    intros Hp. destruct (currentTrack r) as [t|] eqn:Ht; [eauto|].
    apply I1_currentTrack in Ht; [|exact HI].
    destruct (Hd Ht) as [Hq _]. congruence.
Qed.

(** X3. In every room after every event of every run from the empty manager,
    whatever sockets fail and whatever durations the frames carry, the
    crossfade duration lies between 0 and 8. *)
Theorem crossfade_after_every_event
    (Number_toString : float -> string) (String_toNumber : string -> float)
    (extractYouTubeId : JsValue -> option string)
    (evs : list (Env * Inbound)) :
  exists m,
    run_events Number_toString String_toNumber extractYouTubeId evs constructor_
      = Some m /\
    forall roomId r, rooms m !! roomId = Some r ->
      (0 <=? crossfadeDuration r)%float = true /\
      (crossfadeDuration r <=? 8)%float = true.
Proof.
  destruct (schedule_run Number_toString String_toNumber extractYouTubeId
              crossfade_ok) with (evs := evs) as (m & Hrun & HR).
  - intros r r' (H1 & H2 & H3 & H4 & H5 & H6). unfold crossfade_ok.
    rewrite H6. trivial.
  - apply update_crossfade_ok.
  - intros id name now. split; reflexivity.
  - exists m. split; [exact Hrun|]. exact HR.
Qed.

(** ** Membership: connections, users and votes *)

Section JsMapNoDup.
Context {V : Type}.
Implicit Types (m : JsMap.t V) (k : string).

Lemma JsMap_keys_set_absent m k v :
  k ∉ JsMap.keys m -> JsMap.keys (JsMap.set k v m) = (JsMap.keys m ++ [k])%list.
Proof.
  unfold JsMap.keys. induction m as [|[k0 v0] m IH]; simpl; [reflexivity|].
  intros Hnot. destruct (decide (k0 = k)) as [->|Hne]; simpl.
  - exfalso. apply Hnot. left.
  - rewrite IH; [reflexivity|]. intros H. apply Hnot. right. exact H.
Qed.

Lemma JsMap_keys_set_present m k v :
  k ∈ JsMap.keys m -> JsMap.keys (JsMap.set k v m) = JsMap.keys m.
Proof.
  unfold JsMap.keys. induction m as [|[k0 v0] m IH]; simpl.
  - intros H. inversion H.
  - intros H. destruct (decide (k0 = k)) as [->|Hne]; simpl; [reflexivity|].
    rewrite IH; [reflexivity|]. inversion H; subst; [congruence | assumption].
Qed.

Lemma JsMap_keys_set_NoDup m k v :
  NoDup (JsMap.keys m) -> NoDup (JsMap.keys (JsMap.set k v m)).
Proof.
  intros Hnd. destruct (decide (k ∈ JsMap.keys m)) as [Hin|Hout].
  - rewrite JsMap_keys_set_present by exact Hin. exact Hnd.
  - rewrite JsMap_keys_set_absent by exact Hout.
    apply NoDup_app. split; [exact Hnd|]. split.
    + intros x Hx Hx'. apply list_elem_of_singleton in Hx'. subst. auto.
    + apply NoDup_singleton.
Qed.

Lemma JsMap_keys_delete_NoDup m k :
  NoDup (JsMap.keys m) -> NoDup (JsMap.keys (JsMap.delete k m)).
Proof.
  induction m as [|[k0 v0] m IH]; simpl; [trivial|].
  intros Hnd. apply NoDup_cons in Hnd. destruct Hnd as [Hk0 Hnd].
  destruct (decide (k0 = k)) as [->|Hne]; [apply IH; exact Hnd|].
  change (NoDup (k0 :: JsMap.keys (JsMap.delete k m))).
  apply NoDup_cons. split; [|apply IH; exact Hnd].
  intros H. apply JsMap_keys_delete in H. apply Hk0. apply H.
Qed.

Lemma JsMap_keys_nil m : JsMap.size m = O -> JsMap.keys m = [].
Proof. destruct m; [reflexivity | discriminate]. Qed.

End JsMapNoDup.

Lemma votes_bound r :
  votes_ok r -> (size (skipVotes r) <= JsMap.size (users r))%nat.
Proof.
  intros [Hnd Hsub]. rewrite JsMap_size_keys.
  change (size (skipVotes r)) with (length (elements (skipVotes r))).
  apply submseteq_length, NoDup_submseteq; [apply NoDup_elements|].
  intros x Hx. apply Hsub. apply elem_of_elements. exact Hx.
Qed.

Lemma seated_alter f k m :
  (forall r u c, rooms m !! k = Some r -> connections m !! u = Some c ->
     u ∈ JsMap.keys (users r) -> u ∈ JsMap.keys (users (f r))) ->
  seated m -> seated (set_rooms (alter f k (rooms m)) m).
Proof.
  intros Hf Hs u c Hc. cbn in Hc. destruct (Hs u c Hc) as (r & Hr & Hu).
  cbn [rooms set_rooms].
  destruct (decide (k = conn_roomId c)) as [->|Hne].
  - exists (f r). rewrite lookup_alter_eq, Hr. split; [reflexivity|]. eauto.
  - exists r. rewrite lookup_alter_ne by exact Hne. auto.
Qed.

Lemma seated_unbind v c m : seated m -> seated (unbind v c m).
Proof.
  intros Hs u cu Hcu. cbn in Hcu. apply lookup_delete_Some in Hcu.
  destruct Hcu as [_ Hcu]. exact (Hs u cu Hcu).
Qed.

Section Membership.
Variable Number_toString : float -> string.
Variable String_toNumber : string -> float.
Variable extractYouTubeId : JsValue -> option string.

Lemma membership_handle env ev :
  keeps_fresh membership unused_room env
    (handle Number_toString String_toNumber env extractYouTubeId ev).
Proof.
  apply (inv_handle _ _ _ _ _ (fun _ => True));
    [| | | | |destruct ev; cbn; trivial].
  - intros env' v. apply keeps_leaveRoom.
    + intros m v' c [Hs _] Hc Hr. destruct (Hs _ _ Hc) as (r & Hr' & _).
      congruence.
    + intros m v' c r [Hs Hv] Hc Hr. split.
      * unfold exit_room. apply seated_alter; [|apply seated_unbind; exact Hs].
        intros r0 u cu _ Hcu Hu. cbn. apply JsMap_keys_delete.
        split; [exact Hu|]. intros ->. cbn in Hcu.
        rewrite lookup_delete_eq in Hcu. discriminate.
      * unfold exit_room. apply all_rooms_alter; [|exact Hv].
        intros r0 _ [Hnd Hsub]. split; cbn.
        -- apply JsMap_keys_delete_NoDup. exact Hnd.
        -- intros x Hx. apply elem_of_difference in Hx. destruct Hx as [Hx Hne].
           apply JsMap_keys_delete. split; [apply Hsub; exact Hx|].
           intros ->. apply Hne. apply elem_of_singleton. reflexivity.
    + intros m v' roomId [Hs Hv]. split.
      * apply seated_alter; [|exact Hs]. intros r0 u cu _ _ Hu.
        rewrite users_migrate_host. exact Hu.
      * apply all_rooms_alter; [|exact Hv]. intros r0 _ H.
        unfold votes_ok. rewrite users_migrate_host.
        unfold migrate_host. destruct (decide _); [destruct (_ <? _)%nat|];
          exact H.
    + intros m roomId r [Hs Hv] Hr Hsz. split.
      * intros u c Hc. cbn in Hc. destruct (Hs u c Hc) as (r0 & Hr0 & Hu).
        exists r0. split; [|exact Hu]. cbn. rewrite lookup_delete_ne; [exact Hr0|].
        intros Heq. rewrite <- Heq, Hr in Hr0. injection Hr0 as <-.
        rewrite (JsMap_keys_nil _ Hsz) in Hu. inversion Hu.
      * apply all_rooms_delete. exact Hv.
  - intros m k r r' [Hs Hv] Hr Hu.
    destruct (update_membership _ _ _ Hu) as (Hus & _ & _ & Hvs). split.
    + apply seated_alter; [|exact Hs]. intros r0 u cu Hr0 _ H.
      rewrite Hr in Hr0. injection Hr0 as <-. rewrite Hus. exact H.
    + apply all_rooms_alter; [|exact Hv]. intros r0 Hr0 [Hnd Hsub].
      rewrite Hr in Hr0. injection Hr0 as <-. unfold votes_ok. rewrite Hus.
      split; [exact Hnd|]. intros x Hx. apply Hsub, Hvs, Hx.
  - intros m u c r [Hs Hv] Hc Hr. split.
    + apply seated_alter; [|exact Hs]. intros r0 u' cu Hr0 _ H.
      rewrite Hr in Hr0. injection Hr0 as <-. exact H.
    + apply all_rooms_alter; [|exact Hv]. intros r0 Hr0 [Hnd Hsub].
      rewrite Hr in Hr0. injection Hr0 as <-. split; [exact Hnd|].
      cbn. intros x Hx. apply elem_of_union in Hx. destruct Hx as [Hx|Hx].
      * apply Hsub, Hx.
      * apply elem_of_singleton in Hx. subst x.
        destruct (Hs _ _ Hc) as (r1 & Hr1 & Hu1).
        rewrite Hr in Hr1. injection Hr1 as <-. exact Hu1.
  - intros m roomId r ws u user [Hs Hv] _ Hr. unfold joined.
    assert (Hk : forall x, x ∈ JsMap.keys (users (seat_user u user r)) <->
                           x = u \/ x ∈ JsMap.keys (users r)).
    { intros x. unfold seat_user.
      destruct (_ =? _)%nat; cbn [users set_users set_hostId];
        apply JsMap_keys_set. }
    split.
    + intros v c. cbn. intros Hc. apply lookup_insert_Some in Hc.
      destruct Hc as [[<- <-] | [Hne Hc]]; cbn.
      * eexists. rewrite lookup_alter_eq, Hr. split; [reflexivity|].
        apply Hk. left. reflexivity.
      * destruct (Hs v c Hc) as (r0 & Hr0 & Hv0).
        destruct (decide (roomId = conn_roomId c)) as [->|Hne'].
        -- eexists. rewrite lookup_alter_eq, Hr0. split; [reflexivity|].
           rewrite Hr in Hr0. injection Hr0 as <-. apply Hk. right. exact Hv0.
        -- exists r0. rewrite lookup_alter_ne by exact Hne'. auto.
    + apply (all_rooms_alter votes_ok (fun _ => seat_user u user r) roomId
               (set_connections _ (set_wsToUser _ m))); [|exact Hv].
      intros r0 Hr0 [Hnd Hsub]. cbn in Hr0. rewrite Hr in Hr0.
      injection Hr0 as <-. split.
      * unfold seat_user.
        destruct (_ =? _)%nat; cbn [users set_users set_hostId];
          apply JsMap_keys_set_NoDup; exact Hnd.
      * intros x Hx. apply Hk. right. apply Hsub.
        unfold seat_user in Hx. destruct (_ =? _)%nat; exact Hx.
  - intros m id name now [Hs Hv] Hfresh. unfold unused_room in Hfresh. split.
    + intros u c Hc. cbn in Hc. destruct (Hs u c Hc) as (r0 & Hr0 & Hu).
      exists r0. split; [|exact Hu]. cbn. rewrite lookup_insert_ne; [exact Hr0|].
      intros Heq. rewrite <- Heq in Hr0. congruence.
    + apply all_rooms_insert; [|exact Hv]. split; cbn.
      * apply NoDup_nil. trivial.
      * intros x Hx. apply not_elem_of_empty in Hx. contradiction.
Qed.

End Membership.

(** ** The host of a room

    Between the removal of a leaving host and the host migration, which
    comes after the [user:left] broadcast, the room names as host a user
    it no longer has, and a failing socket makes [leaveRoom] run again
    in that state.  The nested calls keep [hosts L] for the list [L] of
    the users whose [leaveRoom] is under way. *)

Lemma hosts_weaken L L' m :
  (forall x, x ∈ L -> x ∈ L') -> hosts L m -> hosts L' m.
Proof.
  intros Hsub H k r Hr. specialize (H k r Hr). unfold host_ok_but in *.
  destruct (hostId r); [|exact H]. destruct H; auto.
Qed.

Lemma hosts_exit L v c r m :
  hosts L m -> rooms m !! conn_roomId c = Some r ->
  hosts ((v, conn_roomId c) :: L) (exit_room v (conn_roomId c) (unbind v c m)).
Proof.
  intros H Hr k r'. unfold exit_room. cbn. rewrite lookup_alter_Some.
  intros [[<- (r0 & Hr0 & ->)] | [Hne Hr0]].
  - specialize (H _ _ Hr0). unfold host_ok_but in *. cbn.
    destruct (hostId r0) as [h|].
    + destruct (decide (h = v)) as [->|Hhv]; [right; left|].
      destruct H as [H|H]; [left | right; right; exact H].
      apply JsMap_keys_delete. auto.
    + rewrite H. reflexivity.
  - apply (hosts_weaken L ((v, conn_roomId c) :: L) m); [|exact H|exact Hr0].
    intros x Hx. right. exact Hx.
Qed.

Lemma first_key_member (us : JsMap.t User) :
  JsMap.size us <> O -> exists x, JsMap.first_key us = Some x /\ x ∈ JsMap.keys us.
Proof.
  destruct us as [|[k u] us]; [intros H; exfalso; apply H; reflexivity|].
  intros _.
  exists k. split; [reflexivity | left].
Qed.

Lemma host_ok_migrate L v k r :
  host_ok_but ((v, k) :: L) k r -> JsMap.size (users r) <> O ->
  host_ok_but L k (migrate_host v r).
Proof.
  intros H Hsz. unfold migrate_host.
  destruct (decide (hostId r = Some v)) as [Hh|Hh].
  - destruct (0 <? JsMap.size (users r))%nat eqn:E.
    + destruct (first_key_member _ Hsz) as (x & Hx & Hin).
      unfold host_ok_but. cbn. rewrite Hx. left. exact Hin.
    + apply Nat.ltb_ge in E. lia.
  - unfold host_ok_but in *. destruct (hostId r) as [h|]; [|exact H].
    destruct H as [H|H]; [left; exact H|]. right.
    apply elem_of_cons in H. destruct H as [H|H]; [|exact H].
    congruence.
Qed.

Lemma hosts_other L v k k' r m :
  hosts ((v, k) :: L) m -> k' <> k -> rooms m !! k' = Some r ->
  host_ok_but L k' r.
Proof.
  intros H Hne Hr. specialize (H _ _ Hr). unfold host_ok_but in *.
  destruct (hostId r) as [h|]; [|exact H].
  destruct H as [H|H]; [left; exact H|]. right.
  apply elem_of_cons in H. destruct H as [H|H]; [congruence | exact H].
Qed.

Lemma hosts_migrate L v k m :
  hosts ((v, k) :: L) m ->
  (forall r, rooms m !! k = Some r -> JsMap.size (users r) <> O) ->
  hosts L (set_rooms (alter (migrate_host v) k (rooms m)) m).
Proof.
  intros H Hsz k' r'. cbn. rewrite lookup_alter_Some.
  intros [[<- (r0 & Hr0 & ->)] | [Hne Hr0]].
  - apply host_ok_migrate; [apply H; exact Hr0 | apply Hsz; exact Hr0].
  - eapply hosts_other; eauto.
Qed.

Lemma hosts_prune L v k m :
  hosts ((v, k) :: L) m ->
  hosts L (set_rooms (delete k (alter (migrate_host v) k (rooms m))) m).
Proof.
  intros H k' r'. cbn. rewrite lookup_delete_Some.
  intros [Hne Hr']. rewrite lookup_alter_ne in Hr' by exact Hne.
  eapply hosts_other; eauto.
Qed.

Lemma leaveRoom_fuel_hosts env Exc n : forall L k v w,
  (k < n)%nat -> within (hosts L) k w ->
  wp (leaveRoom_fuel env n v) (fun _ => within (hosts L) k) Exc w.
Proof.
  induction n as [|n IH]; intros L k v w Hk [HP Hsz]; [lia|].
  cbn [leaveRoom_fuel]. unfold leaveRoom_body.
  apply wp_bind. unfold wp at 1, gets.
  destruct (connections (mgr w) !! v) as [c|] eqn:Hc; [|split; assumption].
  apply wp_bind. unfold wp at 1, gets.
  apply wp_bind. unfold wp at 1, modify.
  apply wp_bind. unfold wp at 1, modify. cbn [mgr sent ticks].
  assert (Hsz' : (S (size (delete v (connections (mgr w)))) <= k)%nat).
  { rewrite map_size_delete, Hc.
    assert (size (connections (mgr w)) <> O)
      by (apply (map_size_ne_0_lookup_2 _ v); eauto).
    simpl. lia. }
  destruct (rooms (mgr w) !! conn_roomId c) as [r|] eqn:Hr.
  - apply wp_bind. unfold wp at 1, update_room, modify. cbn [mgr sent ticks].
    pose proof (hosts_exit L v c r _ HP Hr) as HP1.
    eapply wp_seq.
    + apply (broadcastToRoom_with_wp env (hosts ((v, conn_roomId c) :: L))
               (fun _ => True) Exc (fun _ _ _ _ _ _ => I) _ (pred k)).
      * intros v' w' Hw' _. apply IH; [lia | assumption].
      * split; [exact HP1|]. cbn. lia.
    + intros a w1 [HP2 Hsz2].
      apply wp_bind. unfold wp at 1, update_room, modify. cbn [mgr sent ticks].
      apply wp_bind. unfold wp at 1, gets.
      cbn [mgr sent ticks rooms connections wsToUser set_rooms].
      destruct (alter (migrate_host v) (conn_roomId c) (rooms (mgr w1))
                  !! conn_roomId c) as [r'|] eqn:Hr'.
      * destruct (Nat.eqb (JsMap.size (users r')) 0) eqn:He.
        -- unfold wp, modify, within. cbn [mgr sent ticks]. split.
           ++ apply (hosts_prune L v _ (mgr w1) HP2).
           ++ cbn. lia.
        -- split; [|cbn; lia]. cbn [mgr].
           apply hosts_migrate; [exact HP2|].
           intros r0 Hr0. rewrite lookup_alter_eq, Hr0 in Hr'.
           injection Hr' as <-. rewrite users_migrate_host in He.
           apply Nat.eqb_neq in He. exact He.
      * split; [|cbn; lia]. cbn [mgr].
        apply hosts_migrate; [exact HP2|].
        intros r0 Hr0. rewrite lookup_alter_eq, Hr0 in Hr'. discriminate.
  - split; [exact HP | cbn; lia].
Qed.

Lemma hosts_nil m : hosts [] m <-> all_rooms host_ok m.
Proof.
  unfold hosts, all_rooms, host_ok_but, host_ok.
  split; intros H k r Hr; specialize (H k r Hr);
    destruct (hostId r); auto.
  destruct H as [H|H]; [exact H | inversion H].
Qed.

Lemma host_leaveRoom env v : keeps (all_rooms host_ok) (leaveRoom env v).
Proof.
  intros w HP. unfold leaveRoom.
  pose proof (leaveRoom_fuel_hosts env (fun w' => all_rooms host_ok (mgr w'))
                (S (size (connections (mgr w)))) []
                (size (connections (mgr w))) v w) as H.
  eapply wp_mono.
  - apply H; [lia|]. split; [apply hosts_nil; exact HP | lia].
  - intros a w' [H' _]. apply hosts_nil. exact H'.
Qed.

Lemma host_ok_same r r' :
  users r' = users r -> hostId r' = hostId r -> host_ok r -> host_ok r'.
Proof. unfold host_ok. intros -> ->. trivial. Qed.

Section Host.
Variable Number_toString : float -> string.
Variable String_toNumber : string -> float.
Variable extractYouTubeId : JsValue -> option string.

Lemma host_handle env ev :
  keeps_fresh (all_rooms host_ok) (fun _ _ => True) env
    (handle Number_toString String_toNumber env extractYouTubeId ev).
Proof.
  apply (inv_handle _ _ _ _ _ (fun _ => True));
    [| | | | |destruct ev; cbn; trivial].
  - intros env' v. apply host_leaveRoom.
  - intros m k r r' HP Hr Hu. apply all_rooms_alter; [|exact HP].
    intros r0 Hr0. rewrite Hr in Hr0. injection Hr0 as <-.
    destruct (update_membership _ _ _ Hu) as (H1 & H2 & _).
    apply host_ok_same; assumption.
  - intros m u c r HP _ Hr. apply all_rooms_alter; [|exact HP].
    intros r0 Hr0. rewrite Hr in Hr0. injection Hr0 as <-.
    apply host_ok_same; reflexivity.
  - intros m roomId r ws u user HP _ Hr. unfold joined.
    apply (all_rooms_alter host_ok (fun _ => seat_user u user r) roomId
             (set_connections _ (set_wsToUser _ m))); [|exact HP].
    intros r0 Hr0 H0. cbn in Hr0. rewrite Hr in Hr0. injection Hr0 as <-.
    unfold seat_user, host_ok in *.
    destruct (JsMap.size (users r) =? 0)%nat eqn:E;
      cbn [users set_users set_hostId hostId].
    + apply JsMap_keys_set. left. reflexivity.
    + destruct (hostId r) as [h|].
      * apply JsMap_keys_set. right. exact H0.
      * rewrite H0 in E. discriminate.
  - intros m id name now HP _. apply all_rooms_insert; [|exact HP].
    reflexivity.
Qed.

End Host.

(** X1. In every room after every event of every run from the empty manager,
    whatever sockets fail and whatever identifiers are drawn: the host is
    one of the users of the room, and a room that has a user has a
    host. *)
Theorem host_after_every_event
    (Number_toString : float -> string) (String_toNumber : string -> float)
    (extractYouTubeId : JsValue -> option string)
    (evs : list (Env * Inbound)) :
  exists m,
    run_events Number_toString String_toNumber extractYouTubeId evs constructor_
      = Some m /\
    forall roomId r, rooms m !! roomId = Some r ->
      (forall h, hostId r = Some h -> h ∈ JsMap.keys (users r)) /\
      (hostId r = None <-> users r = []).
Proof.
  destruct (run_keeps Number_toString String_toNumber extractYouTubeId
              (all_rooms host_ok) (fun _ _ => True)
              (fun env ev => host_handle _ _ _ env ev) evs constructor_)
    as (m & Hrun & HI).
  - apply (fresh_along_Forall _ _ _ _ (fun _ => True)); [trivial|].
    apply Forall_forall. trivial.
  - intros k r H. cbn in H. rewrite lookup_empty in H. discriminate.
  - exists m. split; [exact Hrun|]. intros roomId r Hr.
    specialize (HI _ _ Hr). unfold host_ok in HI.
    destruct (hostId r) as [h|]; split.
    + intros h' [= <-]. exact HI.
    + split; [discriminate|]. intros He. rewrite He in HI. inversion HI.
    + intros h' H. discriminate.
    + split; auto.
Qed.

Lemma keeps_fresh_and (P1 P2 : RoomManager -> Prop)
    (F1 F2 : RoomManager -> string -> Prop) env {A} (c : M A) :
  keeps_fresh P1 F1 env c -> keeps_fresh P2 F2 env c ->
  keeps_fresh (fun m => P1 m /\ P2 m) (fun m id => F1 m id /\ F2 m id) env c.
Proof.
  intros H1 H2 w [HP1 HP2] [HF1 HF2].
  specialize (H1 w HP1 HF1). specialize (H2 w HP2 HF2).
  unfold wp in *. destruct (c w); auto.
Qed.

(** X4. After every event of every run from the empty manager in which no
    drawn identifier is that of a connected user or of a stored room,
    whatever sockets fail: every connected user is a user of the room its
    connection names, and of no other room. *)
Theorem one_room_per_user
    (Number_toString : float -> string) (String_toNumber : string -> float)
    (extractYouTubeId : JsValue -> option string)
    (evs : list (Env * Inbound)) :
  fresh_along Number_toString String_toNumber extractYouTubeId
    (fun m id => unused m id /\ unused_room m id) evs constructor_ ->
  exists m,
    run_events Number_toString String_toNumber extractYouTubeId evs constructor_
      = Some m /\
    forall u c, connections m !! u = Some c ->
      exists r, rooms m !! conn_roomId c = Some r /\
                u ∈ JsMap.keys (users r) /\
                forall k r', rooms m !! k = Some r' ->
                  u ∈ JsMap.keys (users r') -> k = conn_roomId c.
Proof.
  intros Hf.
  destruct (run_keeps Number_toString String_toNumber extractYouTubeId
              (fun m => consistent m /\ membership m)
              (fun m id => unused m id /\ unused_room m id)
              (fun env ev => keeps_fresh_and _ _ _ _ env _
                 (consistent_handle _ _ _ env ev)
                 (membership_handle _ _ _ env ev)) evs constructor_ Hf)
    as (m & Hrun & (_ & Hc2 & _) & Hs & _).
  - split; [split; [|split]|split].
    all: intros * H; cbn in H.
    all: try rewrite lookup_empty in H; discriminate.
  - exists m. split; [exact Hrun|]. intros u c Hc.
    destruct (Hs u c Hc) as (r & Hr & Hu). exists r.
    split; [exact Hr|]. split; [exact Hu|]. intros k r' Hr' Hu'.
    destruct (Hc2 _ _ _ Hr' Hu') as (c' & Hc' & Hid).
    rewrite Hc in Hc'. injection Hc' as <-. congruence.
Qed.

Lemma one_room_per_user_witness :
  exists m,
    run_events (fun _ => "") (fun _ => nan) (fun _ => None) demo_run
      constructor_ = Some m /\
    exists r, rooms m !! "roomA" = Some r /\ "ub" ∈ JsMap.keys (users r).
Proof.
  destruct (one_room_per_user (fun _ => "") (fun _ => nan) (fun _ => None)
              demo_run) as (m & Hrun & H).
  - vm_compute. repeat split; reflexivity.
  - exists m. split; [exact Hrun|].
    assert (Hc : connections m !! "ub"
                 = Some {| conn_ws := 2%nat; conn_roomId := "roomA" |}).
    { vm_compute in Hrun. injection Hrun as <-. reflexivity. }
    destruct (H _ _ Hc) as (r & Hr & Hu & _). exists r. split; assumption.
Defined.

(** X5. After every event of every run from the empty manager in which no
    [createRoom] draws the identifier of a stored room, whatever sockets
    fail: every skip vote of a room is the vote of one of its users, so
    a room never counts more votes than it has users. *)
Theorem votes_within_users
    (Number_toString : float -> string) (String_toNumber : string -> float)
    (extractYouTubeId : JsValue -> option string)
    (evs : list (Env * Inbound)) :
  fresh_along Number_toString String_toNumber extractYouTubeId
    unused_room evs constructor_ ->
  exists m,
    run_events Number_toString String_toNumber extractYouTubeId evs constructor_
      = Some m /\
    forall roomId r, rooms m !! roomId = Some r ->
      (forall v, v ∈ skipVotes r -> v ∈ JsMap.keys (users r)) /\
      (size (skipVotes r) <= JsMap.size (users r))%nat.
Proof.
  intros Hf.
  destruct (run_keeps Number_toString String_toNumber extractYouTubeId
              membership unused_room
              (fun env ev => membership_handle _ _ _ env ev) evs constructor_ Hf)
    as (m & Hrun & _ & Hv).
  - split.
    + intros u c H. cbn in H. rewrite lookup_empty in H. discriminate.
    + intros k r H. cbn in H. rewrite lookup_empty in H. discriminate.
  - exists m. split; [exact Hrun|]. intros roomId r Hr.
    specialize (Hv _ _ Hr). split; [apply Hv | apply votes_bound; exact Hv].
Qed.

Lemma votes_within_users_witness :
  exists m r,
    run_events (fun _ => "") (fun _ => nan) (fun _ => None) demo_run
      constructor_ = Some m /\
    rooms m !! "roomA" = Some r /\
    (size (skipVotes r) <= JsMap.size (users r))%nat.
Proof.
  destruct (votes_within_users (fun _ => "") (fun _ => nan) (fun _ => None)
              demo_run) as (m & Hrun & H).
  - vm_compute. repeat split; reflexivity.
  - assert (Hr : exists r, rooms m !! "roomA" = Some r).
    { vm_compute in Hrun. injection Hrun as <-. eexists. reflexivity. }
    destruct Hr as (r & Hr). exists m, r. split; [exact Hrun|].
    split; [exact Hr | apply (H _ _ Hr)].
Defined.

(** ** [removeTrack]: refusals, and removals when sockets fail *)

(** X10. A [queue:remove] is dropped without a trace (no write, no frame, no
    clock reading) when its [trackId] is not a string, when no track of
    the queue has that id, and when the first track that has it was added
    by someone else and the user is not the host. *)
Theorem removeTrack_refused env u trackId w c r :
  connections (mgr w) !! u = Some c ->
  rooms (mgr w) !! conn_roomId c = Some r ->
  (forall tid i t, trackId = JString tid ->
     findIndex tid (queue r) = Some i -> queue r !! i = Some t ->
     hostId r <> Some u /\ addedBy t <> u) ->
  removeTrack env u trackId w = Returned tt w.
Proof.
  intros Hc Hr Hno. unfold removeTrack, bind, gets. rewrite Hc, Hr.
  destruct trackId as [| |b|q|tid|o]; try reflexivity.
  cbn [as_key mbind option_bind].
  destruct (findIndex tid (queue r)) as [i|] eqn:Hi; [|reflexivity].
  pose proof (findIndex_lt _ _ _ Hi) as Hlt.
  destruct (queue r !! i) as [t|] eqn:Ht.
  - destruct (Hno tid i t eq_refl Hi Ht) as [H1 H2].
    rewrite (bool_decide_eq_false_2 _ H1), (bool_decide_eq_false_2 _ H2).
    reflexivity.
  - apply lookup_ge_None in Ht. lia.
Qed.

Lemma removeTrack_refused_witness :
  removeTrack (demo_env 9000) "u2" (JString "tA") (start demo)
    = Returned tt (start demo) /\
  removeTrack (demo_env 9000) "u2" (JString "nope") (start demo)
    = Returned tt (start demo).
Proof.
  split.
  - apply (removeTrack_refused (demo_env 9000) "u2" (JString "tA") (start demo)
             {| conn_ws := 2%nat; conn_roomId := "r1" |} demo_room);
      [reflexivity | reflexivity |].
    intros tid i t [= <-] Hi Ht. vm_compute in Hi. injection Hi as <-.
    vm_compute in Ht. injection Ht as <-. split; discriminate.
  - apply (removeTrack_refused (demo_env 9000) "u2" (JString "nope") (start demo)
             {| conn_ws := 2%nat; conn_roomId := "r1" |} demo_room);
      [reflexivity | reflexivity |].
    intros tid i t [= <-] Hi. vm_compute in Hi. discriminate.
Defined.

Lemma queue_at_splice1_before q i j :
  (i < length q)%nat -> (Z.of_nat i < j)%Z ->
  queue_at (splice1 i q) (j - 1) = queue_at q j.
Proof.
  intros Hi Hj. unfold queue_at.
  assert (H1 : (0 <=? j - 1)%Z = true) by lia.
  assert (H2 : (0 <=? j)%Z = true) by lia.
  rewrite H1, H2, splice1_take_drop.
  rewrite lookup_app_r; rewrite length_take; [|lia].
  rewrite lookup_drop. f_equal. lia.
Qed.

Lemma queue_at_splice1_after q i j :
  (j < Z.of_nat i)%Z -> queue_at (splice1 i q) j = queue_at q j.
Proof.
  intros Hj. unfold queue_at. destruct (0 <=? j)%Z eqn:E; [|reflexivity].
  rewrite splice1_take_drop.
  destruct (decide (Z.to_nat j < length q)%nat) as [Hlt|Hge].
  - rewrite lookup_app_l by (rewrite length_take; lia).
    apply lookup_take_lt. lia.
  - rewrite (proj2 (lookup_ge_None q _)) by lia.
    apply lookup_ge_None. rewrite length_app, length_take, length_drop. lia.
Qed.

Lemma currentTrack_removed now i r :
  (i < length (queue r))%nat -> Z.of_nat i <> currentIndex r ->
  currentTrack (removed now i r) = currentTrack r /\
  playbackState (removed now i r) = playbackState r /\
  startedAt (removed now i r) = startedAt r /\
  elapsed (removed now i r) = elapsed r.
Proof.
  intros Hi Hne. unfold removed.
  destruct (Z.of_nat i <? currentIndex r)%Z eqn:E1.
  - split; [|repeat split; reflexivity].
    unfold currentTrack. cbn [currentIndex queue set_currentIndex set_queue].
    assert (H1 : (currentIndex r - 1 >=? 0)%Z = true) by lia.
    assert (H2 : (currentIndex r >=? 0)%Z = true) by lia.
    rewrite H1, H2. apply queue_at_splice1_before; [exact Hi | lia].
  - assert (E2 : (Z.of_nat i =? currentIndex r)%Z = false) by lia.
    rewrite E2. split; [|repeat split; reflexivity].
    unfold currentTrack. cbn [currentIndex queue set_queue].
    destruct (currentIndex r >=? 0)%Z; [|reflexivity].
    apply queue_at_splice1_after. lia.
Qed.

(** X11. Whatever sockets fail, a permitted [queue:remove] is carried out: if
    the room is still stored afterwards (a failing socket can make its
    last user leave), its queue has lost the track, and its index,
    state and clock are those of the fix-up; the evictions can only have
    taken votes away. *)
Theorem removeTrack_any_failure env u tid w c r i t :
  connections (mgr w) !! u = Some c ->
  rooms (mgr w) !! conn_roomId c = Some r ->
  findIndex tid (queue r) = Some i ->
  queue r !! i = Some t ->
  hostId r = Some u \/ addedBy t = u ->
  let fixed := removed (clock env (ticks w)) i r in
  exists w',
    removeTrack env u (JString tid) w = Returned tt w' /\
    forall r', rooms (mgr w') !! conn_roomId c = Some r' ->
      queue r' = (take i (queue r) ++ drop (S i) (queue r))%list /\
      currentIndex r' = currentIndex fixed /\
      playbackState r' = playbackState fixed /\
      startedAt r' = startedAt fixed /\ elapsed r' = elapsed fixed /\
      skipVotes r' ⊆ skipVotes fixed.
Proof.
  intros Hc Hr Hi Ht Hperm fixed.
  destruct (removeTrack_room_is env u tid w c r i t Hc Hr Hi Ht Hperm)
    as (w' & Hrun & His).
  exists w'. split; [exact Hrun|]. intros r' Hr'.
  destruct (His r' Hr') as (H1 & H2 & H3 & H4 & H5 & H6).
  split; [|repeat split; assumption].
  rewrite H1, <- splice1_take_drop. unfold removed.
  destruct (_ <? _)%Z; [reflexivity|]. destruct (_ =? _)%Z; [|reflexivity].
  cbn [queue set_queue]. destruct (_ =? _)%Z; [|destruct (_ >=? _)%Z];
    reflexivity.
Qed.

Lemma removeTrack_any_failure_witness :
  exists w',
    removeTrack (demo_env 9000) "u1" (JString "tB") (start demo)
      = Returned tt w' /\
    forall r', rooms (mgr w') !! "r1" = Some r' ->
      queue r' = [demo_track "tA" "u1"; demo_track "tC" "u2"] /\
      currentIndex r' = 1%Z.
Proof.
  destruct (removeTrack_any_failure (demo_env 9000) "u1" "tB" (start demo)
              {| conn_ws := 1%nat; conn_roomId := "r1" |} demo_room 1
              (demo_track "tB" "u2"))
    as (w' & Hrun & H); try reflexivity.
  - left. reflexivity.
  - exists w'. split; [exact Hrun|]. intros r' Hr'.
    destruct (H r' Hr') as (H1 & H2 & _). split; assumption.
Defined.

(** X12. Whatever sockets fail, the permitted removal of a track other than
    the current one does not disturb playback: the room, if it is still
    stored, has the same current track, state and clock as before. *)
Theorem removeTrack_keeps_current env u tid w c r i t :
  connections (mgr w) !! u = Some c ->
  rooms (mgr w) !! conn_roomId c = Some r ->
  findIndex tid (queue r) = Some i ->
  queue r !! i = Some t ->
  hostId r = Some u \/ addedBy t = u ->
  Z.of_nat i <> currentIndex r ->
  exists w',
    removeTrack env u (JString tid) w = Returned tt w' /\
    forall r', rooms (mgr w') !! conn_roomId c = Some r' ->
      currentTrack r' = currentTrack r /\
      playbackState r' = playbackState r /\
      startedAt r' = startedAt r /\ elapsed r' = elapsed r.
Proof.
  intros Hc Hr Hi Ht Hperm Hne.
  destruct (removeTrack_room_is env u tid w c r i t Hc Hr Hi Ht Hperm)
    as (w' & Hrun & His).
  exists w'. split; [exact Hrun|]. intros r' Hr'.
  destruct (His r' Hr') as (H1 & H2 & H3 & H4 & H5 & _).
  destruct (currentTrack_removed (clock env (ticks w)) i r
              (findIndex_lt _ _ _ Hi) Hne) as (G1 & G2 & G3 & G4).
  rewrite <- G1, <- G2, <- G3, <- G4.
  split; [|repeat split; assumption].
  unfold currentTrack. rewrite H1, H2. reflexivity.
Qed.

Lemma removeTrack_keeps_current_witness :
  exists w',
    removeTrack (demo_env 9000) "u1" (JString "tA") (start demo)
      = Returned tt w' /\
    forall r', rooms (mgr w') !! "r1" = Some r' ->
      currentTrack r' = Some (demo_track "tB" "u2").
Proof.
  destruct (removeTrack_keeps_current (demo_env 9000) "u1" "tA" (start demo)
              {| conn_ws := 1%nat; conn_roomId := "r1" |} demo_room 0
              (demo_track "tA" "u1"))
    as (w' & Hrun & H); try reflexivity.
  - left. reflexivity.
  - discriminate.
  - exists w'. split; [exact Hrun|]. intros r' Hr'.
    destruct (H r' Hr') as (H1 & _). exact H1.
Defined.

(** ** The schedule of a room under evictions

    Evictions write the users, the votes and the host of a room, or
    delete the room; they leave the schedule of every room alone. *)

Lemma same_schedule_refl r : same_schedule r r.
Proof. repeat split; reflexivity. Qed.

Lemma same_schedule_trans r1 r2 r3 :
  same_schedule r1 r2 -> same_schedule r2 r3 -> same_schedule r1 r3.
Proof.
  intros (A1 & A2 & A3 & A4 & A5 & A6) (B1 & B2 & B3 & B4 & B5 & B6).
  repeat split; congruence.
Qed.

Lemma schedule_is_alter roomId r f k m :
  (forall r0, same_schedule r0 (f r0)) ->
  schedule_is roomId r m -> schedule_is roomId r (set_rooms (alter f k (rooms m)) m).
Proof.
  intros Hf HP r'. cbn. rewrite lookup_alter_Some.
  intros [[-> (r0 & Hr0 & ->)] | [_ Hr0]]; [|eauto].
  eapply same_schedule_trans; [apply HP; exact Hr0 | apply Hf].
Qed.

Lemma schedule_is_put roomId r m :
  schedule_is roomId r (set_rooms (alter (fun _ => r) roomId (rooms m)) m).
Proof.
  intros r'. cbn. rewrite lookup_alter_Some.
  intros [[_ (r1 & _ & ->)] | [Hne _]]; [|congruence].
  apply same_schedule_refl.
Qed.

Section ScheduleIs.
Variable env : Env.
Variable roomId : RoomId.
Variable r : Room.

Lemma schedule_is_unbind m v c :
  schedule_is roomId r m -> schedule_is roomId r (unbind v c m).
Proof. intros H. exact H. Qed.

Lemma schedule_is_exit m v k c :
  schedule_is roomId r m -> schedule_is roomId r (exit_room v k (unbind v c m)).
Proof.
  intros H. unfold exit_room. apply schedule_is_alter; [|exact H].
  intros r0. repeat split; reflexivity.
Qed.

Lemma schedule_is_migrate m v k :
  schedule_is roomId r m ->
  schedule_is roomId r (set_rooms (alter (migrate_host v) k (rooms m)) m).
Proof.
  intros H. apply schedule_is_alter; [|exact H].
  intros r0. apply same_schedule_migrate.
Qed.

Lemma schedule_is_prune m k :
  schedule_is roomId r m -> schedule_is roomId r (set_rooms (delete k (rooms m)) m).
Proof.
  intros H r'. cbn. rewrite lookup_delete_Some. intros [_ Hr']. eauto.
Qed.

Lemma schedule_is_broadcastToRoom k payload ex w :
  schedule_is roomId r (mgr w) ->
  wp (broadcastToRoom env k payload ex)
     (fun _ w' => schedule_is roomId r (mgr w')) (fun _ => False) w.
Proof.
  apply (broadcastToRoom_wp env (schedule_is roomId r) (fun _ => True)
           (fun _ => False)).
  - trivial.
  - intros m v c H _ _ _. apply schedule_is_unbind, H.
  - intros m v c r0 H _ _ _. apply schedule_is_exit, H.
  - intros m v k0 H. apply schedule_is_migrate, H.
  - intros m k0 r0 H _ _. apply schedule_is_prune, H.
Qed.

Lemma schedule_is_broadcastPlaybackSync k w :
  schedule_is roomId r (mgr w) ->
  wp (broadcastPlaybackSync env k)
     (fun _ w' => schedule_is roomId r (mgr w')) (fun _ => False) w.
Proof.
  apply (broadcastPlaybackSync_wp env (schedule_is roomId r) (fun _ => True)
           (fun _ => False)).
  - trivial.
  - intros m v c H _ _ _. apply schedule_is_unbind, H.
  - intros m v c r0 H _ _ _. apply schedule_is_exit, H.
  - intros m v k0 H. apply schedule_is_migrate, H.
  - intros m k0 r0 H _ _. apply schedule_is_prune, H.
Qed.

Lemma schedule_is_sync_tail k payload w :
  schedule_is roomId r (mgr w) ->
  wp (broadcastToRoom env k payload None ;; broadcastPlaybackSync env k)
     (fun _ w' => schedule_is roomId r (mgr w')) (fun _ => False) w.
Proof.
  intros H. eapply wp_seq; [apply schedule_is_broadcastToRoom; exact H|].
  intros a w' H'. apply schedule_is_broadcastPlaybackSync. exact H'.
Qed.

End ScheduleIs.

(** ** The room of a user that no failing socket is bound to *)

Section Stays.
Variable env : Env.
Variable u : UserId.
Variable roomId : RoomId.

Lemma stays_bound m ws v :
  stays env u roomId m -> fails env ws = true -> wsToUser m !! ws = Some v ->
  v <> u.
Proof.
  intros [_ H] Hf Hv ->. rewrite (H ws Hv) in Hf. discriminate.
Qed.

Lemma stays_alter f k m :
  (forall r, u ∈ JsMap.keys (users r) -> u ∈ JsMap.keys (users (f r))) ->
  stays env u roomId m ->
  stays env u roomId (set_rooms (alter f k (rooms m)) m).
Proof.
  intros Hf [(r & Hr & Hu) Hws]. split; [|exact Hws]. cbn.
  destruct (decide (k = roomId)) as [->|Hne].
  - exists (f r). split; [|apply Hf; exact Hu].
    rewrite lookup_alter_eq, Hr. reflexivity.
  - exists r. split; [|exact Hu]. rewrite lookup_alter_ne by exact Hne.
    exact Hr.
Qed.

Lemma stays_unbind m v c :
  stays env u roomId m -> stays env u roomId (unbind v c m).
Proof.
  intros [Hr Hws]. split; [exact Hr|]. intros ws. cbn.
  rewrite lookup_delete_Some. intros [_ H]. apply Hws. exact H.
Qed.

Lemma stays_exit m v k c :
  stays env u roomId m -> v <> u ->
  stays env u roomId (exit_room v k (unbind v c m)).
Proof.
  intros H Hne. unfold exit_room.
  apply (stays_alter _ k (unbind v c m)); [|apply stays_unbind; exact H].
  intros r Hu. cbn. apply JsMap_keys_delete. split; [exact Hu | congruence].
Qed.

Lemma stays_migrate m v k :
  stays env u roomId m ->
  stays env u roomId (set_rooms (alter (migrate_host v) k (rooms m)) m).
Proof.
  apply stays_alter. intros r Hu. rewrite users_migrate_host. exact Hu.
Qed.

Lemma stays_prune m k r :
  stays env u roomId m -> rooms m !! k = Some r -> JsMap.size (users r) = O ->
  stays env u roomId (set_rooms (delete k (rooms m)) m).
Proof.
  intros [(r0 & Hr0 & Hu) Hws] Hr Hsz. split; [|exact Hws]. cbn.
  exists r0. split; [|exact Hu]. rewrite lookup_delete_ne; [exact Hr0|].
  intros ->. rewrite Hr in Hr0. injection Hr0 as ->.
  unfold JsMap.size, JsMap.keys in *. destruct (users r0); [|discriminate].
  inversion Hu.
Qed.

Lemma stays_put m r r' :
  stays env u roomId m -> rooms m !! roomId = Some r -> users r' = users r ->
  stays env u roomId (set_rooms (alter (fun _ => r') roomId (rooms m)) m).
Proof.
  intros [(r0 & Hr0 & Hu) Hws] Hr Hus. split; [|exact Hws]. cbn.
  exists r'. split; [rewrite lookup_alter_eq, Hr; reflexivity|].
  rewrite Hus. rewrite Hr in Hr0. injection Hr0 as ->. exact Hu.
Qed.

Lemma stays_broadcastToRoom k payload ex w :
  stays env u roomId (mgr w) ->
  wp (broadcastToRoom env k payload ex)
     (fun _ w' => stays env u roomId (mgr w')) (fun _ => False) w.
Proof.
  apply (broadcastToRoom_wp env (stays env u roomId) (fun v => v <> u)
           (fun _ => False)).
  - apply stays_bound.
  - intros m v c H _ _ _. apply stays_unbind, H.
  - intros m v c r0 H Hv _ _. apply stays_exit; assumption.
  - intros m v k0 H. apply stays_migrate, H.
  - intros m k0 r0. apply stays_prune.
Qed.

Lemma stays_broadcastPlaybackSync k w :
  stays env u roomId (mgr w) ->
  wp (broadcastPlaybackSync env k)
     (fun _ w' => stays env u roomId (mgr w')) (fun _ => False) w.
Proof.
  apply (broadcastPlaybackSync_wp env (stays env u roomId) (fun v => v <> u)
           (fun _ => False)).
  - apply stays_bound.
  - intros m v c H _ _ _. apply stays_unbind, H.
  - intros m v c r0 H Hv _ _. apply stays_exit; assumption.
  - intros m v k0 H. apply stays_migrate, H.
  - intros m k0 r0. apply stays_prune.
Qed.

Lemma stays_sync_tail k payload w :
  stays env u roomId (mgr w) ->
  wp (broadcastToRoom env k payload None ;; broadcastPlaybackSync env k)
     (fun _ w' => stays env u roomId (mgr w')) (fun _ => False) w.
Proof.
  intros H. eapply wp_seq; [apply stays_broadcastToRoom; exact H|].
  intros a w' H'. apply stays_broadcastPlaybackSync. exact H'.
Qed.

End Stays.

(** What a handler that has returned leaves of [stays]. *)
Lemma stays_returned env v k (c : M unit) w w' :
  wp c (fun _ w' => stays env v k (mgr w')) (fun _ => False) w ->
  c w = Returned tt w' ->
  exists r', rooms (mgr w') !! k = Some r' /\ v ∈ JsMap.keys (users r').
Proof.
  unfold wp. intros H Hrun. rewrite Hrun in H. apply H.
Qed.

(** ** [addTrack] *)

Lemma addTrack_schedule env u yt ti th w c r :
  connections (mgr w) !! u = Some c ->
  rooms (mgr w) !! conn_roomId c = Some r ->
  exists w',
    addTrack env u yt ti th w = Returned tt w' /\
    schedule_is (conn_roomId c)
      (added (clock env (ticks w)) (new_track env u yt ti th r) r) (mgr w').
Proof.
  intros Hc Hr. apply wp_returns_tt.
  unfold addTrack. wp_simp. rewrite Hc. wp_simp. rewrite Hr. wp_simp.
  unfold added, new_track. cbn [currentIndex set_queue].
  destruct (currentIndex r =? -1)%Z; wp_simp;
    rewrite wp_put_room_bind; apply schedule_is_sync_tail; cbn [mgr with_mgr];
    apply schedule_is_put.
Qed.

Lemma addTrack_stays env u yt ti th w c r v :
  connections (mgr w) !! u = Some c ->
  rooms (mgr w) !! conn_roomId c = Some r ->
  stays env v (conn_roomId c) (mgr w) ->
  wp (addTrack env u yt ti th)
     (fun _ w' => stays env v (conn_roomId c) (mgr w')) (fun _ => False) w.
Proof.
  intros Hc Hr Hs.
  unfold addTrack. wp_simp. rewrite Hc. wp_simp. rewrite Hr. wp_simp.
  cbn [currentIndex set_queue].
  destruct (currentIndex r =? -1)%Z; wp_simp;
    rewrite wp_put_room_bind; apply stays_sync_tail; cbn [mgr with_mgr];
    (eapply stays_put; [exact Hs | exact Hr | reflexivity]).
Qed.

(** X13. Whatever sockets fail, [addTrack] by a connected user puts a track
    with a drawn id, the given video, title and thumbnail and the user as
    its adder at the end of the queue.  When a track is scheduled,
    nothing else moves: same index, same current track, same state and
    clock.  The room is still stored afterwards, with [v] among its
    users, for every user [v] of it that no failing socket is bound to. *)
Theorem addTrack_appends env u yt ti th w c r :
  connections (mgr w) !! u = Some c ->
  rooms (mgr w) !! conn_roomId c = Some r ->
  let t := new_track env u yt ti th r in
  exists w',
    addTrack env u yt ti th w = Returned tt w' /\
    track_id t = nanoid env /\ youtubeId t = yt /\ title t = ti /\
    thumbnail t = th /\ addedBy t = u /\
    (forall usr, JsMap.get u (users r) = Some usr -> addedByName t = user_name usr) /\
    (forall r', rooms (mgr w') !! conn_roomId c = Some r' ->
       queue r' = (queue r ++ [t])%list /\
       ((0 <= currentIndex r < len (queue r))%Z ->
          currentIndex r' = currentIndex r /\ currentTrack r' = currentTrack r /\
          playbackState r' = playbackState r /\ startedAt r' = startedAt r /\
          elapsed r' = elapsed r)) /\
    (forall v, v ∈ JsMap.keys (users r) ->
       (forall ws, wsToUser (mgr w) !! ws = Some v -> fails env ws = false) ->
       exists r', rooms (mgr w') !! conn_roomId c = Some r' /\
                  v ∈ JsMap.keys (users r')).
Proof.
  intros Hc Hr t.
  destruct (addTrack_schedule env u yt ti th w c r Hc Hr) as (w' & Hrun & His).
  exists w'. split; [exact Hrun|]. do 5 (split; [reflexivity|]).
  split.
  { intros usr Hu. unfold t, new_track. cbn. rewrite Hu. reflexivity. }
  split.
  - intros r' Hr'. destruct (His r' Hr') as (H1 & H2 & H3 & H4 & H5 & _).
    fold t in H1, H2, H3, H4, H5. unfold added in *.
    destruct (currentIndex r =? -1)%Z eqn:E; cbn in H1, H2, H3, H4, H5.
    + split; [exact H1|]. intros Hci. apply Z.eqb_eq in E. lia.
    + split; [exact H1|]. intros Hci.
      split; [exact H2|]. split; [|repeat split; assumption].
      unfold currentTrack, queue_at. rewrite H1, H2.
      destruct (currentIndex r >=? 0)%Z; [|reflexivity].
      destruct (0 <=? currentIndex r)%Z; [|reflexivity].
      apply lookup_app_l. unfold len in Hci. lia.
  - intros v Hv Hws.
    apply (stays_returned env v (conn_roomId c) (addTrack env u yt ti th) w w');
      [|exact Hrun].
    apply (addTrack_stays env u yt ti th w c r v Hc Hr).
    split; [exists r; split; assumption | exact Hws].
Qed.

Lemma addTrack_appends_witness :
  exists w' r',
    addTrack (demo_env_failing 9000 1) "u2" "dQw4w9WgXcQ" (JNumber 123) "th"
      (start demo) = Returned tt w' /\
    rooms (mgr w') !! "r1" = Some r' /\
    length (queue r') = 4%nat /\ currentIndex r' = 1%Z /\
    JsMap.keys (users r') = ["u2"].
Proof.
  destruct (addTrack_appends (demo_env_failing 9000 1) "u2" "dQw4w9WgXcQ"
              (JNumber 123) "th" (start demo)
              {| conn_ws := 2%nat; conn_roomId := "r1" |} demo_room)
    as (w' & Hrun & _ & _ & _ & _ & _ & _ & H & Hst); try reflexivity.
  destruct (Hst "u2") as (r' & Hr' & _).
  { apply list_elem_of_further, list_elem_of_here. }
  { intros ws Hws. cbn in Hws. apply lookup_insert_Some in Hws.
    destruct Hws as [[_ Hws]|[Hne _]]; [discriminate|].
    cbn. apply Nat.eqb_neq. congruence. }
  exists w', r'. split; [exact Hrun|]. split; [exact Hr'|].
  destruct (H r' Hr') as (H1 & H2). split; [rewrite H1; reflexivity|].
  destruct H2 as [H2 _]; [vm_compute; split; [discriminate | reflexivity]|].
  split; [exact H2|].
  vm_compute in Hrun. injection Hrun as <-.
  vm_compute in Hr'. injection Hr' as <-. reflexivity.
Defined.

(** X14. Whatever sockets fail, [addTrack] into a room with nothing scheduled
    starts playback at index 0 at the clock reading, from position 0.
    The track played is the new one only if the queue was empty: when
    the queue had run out, its first track is played again.  The room is
    still stored afterwards for every user of it that no failing socket
    is bound to. *)
Theorem addTrack_starts_idle_room env u yt ti th w c r :
  connections (mgr w) !! u = Some c ->
  rooms (mgr w) !! conn_roomId c = Some r ->
  currentIndex r = (-1)%Z ->
  let t := new_track env u yt ti th r in
  exists w',
    addTrack env u yt ti th w = Returned tt w' /\
    (forall r', rooms (mgr w') !! conn_roomId c = Some r' ->
       currentIndex r' = 0%Z /\ playbackState r' = playing /\
       startedAt r' = Number_of_Z (clock env (ticks w)) /\
       elapsed r' = 0%float /\
       currentTrack r' = Some (hd t (queue r)) /\
       (queue r = [] -> currentTrack r' = Some t)) /\
    (forall v, v ∈ JsMap.keys (users r) ->
       (forall ws, wsToUser (mgr w) !! ws = Some v -> fails env ws = false) ->
       exists r', rooms (mgr w') !! conn_roomId c = Some r' /\
                  v ∈ JsMap.keys (users r')).
Proof.
  intros Hc Hr Hci t.
  destruct (addTrack_schedule env u yt ti th w c r Hc Hr) as (w' & Hrun & His).
  exists w'. split; [exact Hrun|]. split.
  - intros r' Hr'.
    destruct (His r' Hr') as (H1 & H2 & H3 & H4 & H5 & _).
    fold t in H1, H2, H3, H4, H5. unfold added in *.
    rewrite Hci in *. cbn in H1, H2, H3, H4, H5.
    do 4 (split; [assumption|]).
    assert (Hcur : currentTrack r' = Some (hd t (queue r))).
    { unfold currentTrack, queue_at. rewrite H1, H2. cbn.
      destruct (queue r); reflexivity. }
    split; [exact Hcur|]. intros Hq. rewrite Hcur, Hq. reflexivity.
  - intros v Hv Hws.
    apply (stays_returned env v (conn_roomId c) (addTrack env u yt ti th) w w');
      [|exact Hrun].
    apply (addTrack_stays env u yt ti th w c r v Hc Hr).
    split; [exists r; split; assumption | exact Hws].
Qed.

Lemma addTrack_starts_idle_room_witness :
  exists w' r',
    addTrack (demo_env_failing 9000 2) "u1" "dQw4w9WgXcQ" (JString "T") "th"
      (start (set_rooms {["r1" := set_currentIndex (-1) demo_room]} demo))
      = Returned tt w' /\
    rooms (mgr w') !! "r1" = Some r' /\
    currentIndex r' = 0%Z /\ playbackState r' = playing /\
    startedAt r' = 9000%float /\
    currentTrack r' = Some (demo_track "tA" "u1").
Proof.
  destruct (addTrack_starts_idle_room (demo_env_failing 9000 2) "u1"
              "dQw4w9WgXcQ" (JString "T") "th"
              (start (set_rooms {["r1" := set_currentIndex (-1) demo_room]} demo))
              {| conn_ws := 1%nat; conn_roomId := "r1" |}
              (set_currentIndex (-1) demo_room))
    as (w' & Hrun & H & Hst); try reflexivity.
  destruct (Hst "u1") as (r' & Hr' & _).
  { apply list_elem_of_here. }
  { intros ws Hws. cbn in Hws. apply lookup_insert_Some in Hws.
    destruct Hws as [[<- _]|[_ Hws]]; [reflexivity|].
    apply lookup_singleton_Some in Hws. destruct Hws as [_ Hws]. discriminate. }
  exists w', r'. split; [exact Hrun|]. split; [exact Hr'|].
  destruct (H r' Hr') as (H1 & H2 & H3 & _ & H5 & _).
  split; [exact H1|]. split; [exact H2|]. split; [|exact H5].
  rewrite H3. vm_compute. reflexivity.
Defined.

(** ** [seek] and [setCrossfade] *)

Lemma seek_schedule stn env u time w c r :
  connections (mgr w) !! u = Some c ->
  rooms (mgr w) !! conn_roomId c = Some r ->
  currentIndex r <> (-1)%Z ->
  exists w',
    seek stn env u time w = Returned tt w' /\
    schedule_is (conn_roomId c)
      (sought (clock env (ticks w)) (Math_max 0 (Number_or_0 stn time)) r)
      (mgr w').
Proof.
  intros Hc Hr Hci. apply wp_returns_tt.
  unfold seek, _roomForUser. wp_simp. rewrite Hc. wp_simp. rewrite Hr.
  cbn [option_map]. wp_simp.
  apply Z.eqb_neq in Hci. rewrite Hci. unfold sought.
  destruct (playbackState r); wp_simp; rewrite wp_put_room_bind;
    apply schedule_is_broadcastPlaybackSync; cbn [mgr with_mgr];
    apply schedule_is_put.
Qed.

Lemma seek_stays stn env u time w c r v :
  connections (mgr w) !! u = Some c ->
  rooms (mgr w) !! conn_roomId c = Some r ->
  stays env v (conn_roomId c) (mgr w) ->
  wp (seek stn env u time)
     (fun _ w' => stays env v (conn_roomId c) (mgr w')) (fun _ => False) w.
Proof.
  intros Hc Hr Hs.
  unfold seek, _roomForUser. wp_simp. rewrite Hc. wp_simp. rewrite Hr.
  cbn [option_map]. wp_simp.
  destruct (currentIndex r =? -1)%Z; wp_simp; [exact Hs|].
  destruct (playbackState r); wp_simp; rewrite wp_put_room_bind;
    apply stays_broadcastPlaybackSync; cbn [mgr with_mgr];
    (eapply stays_put; [exact Hs | exact Hr | reflexivity]).
Qed.

(** X15. Whatever sockets fail, a [playback:seek] of a connected user moves
    the room, when a track is scheduled, to [max(0, Number(time) || 0)]
    seconds: a paused room gets that time as [elapsed]; a playing room
    gets the anchor [startedAt = now - time * 1000], computed in
    binary64.  Queue, index and state stay.  The time is never negative
    and never [NaN]: a positive number, [Infinity] included, is taken as
    it is; a negative number, a zero, or a value whose number is [NaN]
    seeks to 0.  With nothing scheduled the frame is dropped.  The room
    is still stored afterwards for every user of it that no failing
    socket is bound to. *)
Theorem seek_position stn env u time w c r :
  connections (mgr w) !! u = Some c ->
  rooms (mgr w) !! conn_roomId c = Some r ->
  let t := Math_max 0 (Number_or_0 stn time) in
  let now := Number_of_Z (clock env (ticks w)) in
  (currentIndex r = (-1)%Z -> seek stn env u time w = Returned tt w) /\
  (currentIndex r <> (-1)%Z ->
   exists w',
     seek stn env u time w = Returned tt w' /\
     (forall r', rooms (mgr w') !! conn_roomId c = Some r' ->
        queue r' = queue r /\ currentIndex r' = currentIndex r /\
        playbackState r' = playbackState r /\
        (playbackState r = paused ->
           elapsed r' = t /\ startedAt r' = startedAt r) /\
        (playbackState r = playing ->
           startedAt r' = (now - t * 1000)%float /\ elapsed r' = elapsed r)) /\
     (forall v, v ∈ JsMap.keys (users r) ->
        (forall ws, wsToUser (mgr w) !! ws = Some v -> fails env ws = false) ->
        exists r', rooms (mgr w') !! conn_roomId c = Some r' /\
                   v ∈ JsMap.keys (users r'))) /\
  (0 <=? t)%float = true /\
  (forall q, time = JNumber q -> (0 <? q)%float = true -> t = q) /\
  (forall q, time = JNumber q -> (q <=? 0)%float = true -> t = 0%float) /\
  (is_nan (Number_ stn time) = true -> t = 0%float).
Proof.
  intros Hc Hr t now. split; [|split; [|apply seek_time_cases]].
  - intros Hci. unfold seek, _roomForUser, bind, gets, ret. rewrite Hc, Hr.
    cbn [option_map]. rewrite Hci. reflexivity.
  - intros Hci.
    destruct (seek_schedule stn env u time w c r Hc Hr Hci) as (w' & Hrun & His).
    exists w'. split; [exact Hrun|]. split.
    + intros r' Hr'.
      destruct (His r' Hr') as (H1 & H2 & H3 & H4 & H5 & _).
      fold t in H1, H2, H3, H4, H5. unfold sought in *.
      destruct (playbackState r) eqn:Hp; cbn in H1, H2, H3, H4, H5;
        rewrite ?Hp in H3;
        (split; [exact H1|]; split; [exact H2|]; split; [exact H3|]); split;
        try (intros; discriminate); intros _; split; assumption.
    + intros v Hv Hws.
      apply (stays_returned env v (conn_roomId c) (seek stn env u time) w w');
        [|exact Hrun].
      apply (seek_stays stn env u time w c r v Hc Hr).
      split; [exists r; split; assumption | exact Hws].
Qed.

Lemma seek_position_witness :
  exists w' r',
    seek (fun _ => nan) (demo_env_failing 9000 1) "u2" (JNumber 42) (start demo)
      = Returned tt w' /\
    rooms (mgr w') !! "r1" = Some r' /\
    startedAt r' = (-33000)%float /\ JsMap.keys (users r') = ["u2"].
Proof.
  destruct (seek_position (fun _ => nan) (demo_env_failing 9000 1) "u2"
              (JNumber 42) (start demo)
              {| conn_ws := 2%nat; conn_roomId := "r1" |} demo_room)
    as (_ & H & _); try reflexivity.
  destruct H as (w' & Hrun & H & Hst); [discriminate|].
  destruct (Hst "u2") as (r' & Hr' & _).
  { apply list_elem_of_further, list_elem_of_here. }
  { intros ws Hws. cbn in Hws. apply lookup_insert_Some in Hws.
    destruct Hws as [[_ Hws]|[Hne _]]; [discriminate|].
    cbn. apply Nat.eqb_neq. congruence. }
  exists w', r'. split; [exact Hrun|]. split; [exact Hr'|].
  destruct (H r' Hr') as (_ & _ & _ & _ & H5).
  destruct H5 as (H5 & _); [reflexivity|].
  split; [rewrite H5; vm_compute; reflexivity|].
  vm_compute in Hrun. injection Hrun as <-.
  vm_compute in Hr'. injection Hr' as <-. reflexivity.
Defined.

Lemma setCrossfade_schedule stn env u d w c r :
  connections (mgr w) !! u = Some c ->
  rooms (mgr w) !! conn_roomId c = Some r ->
  exists w',
    setCrossfade stn env u d w = Returned tt w' /\
    schedule_is (conn_roomId c)
      (set_crossfadeDuration (Math_max 0 (Math_min 8 (Number_or_0 stn d))) r)
      (mgr w').
Proof.
  intros Hc Hr. apply wp_returns_tt.
  unfold setCrossfade. wp_simp. rewrite Hc. wp_simp. rewrite Hr. wp_simp.
  rewrite wp_put_room_bind. apply schedule_is_broadcastToRoom.
  cbn [mgr with_mgr]. apply schedule_is_put.
Qed.

Lemma setCrossfade_stays stn env u d w c r v :
  connections (mgr w) !! u = Some c ->
  rooms (mgr w) !! conn_roomId c = Some r ->
  stays env v (conn_roomId c) (mgr w) ->
  wp (setCrossfade stn env u d)
     (fun _ w' => stays env v (conn_roomId c) (mgr w')) (fun _ => False) w.
Proof.
  intros Hc Hr Hs.
  unfold setCrossfade. wp_simp. rewrite Hc. wp_simp. rewrite Hr. wp_simp.
  rewrite wp_put_room_bind. apply stays_broadcastToRoom.
  cbn [mgr with_mgr]. eapply stays_put; [exact Hs | exact Hr | reflexivity].
Qed.

(** X16. Whatever sockets fail, a [crossfade:set] of any connected user, host
    or not, stores [Number(duration) || 0] clamped into [0, 8] as the
    crossfade of its room and leaves queue and playback alone: a
    positive number up to 8 is stored as it is, a larger one, [Infinity]
    included, as 8, and a negative number, a zero or a value whose
    number is [NaN] as 0.  The room is still stored afterwards for every
    user of it that no failing socket is bound to. *)
Theorem setCrossfade_clamps stn env u d w c r :
  connections (mgr w) !! u = Some c ->
  rooms (mgr w) !! conn_roomId c = Some r ->
  let x := Math_max 0 (Math_min 8 (Number_or_0 stn d)) in
  exists w',
    setCrossfade stn env u d w = Returned tt w' /\
    (forall r', rooms (mgr w') !! conn_roomId c = Some r' ->
       crossfadeDuration r' = x /\ queue r' = queue r /\
       currentIndex r' = currentIndex r /\ playbackState r' = playbackState r /\
       startedAt r' = startedAt r /\ elapsed r' = elapsed r) /\
    (forall v, v ∈ JsMap.keys (users r) ->
       (forall ws, wsToUser (mgr w) !! ws = Some v -> fails env ws = false) ->
       exists r', rooms (mgr w') !! conn_roomId c = Some r' /\
                  v ∈ JsMap.keys (users r')) /\
    (0 <=? x)%float = true /\ (x <=? 8)%float = true /\
    (forall q, d = JNumber q ->
       (0 <? q)%float = true -> (q <=? 8)%float = true -> x = q) /\
    (forall q, d = JNumber q -> (8 <=? q)%float = true -> x = 8%float) /\
    (forall q, d = JNumber q -> (q <=? 0)%float = true -> x = 0%float) /\
    (is_nan (Number_ stn d) = true -> x = 0%float).
Proof.
  intros Hc Hr x.
  destruct (setCrossfade_schedule stn env u d w c r Hc Hr) as (w' & Hrun & His).
  exists w'. split; [exact Hrun|]. split.
  { intros r' Hr'. destruct (His r' Hr') as (H1 & H2 & H3 & H4 & H5 & H6).
    repeat split; assumption. }
  split.
  { intros v Hv Hws.
    apply (stays_returned env v (conn_roomId c) (setCrossfade stn env u d) w w');
      [|exact Hrun].
    apply (setCrossfade_stays stn env u d w c r v Hc Hr).
    split; [exists r; split; assumption | exact Hws]. }
  split; [apply clamp_bounds, Number_or_0_not_nan|].
  split; [apply clamp_bounds, Number_or_0_not_nan|].
  apply clamp_number.
Qed.

Lemma setCrossfade_clamps_witness :
  exists w' r',
    setCrossfade (fun _ => nan) (demo_env_failing 9000 1) "u2"
      (JNumber infinity) (start demo) = Returned tt w' /\
    rooms (mgr w') !! "r1" = Some r' /\
    crossfadeDuration r' = 8%float /\ JsMap.keys (users r') = ["u2"].
Proof.
  destruct (setCrossfade_clamps (fun _ => nan) (demo_env_failing 9000 1) "u2"
              (JNumber infinity) (start demo)
              {| conn_ws := 2%nat; conn_roomId := "r1" |} demo_room)
    as (w' & Hrun & H & Hst & _ & _ & _ & H8 & _); try reflexivity.
  destruct (Hst "u2") as (r' & Hr' & _).
  { apply list_elem_of_further, list_elem_of_here. }
  { intros ws Hws. cbn in Hws. apply lookup_insert_Some in Hws.
    destruct Hws as [[_ Hws]|[Hne _]]; [discriminate|].
    cbn. apply Nat.eqb_neq. congruence. }
  exists w', r'. split; [exact Hrun|]. split; [exact Hr'|].
  destruct (H r' Hr') as (H1 & _).
  split; [rewrite H1; apply (H8 infinity); reflexivity|].
  vm_compute in Hrun. injection Hrun as <-.
  vm_compute in Hr'. injection Hr' as <-. reflexivity.
Defined.

(** ** The dispatcher *)

(** X17. A socket that no user is bound to can only join: every other frame
    it sends, and its closing, leave the manager as it is, deliver
    nothing and do not read the clock. *)
Theorem message_before_join nts stn env eyt ws msg w :
  wsToUser (mgr w) !! ws = None ->
  (forall roomId userName, msg <> join roomId userName) ->
  message nts stn env eyt ws msg w = Returned tt w /\
  close env ws w = Returned tt w.
Proof.
  intros Hws Hmsg. split.
  - unfold message, bind, gets. rewrite Hws.
    destruct msg; try reflexivity. exfalso. eapply Hmsg. reflexivity.
  - unfold close, leaveByWs, bind, gets. rewrite Hws. reflexivity.
Qed.

Lemma message_before_join_witness :
  message (fun _ => "") (fun _ => nan) (demo_env 9000) (fun _ => None) 7
    (chat_text (JString "hello")) (start demo) = Returned tt (start demo) /\
  close (demo_env 9000) 7 (start demo) = Returned tt (start demo).
Proof.
  apply (message_before_join (fun _ => "") (fun _ => nan) (demo_env 9000)
           (fun _ => None) 7%nat (chat_text (JString "hello")) (start demo)).
  - reflexivity.
  - intros roomId userName. discriminate.
Defined.

(** X18. A [queue:add] of a bound socket whose url the parser rejects is
    answered by one [room:error] frame, sent to the socket of the user's
    connection entry, and changes nothing; one whose url the parser
    accepts changes nothing and sends nothing before the metadata have
    arrived. *)
Theorem queue_add_invalid nts stn env eyt ws u c url w :
  wsToUser (mgr w) !! ws = Some u -> u <> "" ->
  connections (mgr w) !! u = Some c ->
  fails env (conn_ws c) = false ->
  (eyt url = None ->
   message nts stn env eyt ws (queue_add url) w
   = Returned tt (log w [(conn_ws c, room_error "Invalid YouTube URL")])) /\
  (forall id, eyt url = Some id ->
   message nts stn env eyt ws (queue_add url) w = Returned tt w).
Proof.
  intros Hws Hu Hc Hok.
  assert (Ht : JsString.truthy u = true) by (destruct u; [congruence | reflexivity]).
  split; [intros He | intros id He];
    unfold message, handleQueueAdd, bind, gets; rewrite Hws, Ht, Hc, He.
  - apply sendTo_with_ok. exact Hok.
  - reflexivity.
Qed.

Lemma queue_add_invalid_witness :
  message (fun _ => "") (fun _ => nan) (demo_env 9000) (fun _ => None) 2
    (queue_add (JString "not a video")) (start demo)
  = Returned tt
      (log (start demo) [(2%nat, room_error "Invalid YouTube URL")]).
Proof.
  apply (queue_add_invalid (fun _ => "") (fun _ => nan) (demo_env 9000)
           (fun _ => None) 2%nat "u2"
           {| conn_ws := 2%nat; conn_roomId := "r1" |}
           (JString "not a video") (start demo));
    try reflexivity.
  discriminate.
Defined.

(** ** [joinRoom] *)

(** X19. A [join] that names no stored room (or whose [roomId] is not a
    string) is answered by one [room:error] frame to the socket and
    changes nothing; no user is created, whatever the name. *)
Theorem joinRoom_unknown_room env roomId userName ws w :
  fails env ws = false ->
  (forall k, roomId = JString k -> rooms (mgr w) !! k = None) ->
  joinRoom env roomId userName ws w
  = Returned tt (log w [(ws, room_error "Room not found")]).
Proof.
  intros Hok Hno. unfold joinRoom, bind, gets.
  destruct roomId as [| |b|q|k|o]; cbn [as_key mbind option_bind];
    try (apply sendTo_with_ok; exact Hok).
  rewrite (Hno k eq_refl). apply sendTo_with_ok. exact Hok.
Qed.

Lemma joinRoom_unknown_room_witness :
  joinRoom (demo_env 9000) (JString "r9") (JString "carol") 3 (start demo)
  = Returned tt (log (start demo) [(3%nat, room_error "Room not found")]).
Proof.
  apply (joinRoom_unknown_room (demo_env 9000) (JString "r9") (JString "carol")
           3%nat (start demo)).
  - reflexivity.
  - intros k [= <-]. reflexivity.
Defined.

(** X20. A [join] into a stored room under a name that is truthy and not a
    string (a number, [true], an object) raises the [TypeError] of
    [.trim] before anything is written: the manager is as before and
    nothing is sent. *)
Theorem joinRoom_bad_name env k userName ws w r :
  rooms (mgr w) !! k = Some r ->
  truthy userName = true -> (forall s, userName <> JString s) ->
  joinRoom env (JString k) userName ws w = Thrown w.
Proof.
  intros Hr Ht Hs. unfold joinRoom, bind, gets.
  cbn [as_key mbind option_bind]. rewrite Hr. unfold or_else. rewrite Ht.
  destruct userName; try reflexivity. exfalso. eapply Hs. reflexivity.
Qed.

Lemma joinRoom_bad_name_witness :
  joinRoom (demo_env 9000) (JString "r1") (JNumber 42) 3 (start demo)
  = Thrown (start demo).
Proof.
  apply (joinRoom_bad_name (demo_env 9000) "r1" (JNumber 42) 3%nat (start demo)
           demo_room).
  - reflexivity.
  - reflexivity.
  - intros s. discriminate.
Defined.

Lemma fanout_excluded m k ws p x f :
  (x, f) ∈ fanout m k (Some ws) p -> x <> ws /\ f = p.
Proof.
  unfold fanout, recipients. intros H. apply list_elem_of_fmap in H.
  destruct H as (y & [= -> ->] & Hy). split; [|reflexivity].
  destruct (rooms m !! k) as [room|]; [|inversion Hy].
  apply list_elem_of_omap in Hy. destruct Hy as (v & _ & Hv).
  destruct (connections m !! v) as [cv|]; [|discriminate].
  destruct (decide (Some ws = Some (conn_ws cv))) as [He|He]; [discriminate|].
  injection Hv as <-. congruence.
Qed.

(** X21. When no send fails, a [join] into a stored room under a name that
    is a string or falsy seats the new user: the user becomes host
    exactly when the room had no users, and otherwise the host stays;
    the joiner is sent one [room:state] whose user list already ends
    with the joiner and whose host is the host just described; then
    every other connected user of the room, and never the joining
    socket, is sent [user:joined].  The avatar colour is the palette
    entry at the number of users the room had, modulo 12. *)
Theorem joinRoom_welcome env k userName ws w r s :
  (forall ws', fails env ws' = false) ->
  rooms (mgr w) !! k = Some r ->
  or_else userName (JString "Anonymous") = JString s ->
  nanoid env ∉ JsMap.keys (users r) ->
  let u := nanoid env in
  let usr := new_user env s r in
  exists w' r' sr,
    joinRoom env (JString k) userName ws w = Returned tt w' /\
    rooms (mgr w') !! k = Some r' /\
    connections (mgr w') !! u = Some {| conn_ws := ws; conn_roomId := k |} /\
    wsToUser (mgr w') !! ws = Some u /\
    JsMap.keys (users r') = (JsMap.keys (users r) ++ [u])%list /\
    (users r = [] -> hostId r' = Some u) /\
    (users r <> [] -> hostId r' = hostId r) /\
    color usr = nth (JsMap.size (users r) mod 12) USER_COLORS "" /\
    sent w' = (sent w ++ (ws, room_state sr u)
                 :: fanout (mgr w') k (Some ws) (user_joined usr))%list /\
    s_users sr = (JsMap.values (users r) ++ [usr])%list /\
    s_hostId sr = hostId r' /\
    forall x f, (x, f) ∈ fanout (mgr w') k (Some ws) (user_joined usr) ->
      x <> ws /\ f = user_joined usr.
Proof.
  intros Hok Hr Hs Hfresh u usr.
  set (r2 := seat_user u usr r).
  assert (Hrun : exists w',
    joinRoom env (JString k) userName ws w = Returned tt w' /\
    mgr w' = joined ws k u r2 (mgr w) /\
    exists sr,
      sent w' = (sent w ++ (ws, room_state sr u)
                   :: fanout (mgr w') k (Some ws) (user_joined usr))%list /\
      s_users sr = JsMap.values (users r2) /\ s_hostId sr = hostId r2).
  { apply wp_returns_tt.
    unfold joinRoom. wp_simp. cbn [as_key mbind option_bind]. rewrite Hr, Hs.
    rewrite wp_put_room_bind. wp_simp. unfold serializeRoom, position.
    destruct (playbackState _); wp_ok Hok;
      (split; [reflexivity|]; eexists;
       split; [cbn [sent log]; rewrite <- app_assoc; reflexivity|];
       split; reflexivity). }
  destruct Hrun as (w' & Hrun & Hm & sr & Hsent & Hsu & Hsh).
  assert (Hvals : forall (us : JsMap.t User),
            u ∉ JsMap.keys us ->
            JsMap.values (JsMap.set u usr us) = (JsMap.values us ++ [usr])%list).
  { intros us. unfold JsMap.values, JsMap.keys.
    induction us as [|[k0 v0] us IH]; cbn; [reflexivity|].
    intros Hnot. destruct (decide (k0 = u)) as [->|Hne].
    - exfalso. apply Hnot. left.
    - cbn. rewrite IH; [reflexivity|]. intros H. apply Hnot. right. exact H. }
  exists w', r2, sr. split; [exact Hrun|].
  split; [rewrite Hm; cbn; rewrite lookup_alter_eq, Hr; reflexivity|].
  split; [rewrite Hm; apply lookup_insert_eq|].
  split; [rewrite Hm; apply lookup_insert_eq|].
  assert (Hkeys : JsMap.keys (users r2) = (JsMap.keys (users r) ++ [u])%list).
  { unfold r2, seat_user.
    destruct (_ =? _)%nat; cbn [users set_users set_hostId];
      apply JsMap_keys_set_absent; exact Hfresh. }
  assert (Hv2 : JsMap.values (users r2) = (JsMap.values (users r) ++ [usr])%list).
  { unfold r2, seat_user.
    destruct (_ =? _)%nat; cbn [users set_users set_hostId];
      apply Hvals; exact Hfresh. }
  split; [exact Hkeys|].
  split.
  { intros He. unfold r2, seat_user. rewrite He. reflexivity. }
  split.
  { intros Hne. unfold r2, seat_user.
    destruct (JsMap.size (users r) =? 0)%nat eqn:E; [|reflexivity].
    apply Nat.eqb_eq in E. destruct (users r); [congruence | discriminate]. }
  split; [reflexivity|]. split; [exact Hsent|].
  split; [rewrite Hsu; exact Hv2|].
  split; [exact Hsh|]. intros x f. apply fanout_excluded.
Qed.

Lemma joinRoom_welcome_witness :
  exists w' r',
    joinRoom (demo_env 9000) (JString "r1") (JString " carol ") 3 (start demo)
      = Returned tt w' /\
    rooms (mgr w') !! "r1" = Some r' /\
    JsMap.keys (users r') = ["u1"; "u2"; "fresh"] /\
    hostId r' = Some "u1".
Proof.
  destruct (joinRoom_welcome (demo_env 9000) "r1" (JString " carol ") 3%nat
              (start demo) demo_room " carol ")
    as (w' & r' & sr & Hrun & Hr' & _ & _ & Hk & _ & Hh & _).
  - intros ws'. reflexivity.
  - reflexivity.
  - reflexivity.
  - intros H. vm_compute in H. repeat (apply elem_of_cons in H; destruct H as [H|H];
      [discriminate|]). inversion H.
  - exists w', r'. split; [exact Hrun|]. split; [exact Hr'|].
    split; [exact Hk|]. apply Hh. discriminate.
Defined.

(** ** Names *)

Lemma slice0_nonempty n s :
  s <> "" -> JsString.slice0 (S n) s <> "".
Proof. destruct s; [congruence | discriminate]. Qed.

Lemma truthy_nonempty s : JsString.truthy s = true <-> s <> "".
Proof. destruct s; cbn; split; congruence. Qed.

Lemma createRoom_returns env name w id roomName w' :
  createRoom env name w = Returned (id, roomName) w' ->
  id = nanoid env /\
  ((exists s, name = JString s /\ JsString.trim s <> "" /\
              roomName = JsString.slice0 64 (JsString.trim s)) \/
   ((truthy name = false \/
     exists s, name = JString s /\ JsString.trim s = "") /\
    roomName = "Room " ++ nanoid env)).
Proof.
  unfold createRoom. intros Hrun.
  destruct name as [| |b|q|s|o]; cbn [truthy] in Hrun;
    try destruct b;
    try destruct (negb (is_nan q || is_zero q)) eqn:Eq;
    try destruct (JsString.truthy s) eqn:Es;
    try destruct (JsString.truthy (JsString.trim s)) eqn:E;
    unfold bind, ret, Date_now, modify, throw in Hrun;
    try discriminate;
    injection Hrun as <- <- _; (split; [reflexivity|]);
    try (right; split; [left; cbn [truthy]; try rewrite Eq; try rewrite Es;
                        reflexivity
                       | reflexivity]).
  - left. exists s. split; [reflexivity|].
    split; [apply truthy_nonempty; exact E | reflexivity].
  - right. split; [|reflexivity]. right. exists s. split; [reflexivity|].
    destruct (JsString.trim s); [reflexivity | discriminate].
Qed.

(** X23. The name of a created room is never empty: it is the given name
    trimmed and cut to 64 characters when that name is a string with a
    character that is not white space, and ["Room " ++ id] for an absent,
    falsy, empty or white-space-only name; the id returned is the one
    drawn. *)
Theorem createRoom_name env name w id roomName w' :
  createRoom env name w = Returned (id, roomName) w' ->
  id = nanoid env /\ roomName <> "" /\
  ((String.length roomName <= 64)%nat \/ roomName = "Room " ++ id) /\
  (forall s, name = JString s -> JsString.trim s <> "" ->
     roomName = JsString.slice0 64 (JsString.trim s)) /\
  (truthy name = false \/
   (exists s, name = JString s /\ JsString.all_space s = true) ->
   roomName = "Room " ++ id).
Proof.
  intros Hrun.
  destruct (createRoom_returns _ _ _ _ _ _ Hrun) as [-> Hcase].
  split; [reflexivity|].
  destruct Hcase as [(s & -> & Hne & ->) | [Hblank ->]].
  - split; [apply slice0_nonempty; exact Hne|].
    split; [left; apply slice0_length|].
    split; [intros s' [= <-] _; reflexivity|].
    intros [Hf | (s' & [= <-] & Hsp)].
    + cbn in Hf. apply negb_false_iff in Hf. destruct s; [|discriminate].
      cbn in Hne. congruence.
    + rewrite trim_all_space in Hne by exact Hsp. congruence.
  - split; [discriminate|]. split; [right; reflexivity|].
    split; [|reflexivity].
    intros s -> Hne. destruct Hblank as [Hf | (s' & [= <-] & He)].
    + cbn in Hf. apply negb_false_iff in Hf. destruct s; [|discriminate].
      cbn in Hne. congruence.
    + congruence.
Qed.

Lemma createRoom_name_witness :
  exists w',
    createRoom (demo_env 1000) (JString "   ") (start constructor_)
    = Returned ("fresh", "Room fresh") w'.
Proof.
  destruct (createRoom_cases (demo_env 1000) (JString "   ") (start constructor_))
    as [(rn & Hrun) | (Hrun & _)]; [|discriminate].
  destruct (createRoom_name _ _ _ _ _ _ Hrun) as (_ & _ & _ & _ & Hd).
  rewrite Hd in Hrun; [eexists; exact Hrun|].
  right. exists "   ". split; reflexivity.
Defined.

Lemma joinRoom_name_witness :
  exists w' r' usr,
    joinRoom (demo_env 9000) (JString "r1")
      (JString "  a name of more than twenty-four characters  ") 3 (start demo)
      = Returned tt w' /\
    rooms (mgr w') !! "r1" = Some r' /\
    JsMap.get "fresh" (users r') = Some usr /\
    user_name usr = "a name of more than twen".
Proof.
  destruct (joinRoom_name (demo_env 9000) "r1"
              (JString "  a name of more than twenty-four characters  ") 3%nat
              (start demo) demo_room)
    as (w' & r' & usr & H1 & H2 & H3 & _ & _ & H6 & _).
  - intros ws'. reflexivity.
  - reflexivity.
  - right. eexists. reflexivity.
  - exists w', r', usr. split; [exact H1|]. split; [exact H2|].
    split; [exact H3|]. rewrite (H6 _ eq_refl); [reflexivity | discriminate].
Defined.

Lemma consistent_after_every_event_witness :
  exists m,
    run_events (fun _ => "") (fun _ => nan) (fun _ => None) demo_run
      constructor_ = Some m /\
    forall ws v, wsToUser m !! ws = Some v ->
      exists c, connections m !! v = Some c /\ conn_ws c = ws.
Proof.
  destruct (consistent_after_every_event (fun _ => "") (fun _ => nan)
              (fun _ => None) demo_run) as (m & Hrun & _ & _ & H).
  - vm_compute. repeat split; reflexivity.
  - exists m. split; [exact Hrun | exact H].
Defined.

(** ** The URL parser of [youtube.js] *)

Import YouTube.

Lemma id_char_plain c :
  is_id_char c = true ->
  JsString.is_space c = false /\ Ascii.eqb c "?" = false /\
  Ascii.eqb c "#" = false /\ Ascii.eqb c "/" = false.
Proof.
  destruct c as [[] [] [] [] [] [] [] []]; vm_compute; intros H;
    try discriminate; repeat split.
Qed.

Lemma matches_id_spec s :
  matches_id s = true <-> String.length s = 11%nat /\ all_id_chars s = true.
Proof.
  unfold matches_id. rewrite andb_true_iff, Nat.eqb_eq. reflexivity.
Qed.

Lemma matches_id_nonempty s : matches_id s = true -> JsString.truthy s = true.
Proof.
  intros H. apply matches_id_spec in H. destruct H as [H _].
  destruct s; [discriminate | reflexivity].
Qed.

Lemma trimEnd_id s : all_id_chars s = true -> JsString.trimEnd s = s.
Proof.
  induction s as [|c s IH]; cbn; [reflexivity|].
  intros H. apply andb_true_iff in H. destruct H as [Hc Hs].
  destruct (id_char_plain c Hc) as (Hsp & _). rewrite Hsp, IH by exact Hs.
  reflexivity.
Qed.

Lemma trim_id s : all_id_chars s = true -> JsString.trim s = s.
Proof.
  intros H. unfold JsString.trim.
  assert (Hs : JsString.trimStart s = s).
  { destruct s as [|c s]; cbn; [reflexivity|].
    cbn in H. apply andb_true_iff in H. destruct H as [Hc _].
    destruct (id_char_plain c Hc) as (Hsp & _). rewrite Hsp. reflexivity. }
  rewrite Hs. apply trimEnd_id. exact H.
Qed.

Lemma before_query_id s : all_id_chars s = true -> before_query s = s.
Proof.
  induction s as [|c s IH]; cbn; [reflexivity|].
  intros H. apply andb_true_iff in H. destruct H as [Hc Hs].
  destruct (id_char_plain c Hc) as (_ & H1 & H2 & _).
  rewrite H1, H2, IH by exact Hs. reflexivity.
Qed.

Lemma split_slash_nonempty s : split_slash s <> [].
Proof.
  induction s as [|c s IH]; cbn; [discriminate|].
  destruct (Ascii.eqb c "/"); [discriminate|].
  destruct (split_slash s); discriminate.
Qed.

Lemma append_cons c s t : String c s ++ t = String c (s ++ t).
Proof. reflexivity. Qed.

Lemma prefix_nil s : String.prefix "" s = true.
Proof. destruct s; reflexivity. Qed.

Lemma append_nil_l s : "" ++ s = s.
Proof. reflexivity. Qed.

Lemma append_nil_r s : s ++ "" = s.
Proof.
  induction s as [|c s IH]; [reflexivity|]. rewrite append_cons, IH. reflexivity.
Qed.

Lemma split_slash_id s rest :
  all_id_chars s = true ->
  split_slash s = [s] /\
  split_slash (s ++ String "/" rest) = s :: split_slash rest.
Proof.
  induction s as [|c s IH]; [split; reflexivity|].
  intros H. cbn in H. apply andb_true_iff in H. destruct H as [Hc Hs].
  destruct (id_char_plain c Hc) as (_ & _ & _ & H3).
  destruct (IH Hs) as [E1 E2].
  rewrite append_cons. cbn [split_slash]. rewrite H3, E1, E2.
  split; reflexivity.
Qed.

Section Parser.
Variable new_URL : string -> option URL.

Lemma segment_id_sound p id : segment_id p = Some id -> isValidId id = true.
Proof.
  unfold segment_id. destruct (split_slash p !! 2%nat) as [seg|]; [|discriminate].
  destruct (JsString.truthy _ && isValidId _) eqn:E; [|discriminate].
  intros [= <-]. apply andb_true_iff in E. apply E.
Qed.

Lemma extractYouTubeId_raw s :
  matches_id (JsString.trim s) = true ->
  extractYouTubeId new_URL (JString s) = Some (JsString.trim s).
Proof.
  intros H. unfold extractYouTubeId.
  assert (Hs : JsString.truthy s = true).
  { destruct s; [discriminate | reflexivity]. }
  rewrite Hs, H. reflexivity.
Qed.

Lemma extractYouTubeId_valid input id :
  extractYouTubeId new_URL input = Some id -> matches_id id = true.
Proof.
  intros H. unfold extractYouTubeId in H.
  destruct input as [| |b|q|s|o]; try discriminate.
  destruct (JsString.truthy s); [|discriminate]. cbn [negb] in H.
  destruct (matches_id (JsString.trim s)) eqn:Hraw;
    [injection H as <-; exact Hraw|].
  destruct (new_URL _) as [url|]; [|discriminate].
  destruct (String.eqb _ "youtu.be").
  { destruct (isValidId _) eqn:E; [|discriminate]. injection H as <-. exact E. }
  destruct (_ || _); [|discriminate].
  destruct (_ || _).
  - destruct (searchParams_get url "v") as [v|]; [|discriminate].
    destruct (JsString.truthy v && isValidId v) eqn:E; [|discriminate].
    injection H as <-. apply andb_true_iff in E. apply E.
  - destruct (startsWith "/embed/" _); [eapply segment_id_sound; exact H|].
    destruct (startsWith "/shorts/" _); [eapply segment_id_sound; exact H|].
    destruct (startsWith "/v/" _);
      [eapply segment_id_sound; exact H | discriminate].
Qed.

(** X24. Whatever the URL parser of the runtime answers, an id that
    [extractYouTubeId] returns has 11 characters of [[A-Za-z0-9_-]]; the
    input was a non-empty string; and either the id is the trimmed input
    itself, or the input, with [https://] put before it unless it starts
    with a scheme, parsed as a URL whose host without a leading [www.] is
    [youtu.be], [youtube.com] or [music.youtube.com]. *)
Theorem extractYouTubeId_sound input id :
  extractYouTubeId new_URL input = Some id ->
  isValidId id = true /\ String.length id = 11%nat /\
  exists s, input = JString s /\ s <> "" /\
    (id = JsString.trim s \/
     exists url host,
       new_URL (withProto (JsString.trim s)) = Some url /\
       host = replace_prefix "www." (hostname url) /\
       (host = "youtu.be" \/ host = "youtube.com" \/
        host = "music.youtube.com")).
Proof.
  intros H.
  assert (Hv : isValidId id = true /\
    exists s, input = JString s /\ s <> "" /\
      (id = JsString.trim s \/
       exists url host,
         new_URL (withProto (JsString.trim s)) = Some url /\
         host = replace_prefix "www." (hostname url) /\
         (host = "youtu.be" \/ host = "youtube.com" \/
          host = "music.youtube.com"))).
  { unfold extractYouTubeId in H.
    destruct input as [| |b|q|s|o]; try discriminate.
    destruct (JsString.truthy s) eqn:Hs; [|discriminate]. cbn [negb] in H.
    apply truthy_nonempty in Hs.
    destruct (matches_id (JsString.trim s)) eqn:Hraw.
    { injection H as <-. split; [exact Hraw|]. exists s. auto. }
    destruct (new_URL (withProto (JsString.trim s))) as [url|] eqn:Hurl;
      [|discriminate].
    destruct (String.eqb (replace_prefix "www." (hostname url)) "youtu.be")
      eqn:Hh1.
    { apply String.eqb_eq in Hh1.
      destruct (isValidId _) eqn:E; [|discriminate]. injection H as <-.
      split; [exact E|]. exists s. split; [reflexivity|]. split; [exact Hs|].
      right. exists url, "youtu.be". auto. }
    destruct (String.eqb _ "youtube.com" || String.eqb _ "music.youtube.com")
      eqn:Hh2; [|discriminate].
    assert (Hhost : exists url0 host,
              new_URL (withProto (JsString.trim s)) = Some url0 /\
              host = replace_prefix "www." (hostname url0) /\
              (host = "youtu.be" \/ host = "youtube.com" \/
               host = "music.youtube.com")).
    { exists url, (replace_prefix "www." (hostname url)).
      split; [exact Hurl|]. split; [reflexivity|]. right.
      apply orb_true_iff in Hh2.
      destruct Hh2 as [E|E]; apply String.eqb_eq in E; auto. }
    assert (Hfin : isValidId id = true).
    { destruct (String.eqb (pathname url) "/watch"
                || startsWith "/watch?" (pathname url)).
      - destruct (searchParams_get url "v") as [v|]; [|discriminate].
        destruct (JsString.truthy v && isValidId v) eqn:E; [|discriminate].
        injection H as <-. apply andb_true_iff in E. apply E.
      - destruct (startsWith "/embed/" (pathname url));
          [eapply segment_id_sound; exact H|].
        destruct (startsWith "/shorts/" (pathname url));
          [eapply segment_id_sound; exact H|].
        destruct (startsWith "/v/" (pathname url));
          [eapply segment_id_sound; exact H | discriminate]. }
    split; [exact Hfin|]. exists s. split; [reflexivity|]. split; [exact Hs|].
    right. exact Hhost. }
  destruct Hv as [Hv Hs]. split; [exact Hv|]. split; [|exact Hs].
  apply matches_id_spec in Hv. apply Hv.
Qed.

(** X25. An id that [extractYouTubeId] returns is accepted as an input, bare
    or surrounded by white space, and is returned for it: the parser is
    idempotent, whatever the URL parser of the runtime answers. *)
Theorem extractYouTubeId_idempotent input id :
  extractYouTubeId new_URL input = Some id ->
  extractYouTubeId new_URL (JString id) = Some id /\
  forall s, JsString.trim s = id ->
    extractYouTubeId new_URL (JString s) = Some id.
Proof.
  intros H. pose proof (extractYouTubeId_valid input id H) as Hv.
  assert (Ht : JsString.trim id = id).
  { apply trim_id. apply matches_id_spec in Hv. apply Hv. }
  split.
  - rewrite <- Ht at 2. apply extractYouTubeId_raw. rewrite Ht. exact Hv.
  - intros s Hs. rewrite <- Hs. apply extractYouTubeId_raw. rewrite Hs. exact Hv.
Qed.

(** X26. The URL shapes that are accepted.  For an input that is not itself a
    bare id and that parses as a URL: with host [youtu.be] (a leading
    [www.] apart) and path [/ID] the result is [ID]; with host
    [youtube.com] or [music.youtube.com] it is [ID] for the path
    [/watch] with the query parameter [v = ID], and for the paths
    [/embed/ID], [/shorts/ID] and [/v/ID], a further path segment
    allowed; [ID] being any 11 characters of [[A-Za-z0-9_-]]. *)
Theorem extractYouTubeId_formats s url id :
  s <> "" -> matches_id (JsString.trim s) = false ->
  new_URL (withProto (JsString.trim s)) = Some url ->
  matches_id id = true ->
  let host := replace_prefix "www." (hostname url) in
  let result := extractYouTubeId new_URL (JString s) in
  (host = "youtu.be" -> pathname url = "/" ++ id -> result = Some id) /\
  (host = "youtube.com" \/ host = "music.youtube.com" ->
   (pathname url = "/watch" -> searchParams_get url "v" = Some id ->
    result = Some id) /\
   (forall kind rest,
      kind = "embed" \/ kind = "shorts" \/ kind = "v" ->
      rest = "" \/ (exists rest', rest = String "/" rest') ->
      pathname url = "/" ++ kind ++ "/" ++ id ++ rest ->
      result = Some id)).
Proof.
  intros Hs Hraw Hurl Hid host result.
  assert (Ht : JsString.truthy s = true) by (apply truthy_nonempty; exact Hs).
  assert (Hchars : all_id_chars id = true)
    by (apply matches_id_spec in Hid; apply Hid).
  assert (Hidt : JsString.truthy id = true) by (apply matches_id_nonempty, Hid).
  assert (Hseg : forall rest,
            rest = "" \/ (exists rest', rest = String "/" rest') ->
            split_slash (id ++ rest) = id :: match rest with
                                             | "" => []
                                             | String _ r => split_slash r
                                             end).
  { intros rest [-> | (rest' & ->)].
    - rewrite append_nil_r. apply (split_slash_id id ""). exact Hchars.
    - apply split_slash_id. exact Hchars. }
  unfold result, extractYouTubeId. rewrite Ht, Hraw, Hurl. cbn [negb].
  fold host. split.
  - intros Hh Hp. rewrite Hh, Hp. cbn [String.eqb Ascii.eqb Bool.eqb].
    rewrite append_cons, append_nil_l.
    change (replace_prefix "/" (String "/" id)) with id.
    rewrite before_query_id by exact Hchars. unfold isValidId. rewrite Hid.
    reflexivity.
  - intros Hh.
    assert (Hh1 : String.eqb host "youtu.be" = false).
    { destruct Hh as [-> | ->]; reflexivity. }
    assert (Hh2 : String.eqb host "youtube.com"
                  || String.eqb host "music.youtube.com" = true).
    { destruct Hh as [-> | ->]; reflexivity. }
    rewrite Hh1, Hh2. split.
    + intros Hp Hv. rewrite Hp, Hv. cbn [String.eqb Ascii.eqb Bool.eqb orb].
      unfold isValidId. rewrite Hidt, Hid. reflexivity.
    + intros kind rest Hk Hrest Hp. rewrite Hp.
      specialize (Hseg rest Hrest).
      unfold segment_id, isValidId.
      destruct Hk as [-> | [-> | ->]];
        repeat (rewrite append_cons || rewrite append_nil_l);
        cbn; rewrite ?prefix_nil; cbn; rewrite Hseg; cbn;
        rewrite before_query_id by exact Hchars;
        rewrite Hidt, Hid; reflexivity.
Qed.

End Parser.

Lemma extractYouTubeId_sound_witness :
  isValidId "dQw4w9WgXcQ" = true /\ String.length "dQw4w9WgXcQ" = 11%nat.
Proof.
  destruct (extractYouTubeId_sound (fun _ => None) (JString "  dQw4w9WgXcQ ") "dQw4w9WgXcQ")
    as (H1 & H2 & _); [reflexivity|]. split; assumption.
Defined.


Lemma extractYouTubeId_idempotent_witness :
  extractYouTubeId (fun _ => None) (JString "dQw4w9WgXcQ") = Some "dQw4w9WgXcQ".
Proof.
  destruct (extractYouTubeId_idempotent (fun _ => None) (JString "  dQw4w9WgXcQ ") "dQw4w9WgXcQ")
    as (H1 & _); [reflexivity | exact H1].
Defined.


Lemma extractYouTubeId_formats_witness :
  extractYouTubeId
    (fun _ => Some {| hostname := "www.youtube.com";
                      pathname := "/embed/dQw4w9WgXcQ";
                      searchParams_get := fun _ => None |})
    (JString "youtube.com/embed/dQw4w9WgXcQ")
  = Some "dQw4w9WgXcQ".
Proof.
  destruct (extractYouTubeId_formats
              (fun _ => Some {| hostname := "www.youtube.com";
                                pathname := "/embed/dQw4w9WgXcQ";
                                searchParams_get := fun _ => None |})
              "youtube.com/embed/dQw4w9WgXcQ"
              {| hostname := "www.youtube.com";
                 pathname := "/embed/dQw4w9WgXcQ";
                 searchParams_get := fun _ => None |}
              "dQw4w9WgXcQ" ltac:(discriminate) eq_refl eq_refl eq_refl)
    as (_ & H).
  destruct H as (_ & H); [left; reflexivity|].
  apply (H "embed" ""); [left; reflexivity | left; reflexivity | reflexivity].
Defined.

(** ** The tracks of the queues *)

Lemma run_keeps_where
    (Number_toString : float -> string) (String_toNumber : string -> float)
    (extractYouTubeId : JsValue -> option string)
    (G : Env -> Inbound -> Prop) (P : RoomManager -> Prop) :
  (forall env ev, G env ev ->
     keeps_fresh P (fun _ _ => True) env
       (handle Number_toString String_toNumber env extractYouTubeId ev)) ->
  forall evs m, Forall (fun e => G (fst e) (snd e)) evs -> P m ->
  exists m',
    run_events Number_toString String_toNumber extractYouTubeId evs m = Some m'
    /\ P m'.
Proof.
  intros Hk evs. induction evs as [|[env ev] evs IH]; intros m HG HP.
  - exists m. split; [reflexivity | exact HP].
  - inversion HG as [|? ? H1 H2]; subst. cbn [fst snd] in H1.
    pose proof (Hk env ev H1 (start m) HP I) as Hwp.
    cbn [run_events]. unfold step, wp in *.
    destruct (handle _ _ _ _ _ _) as [a w'|w'|]; cbn; [| |contradiction];
      apply IH; assumption.
Qed.

Lemma Forall_splice1 (T : Track -> Prop) i q : Forall T q -> Forall T (splice1 i q).
Proof.
  intros H. rewrite splice1_take_drop. apply Forall_app. split.
  - apply Forall_take. exact H.
  - apply Forall_drop. exact H.
Qed.

Lemma update_tracks T r r' :
  update T r r' -> Forall T (queue r) -> Forall T (queue r').
Proof.
  intros [now t Ht|now i Hi|now H1 H2|now H1|now t H1|now|d H1 H2] HF.
  - unfold added. destruct (_ =? _)%Z; cbn; apply Forall_app;
      (split; [exact HF|]); apply Forall_singleton; exact Ht.
  - unfold removed.
    destruct (_ <? _)%Z; [cbn; apply Forall_splice1; exact HF|].
    destruct (_ =? _)%Z; [|cbn; apply Forall_splice1; exact HF].
    cbn [queue set_queue].
    destruct (_ =? _)%Z; [|destruct (_ >=? _)%Z]; cbn;
      apply Forall_splice1; exact HF.
  - exact HF.
  - exact HF.
  - unfold sought. destruct (playbackState r); exact HF.
  - unfold advanced. destruct (_ =? _)%Z; [|destruct (_ <? _)%Z]; exact HF.
  - exact HF.
Qed.

Lemma from_queue_add_ok new_URL env ev :
  from_queue_add new_URL ev -> adds_only track_ok env ev.
Proof.
  destruct ev as [name|ws msg|ws|u yt ti th]; cbn; trivial.
  intros (url & res & Hid & Hmeta) r. unfold track_ok, new_track. cbn.
  pose proof (extractYouTubeId_valid new_URL url yt Hid) as Hv.
  split; [exact Hv|].
  assert (Hth : th = YouTube.thumbnail_url yt /\ truthy ti = true).
  { unfold YouTube.fetchVideoMeta in Hmeta.
    destruct res as [| | |t]; try (injection Hmeta as <- <-; split; reflexivity).
    injection Hmeta as Ht <-. split; [reflexivity|].
    unfold or_else in Ht. destruct (truthy t) eqn:E.
    - subst t. exact E.
    - subst ti. reflexivity. }
  destruct Hth as [-> Hti]. repeat split; [exact Hti].
Qed.

Section Tracks.
Variable Number_toString : float -> string.
Variable String_toNumber : string -> float.
Variable extractYouTubeId : JsValue -> option string.
Variable T : Track -> Prop.

Lemma tracks_handle env ev :
  adds_only T env ev ->
  keeps_fresh (all_rooms (fun r => Forall T (queue r))) (fun _ _ => True) env
    (handle Number_toString String_toNumber env extractYouTubeId ev).
Proof.
  intros HT. apply (inv_handle _ _ _ _ _ T); [| | | | |exact HT].
  - intros env' v. apply keeps_leaveRoom.
    + intros m v' c HP _ _. exact HP.
    + intros m v' c r HP _ _. unfold exit_room.
      apply all_rooms_alter; [|exact HP]. intros r0 _ H. exact H.
    + intros m v' roomId HP. apply all_rooms_alter; [|exact HP].
      intros r0 _ H. unfold migrate_host.
      destruct (decide _); [destruct (_ <? _)%nat|]; exact H.
    + intros m roomId r HP _ _. apply all_rooms_delete; exact HP.
  - intros m k r r' HP Hr Hu. apply all_rooms_alter; [|exact HP].
    intros r0 Hr0 H0. rewrite Hr in Hr0. injection Hr0 as <-.
    apply (update_tracks _ _ _ Hu H0).
  - intros m u c r HP _ Hr. apply all_rooms_alter; [|exact HP].
    intros r0 Hr0 H0. rewrite Hr in Hr0. injection Hr0 as <-. exact H0.
  - intros m roomId r ws u user HP _ Hr. unfold joined.
    apply (all_rooms_alter _ (fun _ => seat_user u user r) roomId
             (set_connections _ (set_wsToUser _ m))); [|exact HP].
    intros r0 Hr0 H0. cbn in Hr0. rewrite Hr in Hr0. injection Hr0 as <-.
    unfold seat_user. destruct (_ =? _)%nat; exact H0.
  - intros m id name now HP _. apply all_rooms_insert; [|exact HP].
    apply Forall_nil. trivial.
Qed.

End Tracks.

(** X7. After every event of every run from the empty manager in which
    [addTrack] is only called as [handleQueueAdd] calls it, with the id
    that [extractYouTubeId] found and the metadata that [fetchVideoMeta]
    returned for it, whatever sockets fail and whatever the URL parser
    and the oEmbed service answered: every track of every queue has a
    video id of 11 characters of [[A-Za-z0-9_-]], the thumbnail URL of
    that id, a title that is truthy (the title of the oEmbed answer,
    which need not be a string, or ["Unknown Track"]), and duration 0. *)
Theorem tracks_after_every_event
    (Number_toString : float -> string) (String_toNumber : string -> float)
    (new_URL : string -> option YouTube.URL)
    (evs : list (Env * Inbound)) :
  Forall (fun e => from_queue_add new_URL (snd e)) evs ->
  exists m,
    run_events Number_toString String_toNumber
      (YouTube.extractYouTubeId new_URL) evs constructor_ = Some m /\
    forall roomId r t, rooms m !! roomId = Some r -> t ∈ queue r ->
      YouTube.matches_id (youtubeId t) = true /\
      String.length (youtubeId t) = 11%nat /\
      thumbnail t
      = "https://img.youtube.com/vi/" ++ youtubeId t ++ "/mqdefault.jpg" /\
      truthy (title t) = true /\ duration t = 0%Z.
Proof.
  intros Hevs.
  destruct (run_keeps_where Number_toString String_toNumber
              (YouTube.extractYouTubeId new_URL)
              (fun env ev => adds_only track_ok env ev)
              (all_rooms (fun r => Forall track_ok (queue r)))
              (fun env ev H => tracks_handle _ _ _ track_ok env ev H)
              evs constructor_) as (m & Hrun & HP).
  - eapply Forall_impl; [exact Hevs|]. intros [env ev] H.
    apply (from_queue_add_ok new_URL). exact H.
  - intros k r H. cbn in H. rewrite lookup_empty in H. discriminate.
  - exists m. split; [exact Hrun|]. intros roomId r t Hr Ht.
    specialize (HP _ _ Hr). rewrite Forall_forall in HP.
    destruct (HP t Ht) as (H1 & H2 & H3 & H4).
    split; [exact H1|]. split; [apply matches_id_spec in H1; apply H1|].
    split; [exact H2|]. split; assumption.
Qed.

Lemma tracks_after_every_event_witness :
  exists m r,
    run_events (fun _ => "") (fun _ => nan)
      (YouTube.extractYouTubeId (fun _ => None)) demo_run constructor_ = Some m /\
    rooms m !! "roomA" = Some r /\
    map title (queue r) = [JNumber 123] /\
    Forall (fun t => String.length (youtubeId t) = 11%nat /\
                     truthy (title t) = true) (queue r).
Proof.
  destruct (tracks_after_every_event (fun _ => "") (fun _ => nan)
              (fun _ => None) demo_run) as (m & Hrun & H).
  - repeat constructor.
    exists (JString " dQw4w9WgXcQ"), (YouTube.json_title (JNumber 123)).
    split; reflexivity.
  - assert (Hr : exists r, rooms m !! "roomA" = Some r /\
                           map title (queue r) = [JNumber 123]).
    { vm_compute in Hrun. injection Hrun as <-. eexists.
      split; reflexivity. }
    destruct Hr as (r & Hr & Hq). exists m, r. split; [exact Hrun|].
    split; [exact Hr|]. split; [exact Hq|].
    apply Forall_forall. intros t Ht.
    destruct (H _ _ _ Hr Ht) as (_ & H2 & _ & H4 & _). split; assumption.
Defined.

(** ** A user that leaves is gone *)

Section Leaving.
Variable env : Env.
Variable P : RoomManager -> Prop.
Hypothesis P_unbind : forall m v c,
  P m -> connections m !! v = Some c ->
  rooms m !! conn_roomId c = None -> P (unbind v c m).
Hypothesis P_exit : forall m v c r,
  P m -> connections m !! v = Some c ->
  rooms m !! conn_roomId c = Some r ->
  P (exit_room v (conn_roomId c) (unbind v c m)).
Hypothesis P_migrate : forall m v roomId,
  P m -> P (set_rooms (alter (migrate_host v) roomId (rooms m)) m).
Hypothesis P_prune : forall m roomId r,
  P m -> rooms m !! roomId = Some r -> JsMap.size (users r) = O ->
  P (set_rooms (delete roomId (rooms m)) m).

(** [leaveRoom(u)] ends in [P] as soon as its first writes establish
    [P] and the writes of the evictions keep it. *)
Lemma leaveRoom_establishes u c w :
  connections (mgr w) !! u = Some c ->
  (rooms (mgr w) !! conn_roomId c = None -> P (unbind u c (mgr w))) ->
  (forall r, rooms (mgr w) !! conn_roomId c = Some r ->
     P (exit_room u (conn_roomId c) (unbind u c (mgr w)))) ->
  wp (leaveRoom env u) (fun _ w' => P (mgr w')) (fun _ => False) w.
Proof.
  intros Hc H0 H1. unfold leaveRoom.
  set (n := size (connections (mgr w))).
  assert (Hn : n <> O) by (apply (map_size_ne_0_lookup_2 _ u); eauto).
  cbn [leaveRoom_fuel]. unfold leaveRoom_body.
  apply wp_bind. unfold wp at 1, gets. rewrite Hc.
  apply wp_bind. unfold wp at 1, gets.
  apply wp_bind. unfold wp at 1, modify.
  apply wp_bind. unfold wp at 1, modify. cbn [mgr sent ticks].
  assert (Hsz : (size (delete u (connections (mgr w))) <= pred n)%nat).
  { rewrite map_size_delete, Hc. unfold n. simpl. lia. }
  assert (Hleave : forall v w', within P (pred n) w' -> True ->
            wp (leaveRoom_fuel env n v) (fun _ => within P (pred n))
               (fun _ => False) w').
  { intros v w' Hw' _.
    apply (leaveRoom_fuel_wp env P (fun _ => True) (fun _ => False)
             (fun _ _ _ _ _ _ => I)
             (fun m v0 c0 HP _ => P_unbind m v0 c0 HP)
             (fun m v0 c0 r0 HP _ => P_exit m v0 c0 r0 HP)
             P_migrate P_prune n (pred n) v w'); [lia | exact Hw' | exact I]. }
  destruct (rooms (mgr w) !! conn_roomId c) as [r|] eqn:Hr.
  - apply wp_bind. unfold wp at 1, update_room, modify. cbn [mgr sent ticks].
    eapply wp_seq.
    + apply (broadcastToRoom_with_wp env P (fun _ => True) (fun _ => False)
               (fun _ _ _ _ _ _ => I) _ (pred n)); [exact Hleave|].
      split; [exact (H1 r eq_refl) | exact Hsz].
    + intros a w1 [HP2 _].
      apply wp_bind. unfold wp at 1, update_room, modify. cbn [mgr sent ticks].
      apply wp_bind. unfold wp at 1, gets.
      cbn [mgr sent ticks rooms connections wsToUser set_rooms].
      pose proof (P_migrate _ u (conn_roomId c) HP2) as HP3.
      destruct (alter (migrate_host u) (conn_roomId c) (rooms (mgr w1))
                  !! conn_roomId c) as [r'|] eqn:Hr'; [|exact HP3].
      destruct (Nat.eqb (JsMap.size (users r')) 0) eqn:He; [|exact HP3].
      unfold wp, modify. cbn [mgr sent ticks].
      apply Nat.eqb_eq in He. apply (P_prune _ _ _ HP3 Hr' He).
  - exact (H0 eq_refl).
Qed.

End Leaving.

Lemma gone_alter u c f k m :
  (forall r x, x ∈ JsMap.keys (users (f r)) -> x ∈ JsMap.keys (users r)) ->
  gone u c m -> gone u c (set_rooms (alter f k (rooms m)) m).
Proof.
  intros Hf (H1 & H2 & H3). split; [exact H1|]. split; [exact H2|].
  intros k' r'. cbn. rewrite lookup_alter_Some.
  intros [[-> (r0 & Hr0 & ->)] | [_ Hr0]]; [|eauto].
  intros Hin. apply (H3 _ _ Hr0). apply Hf. exact Hin.
Qed.

Lemma gone_unbind u c v cv m : gone u c m -> gone u c (unbind v cv m).
Proof.
  intros (H1 & H2 & H3). split; [|split; [|exact H3]]; cbn.
  - apply lookup_delete_None. right. exact H1.
  - apply lookup_delete_None. right. exact H2.
Qed.

(** X9. Whatever sockets fail, [leaveRoom] of a connected user that is a
    user of no room but that of its connection, and the closing of a
    socket bound to it, return with the user gone: it has no connection
    entry, the socket of its entry is bound to nobody, and no room lists
    it as a user. *)
Theorem leaveRoom_removes_user env u c w :
  connections (mgr w) !! u = Some c ->
  (forall k r, rooms (mgr w) !! k = Some r -> u ∈ JsMap.keys (users r) ->
     k = conn_roomId c) ->
  exists w',
    leaveRoom env u w = Returned tt w' /\
    connections (mgr w') !! u = None /\
    wsToUser (mgr w') !! conn_ws c = None /\
    (forall k r, rooms (mgr w') !! k = Some r -> u ∉ JsMap.keys (users r)) /\
    (forall ws, wsToUser (mgr w) !! ws = Some u -> u <> "" ->
       close env ws w = Returned tt w').
Proof.
  intros Hc Hone.
  assert (Hwp : wp (leaveRoom env u) (fun _ w' => gone u c (mgr w'))
                  (fun _ => False) w).
  { apply (leaveRoom_establishes env (gone u c)) with (c := c); [| | | |exact Hc| |].
    - intros m v cv H _ _. apply gone_unbind, H.
    - intros m v cv r H _ _. unfold exit_room.
      apply gone_alter; [|apply gone_unbind, H].
      intros r0 x Hx. cbn in Hx. apply JsMap_keys_delete in Hx. apply Hx.
    - intros m v k H. apply gone_alter; [|exact H].
      intros r0 x. rewrite users_migrate_host. trivial.
    - intros m k r (H1 & H2 & H3) _ _. split; [exact H1|]. split; [exact H2|].
      intros k' r'. cbn. rewrite lookup_delete_Some. intros [_ Hr']. eauto.
    - intros Hr. split; [|split]; cbn.
      + apply lookup_delete_eq.
      + apply lookup_delete_eq.
      + intros k r Hk Hin. rewrite (Hone _ _ Hk Hin) in Hk. congruence.
    - intros r Hr. split; [|split]; cbn.
      + apply lookup_delete_eq.
      + apply lookup_delete_eq.
      + intros k r'. rewrite lookup_alter_Some.
        intros [[<- (r0 & Hr0 & ->)] | [Hne Hr0]] Hin.
        * cbn in Hin. apply JsMap_keys_delete in Hin. destruct Hin as [_ Hin].
          apply Hin. reflexivity.
        * apply Hne. symmetry. eapply Hone; eauto. }
  apply wp_returns_tt in Hwp. destruct Hwp as (w' & Hrun & H1 & H2 & H3).
  exists w'. split; [exact Hrun|]. split; [exact H1|]. split; [exact H2|].
  split; [exact H3|].
  intros ws Hws Hne. unfold close, leaveByWs, bind, gets. rewrite Hws.
  assert (Ht : JsString.truthy u = true) by (apply truthy_nonempty; exact Hne).
  rewrite Ht. exact Hrun.
Qed.

Lemma leaveRoom_removes_user_witness :
  exists w',
    leaveRoom
      {| clock := fun _ => 9000%Z; fails := fun ws => Nat.eqb ws 2;
         nanoid := "fresh" |} "u1" (start demo) = Returned tt w' /\
    connections (mgr w') !! "u1" = None.
Proof.
  destruct (leaveRoom_removes_user
              {| clock := fun _ => 9000%Z; fails := fun ws => Nat.eqb ws 2;
                 nanoid := "fresh" |} "u1"
              {| conn_ws := 1%nat; conn_roomId := "r1" |} (start demo))
    as (w' & Hrun & H & _).
  - reflexivity.
  - intros k r Hk _. cbn in Hk. apply lookup_singleton_Some in Hk.
    destruct Hk as [<- _]. reflexivity.
  - exists w'. split; assumption.
Defined.

(** ** The HTTP routes *)

(** X27. A room that [POST /api/rooms] has answered with [id] and [name] is
    what [GET /api/rooms/id] finds: it answers that id, that name and a
    user count of 0, and the creation has touched no other room and no
    connection.  A [GET] of an id under which no room is stored answers
    404 and changes nothing. *)
Theorem post_then_get env body w id name w' :
  post_api_rooms env body w = Returned (created id name) w' ->
  get_api_rooms id w' = Returned (room_info id name 0) w' /\
  (forall id', id' <> id -> rooms (mgr w') !! id' = rooms (mgr w) !! id') /\
  connections (mgr w') = connections (mgr w) /\
  wsToUser (mgr w') = wsToUser (mgr w) /\
  (forall id', rooms (mgr w') !! id' = None ->
     get_api_rooms id' w' = Returned (http_error 404 "Room not found") w').
Proof.
  intros Hpost.
  assert (Hcr : exists nm, createRoom env nm w = Returned (id, name) w').
  { unfold post_api_rooms in Hpost. destruct body as [| |nm];
      [exists JUndefined | discriminate | exists nm];
      unfold bind, ret in Hpost;
      destruct (createRoom env _ w) as [[i n] w0|w0|]; try discriminate;
      injection Hpost as <- <- <-; reflexivity. }
  destruct Hcr as (nm & Hcr).
  destruct (createRoom_cases env nm w) as [(rn & H) | (H & _)];
    [|rewrite H in Hcr; discriminate].
  rewrite H in Hcr. injection Hcr as <- <- <-.
  split; [|split; [|split; [|split]]].
  - unfold get_api_rooms, getRoom, bind, gets, ret.
    cbn [mgr rooms set_rooms]. rewrite lookup_insert_eq. reflexivity.
  - intros id' Hne. cbn. apply lookup_insert_ne. congruence.
  - reflexivity.
  - reflexivity.
  - intros id' Hnone. unfold get_api_rooms, getRoom, bind, gets, ret.
    rewrite Hnone. reflexivity.
Qed.

Lemma post_then_get_witness :
  exists w',
    post_api_rooms (demo_env 1000) (json_name (JString " Friday "))
      (start constructor_) = Returned (created "fresh" "Friday") w' /\
    get_api_rooms "fresh" w' = Returned (room_info "fresh" "Friday" 0) w'.
Proof.
  eexists. split; [reflexivity|].
  apply (post_then_get (demo_env 1000) (json_name (JString " Friday "))
           (start constructor_) "fresh" "Friday"). reflexivity.
Defined.

(** X28. [GET /api/youtube/resolve] answers with a video only for a [url]
    parameter in which [extractYouTubeId] finds an id: the id answered
    has 11 characters of [[A-Za-z0-9_-]], the thumbnail is the thumbnail
    URL of that id, and the title is truthy (["Unknown Track"] unless
    the oEmbed answer was read and had a truthy title), whatever the
    URL parser and the oEmbed service answered.  An absent or empty
    parameter is answered with 400. *)
Theorem resolve_sound new_URL url res :
  (forall id ti th,
     get_api_youtube_resolve new_URL url res = resolved id ti th ->
     YouTube.matches_id id = true /\
     th = "https://img.youtube.com/vi/" ++ id ++ "/mqdefault.jpg" /\
     truthy ti = true /\
     ((forall t, res <> YouTube.json_title t) -> ti = JString "Unknown Track") /\
     exists u, url = Some u /\
       YouTube.extractYouTubeId new_URL (JString u) = Some id) /\
  (url = None \/ url = Some "" ->
   get_api_youtube_resolve new_URL url res
   = http_error 400 "url query param required").
Proof.
  split.
  - intros id ti th H. unfold get_api_youtube_resolve in H.
    destruct url as [u|]; [|discriminate].
    destruct (JsString.truthy u); [|discriminate]. cbn [negb] in H.
    destruct (YouTube.extractYouTubeId new_URL (JString u)) as [y|] eqn:Hy;
      [|discriminate].
    injection H as <- <- <-.
    pose proof (extractYouTubeId_valid new_URL _ _ Hy) as Hv.
    split; [exact Hv|]. split.
    { unfold YouTube.fetchVideoMeta. destruct res; reflexivity. }
    split.
    { unfold YouTube.fetchVideoMeta. destruct res as [| | |t]; try reflexivity.
      cbn. unfold or_else. destruct (truthy t) eqn:E; [exact E | reflexivity]. }
    split.
    { intros Hres. unfold YouTube.fetchVideoMeta.
      destruct res as [| | |t]; try reflexivity.
      exfalso. eapply Hres. reflexivity. }
    exists u. split; [reflexivity | exact Hy].
  - intros [-> | ->]; reflexivity.
Qed.
